(** * LISA: scheduler, suite engine and subclass factory

    A shallow embedding of
    - [lisa/testsuite.py]   ([TestResult.set_status], [TestSuite.start]),
    - [lisa/lisarunner.py]  ([LisaRunner.start] and its helpers),
    - [lisa/util/subclasses.py] ([Factory]),
    together with the properties of the design document that concern them.

    Python objects that are shared and mutated (the [TestResult]s of a run)
    live in a store, a list indexed by the position of the result in
    [selected_test_results]; every Python list of results is a list of
    indices into that store.  Everything outside the three modules
    (environments, platform, search spaces, the hooks of a suite) acts on an
    abstract [World].  Calls that leave the modules are recorded in a trace. *)

From Stdlib Require Import String Ascii List Bool Arith Lia.
From stdpp Require Import base option list gmap strings.

Import ListNotations.
Local Open Scope string_scope.
Local Open Scope list_scope.

(** ** Strings *)

Definition empty_str : string := EmptyString.

(** Python's truth value of a [str]. *)
Definition str_truthy (s : string) : bool :=
  match s with
  | EmptyString => false
  | String _ _ => true
  end.

Definition newline : string := String (ascii_of_nat 10) EmptyString.

(** [sep.join(l)] *)
Definition join (sep : string) (l : list string) : string :=
  String.concat sep l.

(** ** testsuite.py: data *)

Inductive TestStatus :=
| NOTRUN | RUNNING | FAILED | PASSED | SKIPPED | ATTEMPTED.

#[global] Instance TestStatus_eq_dec : EqDecision TestStatus.
Proof. solve_decision. Defined.

Definition TestStatus_to_nat (t : TestStatus) : nat :=
  match t with
  | NOTRUN => 1 | RUNNING => 2 | FAILED => 3
  | PASSED => 4 | SKIPPED => 5 | ATTEMPTED => 6
  end.

Definition TestStatus_of_nat (n : nat) : option TestStatus :=
  match n with
  | 1 => Some NOTRUN | 2 => Some RUNNING | 3 => Some FAILED
  | 4 => Some PASSED | 5 => Some SKIPPED | 6 => Some ATTEMPTED
  | _ => None
  end.

#[global] Program Instance TestStatus_countable : Countable TestStatus :=
  inj_countable TestStatus_to_nat TestStatus_of_nat _.
Next Obligation. by intros []. Qed.

(** The members of the enumeration, in declaration order
    ([for key in TestStatus]). *)
Definition all_TestStatus : list TestStatus :=
  [NOTRUN; RUNNING; FAILED; PASSED; SKIPPED; ATTEMPTED].

(** The four statuses the design calls terminal. *)
Definition terminal (t : TestStatus) : bool :=
  match t with
  | FAILED | PASSED | SKIPPED | ATTEMPTED => true
  | NOTRUN | RUNNING => false
  end.

(** [search_space.ResultReason]: the outcome of a capability check. *)
Record ResultReason := {
  result : bool;
  reasons : list string;
}.

(** What an exception carries as far as this code looks at it: [str(e)]. *)
Inductive Outcome :=
| Returned
| Raise (identifier : string).

(** Exceptions that leave the scheduler. *)
Inductive Exn :=
| WaitMoreResourceError (identifier : string)
| AssertionError (identifier : string)
| OtherException (identifier : string).

(** ** External collaborators

    The modules below are not part of the three files: [lisa.environment],
    [lisa.search_space], [lisa.platform_], Python's [str()] of a list, and
    whoever calls [TestSuite.stop].  They are taken as an interface. *)
Class Collaborators := {
  World : Type;
  (** a reference to a [lisa.environment.Environment]; its mutable parts
      ([is_ready], [capability], [nodes]) are read from the world *)
  Environment : Type;
  Node : Type;
  EnvironmentSpace : Type;
  PlatformSpace : Type;
  OsSpace : Type;
  env_name : Environment -> string;
  env_is_ready : Environment -> World -> bool;
  env_nodes : Environment -> World -> list Node;
  (** [requirement.environment.check(environment.capability)] *)
  environment_space_check :
    EnvironmentSpace -> Environment -> World -> ResultReason;
  (** [requirement.os_type.check(SetSpace(items=type(node.os).__mro__))] *)
  os_space_check : OsSpace -> Node -> World -> ResultReason;
  os_space_len : OsSpace -> nat;
  platform_space_len : PlatformSpace -> nat;
  (** [test_req.platform_type.check(SetSpace(items=[platform_type]))] *)
  platform_space_check : PlatformSpace -> string -> ResultReason;
  (** [ResultReason.merge(sub_result, name)] *)
  result_reason_merge : ResultReason -> ResultReason -> string -> ResultReason;
  (** [str(reasons)] for a list of strings, as an f-string renders it *)
  reasons_str : list string -> string;
  (** [Environments.from_requirement], [Environments.get_or_create] *)
  from_requirement : EnvironmentSpace -> World -> World;
  get_or_create : EnvironmentSpace -> World -> World;
  (** whether [TestSuite.stop] has reached the running suite,
      that is the value of [self._should_stop] *)
  stop_requested : World -> bool;
}.

Section Lisa.
Context `{C : Collaborators}.

(** A lifecycle hook or a test method, run on the suite's environment: it
    returns or raises, and changes the world.  Only exceptions derived from
    [Exception] are considered, and a hook is taken not to write to the
    results of the run. *)
Definition Hook : Type := Environment -> World -> Outcome * World.

Record TestCaseRequirement := {
  req_environment : option EnvironmentSpace;
  req_platform_type : option PlatformSpace;
  req_os_type : option OsSpace;
}.

(** The class a suite's metadata decorates: its four hooks. *)
Record TestSuiteClass := {
  before_suite : Hook;
  after_suite : Hook;
  before_case : Hook;
  after_case : Hook;
}.

Record TestSuiteMetadata := {
  suite_name : string;
  suite_requirement : TestCaseRequirement;
  test_class : TestSuiteClass;
}.

Record TestCaseMetadata := {
  name : string;
  full_name : string;
  (** [_func], the decorated method; [getattr(suite, name)] wraps it *)
  func : Hook;
  suite : TestSuiteMetadata;
  (** set only when the case declares its own requirement *)
  case_requirement : option TestCaseRequirement;
}.

(** [metadata.requirement]: the case's own, else through [__getattr__]
    the suite's. *)
Definition requirement (m : TestCaseMetadata) : TestCaseRequirement :=
  match case_requirement m with
  | Some r => r
  | None => suite_requirement (suite m)
  end.

(** The settings of one run of a case.  [retry] and [times] are counts
    (Python's [int], never negative): [retry] the number of further
    attempts after the first, [times] the number of runs. *)
Record TestCaseRuntimeData := {
  metadata : TestCaseMetadata;
  select_action : string;
  times : nat;
  retry : nat;
  use_new_environment : bool;
  ignore_failure : bool;
  environment_name : string;
}.

(** [TestCaseRuntimeData(metadata)] *)
Definition new_TestCaseRuntimeData (m : TestCaseMetadata)
    : TestCaseRuntimeData :=
  {| metadata := m; select_action := empty_str; times := 1; retry := 0;
     use_new_environment := false; ignore_failure := false;
     environment_name := empty_str |}.

(** [elapsed] is wall-clock time and is left out. *)
Record TestResult := {
  runtime_data : TestCaseRuntimeData;
  status : TestStatus;
  message : string;
  env : string;
  check_results : option ResultReason;
}.

(** [TestResult(runtime_data=x)] *)
Definition new_TestResult (x : TestCaseRuntimeData) : TestResult :=
  {| runtime_data := x; status := NOTRUN; message := empty_str;
     env := empty_str; check_results := None |}.

Definition can_run (r : TestResult) : bool :=
  bool_decide (status r = NOTRUN).

Record TestResultMessage := {
  msg_status : TestStatus;
  msg_message : string;
  msg_env : string;
}.

(** What the code does to the outside, in the order it does it. *)
Inductive Event :=
| EvNotify (m : TestResultMessage)
| EvBeforeSuite
| EvAfterSuite
| EvBeforeCase (case : nat)
| EvTestMethod (case : nat)
| EvAfterCase (case : nat)
| EvSuiteStopped
| EvDeploy (environment : string)
| EvDelete (environment : string).

(** The argument of [set_status]: [Union[str, List[str]]]. *)
Inductive Message :=
| MsgStr (s : string)
| MsgList (l : list string).

Definition message_truthy (m : Message) : bool :=
  match m with
  | MsgStr s => str_truthy s
  | MsgList l => negb (bool_decide (l = []))
  end.

Definition with_message (r : TestResult) (m : string) : TestResult :=
  {| runtime_data := runtime_data r; status := status r; message := m;
     env := env r; check_results := check_results r |}.

Definition with_status (r : TestResult) (t : TestStatus) : TestResult :=
  {| runtime_data := runtime_data r; status := t; message := message r;
     env := env r; check_results := check_results r |}.

Definition with_env (r : TestResult) (e : string) : TestResult :=
  {| runtime_data := runtime_data r; status := status r; message := message r;
     env := e; check_results := check_results r |}.

Definition with_check_results (r : TestResult) (c : option ResultReason)
    : TestResult :=
  {| runtime_data := runtime_data r; status := status r; message := message r;
     env := env r; check_results := c |}.

(** The first half of [set_status]: the new text of [self.message]. *)
Definition merged_message (old : string) (m : Message) : string :=
  if message_truthy m then
    let l := match m with MsgStr s => [s] | MsgList l => l end in
    let l := if str_truthy old then old :: l else l in
    join newline l
  else old.

(** [TestResult.set_status]: the updated result and what is notified. *)
Definition set_status (self : TestResult) (new_status : TestStatus)
    (m : Message) : TestResult * list Event :=
  let self := with_message self (merged_message (message self) m) in
  if bool_decide (status self = new_status) then (self, [])
  else
    let self := with_status self new_status in
    (self, [EvNotify {| msg_status := status self;
                        msg_message := message self;
                        msg_env := env self |}]).

(** ** The store and its state monad *)

Record State := {
  results : list TestResult;
  world : World;
  trace : list Event;
}.

Definition St (A : Type) : Type := State -> A * State.

Definition ret {A} (a : A) : St A := fun s => (a, s).

Definition bind {A B} (m : St A) (k : A -> St B) : St B :=
  fun s => let '(a, s') := m s in k a s'.

Declare Scope st_scope.
Delimit Scope st_scope with St.
Notation "x <- c1 ;; c2" := (bind c1 (fun x => c2))
  (at level 100, c1 at next level, right associativity) : st_scope.
Notation "c1 ;; c2" := (bind c1 (fun _ => c2))
  (at level 100, right associativity) : st_scope.

Definition default_hook : Hook := fun _ w => (Returned, w).

Definition default_TestResult : TestResult :=
  let cls := {| before_suite := default_hook; after_suite := default_hook;
                before_case := default_hook; after_case := default_hook |} in
  let req := {| req_environment := None; req_platform_type := None;
                req_os_type := None |} in
  let st := {| suite_name := empty_str; suite_requirement := req;
               test_class := cls |} in
  new_TestResult (new_TestCaseRuntimeData
    {| name := empty_str; full_name := empty_str; func := default_hook;
       suite := st; case_requirement := None |}).

#[global] Instance TestResult_inhabited : Inhabited TestResult :=
  populate default_TestResult.

(** Dereference a result; every index the code holds is in the store. *)
Definition get_result (i : nat) : St TestResult :=
  fun s => (results s !!! i, s).

Definition put_result (i : nat) (r : TestResult) : St unit :=
  fun s => (tt, {| results := <[i := r]> (results s);
                   world := world s; trace := trace s |}).

Definition emit (evs : list Event) : St unit :=
  fun s => (tt, {| results := results s; world := world s;
                   trace := trace s ++ evs |}).

Definition get_world : St World := fun s => (world s, s).

(** [case_result.set_status(new_status, message)] on the shared object. *)
Definition set_status_at (i : nat) (new_status : TestStatus) (m : Message)
    : St unit :=
  (r <- get_result i ;;
   let '(r', evs) := set_status r new_status m in
   put_result i r' ;;
   emit evs)%St.

(** Run a hook once on the world, recording the call. *)
Definition call_hook (ev : Event) (h : Hook) (environment : Environment)
    : St Outcome :=
  fun s =>
    let '(o, w) := h environment (world s) in
    (o, {| results := results s; world := w; trace := trace s ++ [ev] |}).

(** [retry_call(f, exceptions=Exception, tries=tries)] of the package
    [retry], which is not part of the repository: a budget of [tries]
    attempts, every exception of an attempt counting towards it.  Its loop
    is [while _tries:] call [f] and return; on an exception count [_tries]
    down and re-raise when it reaches zero.  The exception it lets through
    is returned as [Raise]. *)
Fixpoint retry_call (f : St Outcome) (tries : nat) : St Outcome :=
  match tries with
  | O => ret Returned
  | S tries' =>
      (o <- f ;;
       match o with
       | Returned => ret Returned
       | Raise e =>
           match tries' with
           | O => ret (Raise e)
           | S _ => retry_call f tries'
           end
       end)%St
  end.

(** ** testsuite.py: [TestSuite] *)

Record TestSuite := {
  environment : Environment;
  case_results : list nat;
  _metadata : TestSuiteMetadata;
}.

(** The part of one iteration of the loop of [start] before [after_case]:
    [before_case] (or the skip when [before_suite] failed) and the test
    method. *)
Definition start_case_body (self : TestSuite) (is_suite_continue : bool)
    (suite_error_message : string) (i : nat) : St unit :=
  (case_result <- get_result i ;;
   let rd := runtime_data case_result in
   let test_method := func (metadata rd) in
   is_continue <-
     (if is_suite_continue then
        o <- retry_call (call_hook (EvBeforeCase i)
                           (before_case (test_class (_metadata self)))
                           (environment self))
                        (retry rd + 1) ;;
        match o with
        | Returned => ret true
        | Raise identifier =>
            set_status_at i SKIPPED (MsgStr ("before_case: " +:+ identifier)) ;;
            ret false
        end
      else
        set_status_at i SKIPPED (MsgStr suite_error_message) ;;
        ret false) ;;
   if is_continue : bool then
     o <- retry_call (call_hook (EvTestMethod i) test_method (environment self))
                     (retry rd + 1) ;;
     match o with
     | Returned => set_status_at i PASSED (MsgStr empty_str)
     | Raise identifier =>
         if ignore_failure rd then
           set_status_at i ATTEMPTED (MsgStr identifier)
         else
           set_status_at i FAILED (MsgStr ("failed: " +:+ identifier))
     end
   else ret tt)%St.

(** [after_case] under the same budget; what it raises is only logged. *)
Definition start_case_after (self : TestSuite) (i : nat) : St unit :=
  (case_result <- get_result i ;;
   _ <- retry_call (call_hook (EvAfterCase i)
                      (after_case (test_class (_metadata self)))
                      (environment self))
                   (retry (runtime_data case_result) + 1) ;;
   ret tt)%St.

(** One iteration of [for case_result in self.case_results]; the value is
    [self._should_stop] as read at the end of the iteration. *)
Definition start_case (self : TestSuite) (is_suite_continue : bool)
    (suite_error_message : string) (i : nat) : St bool :=
  (start_case_body self is_suite_continue suite_error_message i ;;
   start_case_after self i ;;
   w <- get_world ;;
   ret (stop_requested w))%St.

(** The loop, with its [break] on a stop request. *)
Fixpoint start_cases (self : TestSuite) (is_suite_continue : bool)
    (suite_error_message : string) (l : list nat) : St unit :=
  match l with
  | [] => ret tt
  | i :: l' =>
      (stop <- start_case self is_suite_continue suite_error_message i ;;
       if stop : bool then emit [EvSuiteStopped]
       else start_cases self is_suite_continue suite_error_message l')%St
  end.

(** [TestSuite.start] *)
Definition TestSuite_start (self : TestSuite) : St unit :=
  (o <- call_hook EvBeforeSuite (before_suite (test_class (_metadata self)))
                  (environment self) ;;
   let suite_error_message :=
     match o with
     | Returned => empty_str
     | Raise identifier => "before_suite: " +:+ identifier
     end in
   let is_suite_continue :=
     match o with Returned => true | Raise _ => false end in
   start_cases self is_suite_continue suite_error_message (case_results self) ;;
   _ <- call_hook EvAfterSuite (after_suite (test_class (_metadata self)))
                  (environment self) ;;
   ret tt)%St.

(** [TestResult.check_environment]: the loop over the nodes, each merged
    under the name [os_type], left at the first failure. *)
Fixpoint check_os_nodes (os : OsSpace) (w : World) (nodes : list Node)
    (check_result : ResultReason) : ResultReason :=
  match nodes with
  | [] => check_result
  | node :: nodes' =>
      let check_result :=
        result_reason_merge check_result (os_space_check os node w) "os_type" in
      if result check_result then check_os_nodes os w nodes' check_result
      else check_result
  end.

(** Truth value of an [Optional[SetSpace]]: present and not empty. *)
Definition os_type_truthy (o : option OsSpace) : bool :=
  match o with
  | Some os => negb (Nat.eqb (os_space_len os) 0)
  | None => false
  end.

(** The check itself, before anything is saved. *)
Definition compute_check (space : EnvironmentSpace) (req : TestCaseRequirement)
    (e : Environment) (w : World) : ResultReason :=
  let check_result := environment_space_check space e w in
  if result check_result && os_type_truthy (req_os_type req) && env_is_ready e w
  then
    match req_os_type req with
    | Some os => check_os_nodes os w (env_nodes e w) check_result
    | None => check_result
    end
  else check_result.

(** ** lisarunner.py *)

(** The scheduler can be left by an exception. *)
Inductive Res (A : Type) :=
| Done (a : A) (s : State)
| Raised (e : Exn) (s : State).
Arguments Done {A} a s.
Arguments Raised {A} e s.

Definition M (A : Type) : Type := State -> Res A.

Definition retM {A} (a : A) : M A := fun s => Done a s.

Definition bindM {A B} (m : M A) (k : A -> M B) : M B :=
  fun s =>
    match m s with
    | Done a s' => k a s'
    | Raised e s' => Raised e s'
    end.

Definition raise {A} (e : Exn) : M A := fun s => Raised e s.

Definition lift {A} (m : St A) : M A :=
  fun s => let '(a, s') := m s in Done a s'.

(** [try: body finally: fin] *)
Definition try_finally {A} (body : M A) (fin : M unit) : M A :=
  fun s =>
    match body s with
    | Done a s' =>
        match fin s' with
        | Done _ s'' => Done a s''
        | Raised e s'' => Raised e s''
        end
    | Raised e s' =>
        match fin s' with
        | Done _ s'' => Raised e s''
        | Raised e' s'' => Raised e' s''
        end
    end.

Declare Scope run_scope.
Delimit Scope run_scope with M.
Notation "x <- c1 ;; c2" := (bindM c1 (fun x => c2))
  (at level 100, c1 at next level, right associativity) : run_scope.
Notation "c1 ;; c2" := (bindM c1 (fun _ => c2))
  (at level 100, right associativity) : run_scope.

(** [TestResult.check_environment(environment, save_reason)] on result [i]. *)
Definition check_environment (i : nat) (e : Environment) (save_reason : bool)
    : M bool :=
  (self <- lift (get_result i) ;;
   let req := requirement (metadata (runtime_data self)) in
   match req_environment req with
   | None => raise (AssertionError empty_str)
   | Some space =>
       w <- lift get_world ;;
       let check_result := compute_check space req e w in
       (if save_reason then
          let saved :=
            match check_results self with
            | Some old => result_reason_merge old check_result empty_str
            | None => check_result
            end in
          lift (put_result i (with_check_results self (Some saved)))
        else retM tt) ;;
       retM (result check_result)
   end)%M.

(** [lisa.platform_.Platform], as far as the scheduler calls it. *)
Record Platform := {
  type_name : string;
  prepare_environments : World -> list Environment * World;
  deploy_environment : Environment -> World -> option Exn * World;
  delete_environment : Environment -> World -> option Exn * World;
}.

(** A call into the platform: an effect on the world, recorded. *)
Definition call_platform (ev : Event) (f : World -> option Exn * World)
    : M unit :=
  fun s =>
    let '(r, w) := f (world s) in
    let s' := {| results := results s; world := w;
                 trace := trace s ++ [ev] |} in
    match r with
    | None => Done tt s'
    | Some e => Raised e s'
    end.

Definition update_world (f : World -> World) : St unit :=
  fun s => (tt, {| results := results s; world := f (world s);
                   trace := trace s |}).

(** [LisaRunner._run_suite] *)
Definition _run_suite (e : Environment) (cases : list nat) : M unit :=
  match cases with
  | [] => raise (AssertionError empty_str)
  | first :: _ =>
      (r <- lift (get_result first) ;;
       let suite_metadata := suite (metadata (runtime_data r)) in
       let test_suite := {| environment := e; case_results := cases;
                            _metadata := suite_metadata |} in
       lift (fold_right
               (fun i k => (c <- get_result i ;;
                            put_result i (with_env c (env_name e)) ;; k)%St)
               (ret tt) cases) ;;
       lift (TestSuite_start test_suite))%M
  end.

(** [LisaRunner._create_test_results] *)
Definition _create_test_results (cases : list TestCaseRuntimeData)
    : list TestResult :=
  map new_TestResult cases.

Definition platform_type_truthy (o : option PlatformSpace) : bool :=
  match o with
  | Some p => negb (Nat.eqb (platform_space_len p) 0)
  | None => false
  end.

(** The body of the loop of [_merge_test_requirements]. *)
Definition merge_one (platform_type : string) (i : nat) : M unit :=
  (test_result <- lift (get_result i) ;;
   let test_req := requirement (metadata (runtime_data test_result)) in
   match req_platform_type test_req with
   | Some p =>
       if platform_type_truthy (Some p) && Nat.ltb 0 (platform_space_len p) then
         let check_result := platform_space_check p platform_type in
         if result check_result then retM tt
         else lift (set_status_at i SKIPPED (MsgList (reasons check_result)))
       else retM tt
   | None => retM tt
   end ;;
   test_result <- lift (get_result i) ;;
   if can_run test_result then
     match req_environment test_req with
     | None => raise (AssertionError empty_str)
     | Some space =>
         if use_new_environment (runtime_data test_result)
         then lift (update_world (from_requirement space))
         else lift (update_world (get_or_create space))
     end
   else retM tt)%M.

Fixpoint for_each (f : nat -> M unit) (l : list nat) : M unit :=
  match l with
  | [] => retM tt
  | i :: l' => (f i ;; for_each f l')%M
  end.

(** [LisaRunner._merge_test_requirements] *)
Definition _merge_test_requirements (test_results : list nat)
    (platform_type : string) : M unit :=
  if str_truthy platform_type
  then for_each (merge_one platform_type) test_results
  else raise (AssertionError empty_str).

(** [list.sort(key=...)] is stable: an element goes behind the elements
    whose key is not greater. *)
Fixpoint insert_by (key : nat -> string) (x : nat) (l : list nat) : list nat :=
  match l with
  | [] => [x]
  | y :: l' =>
      if String.ltb (key x) (key y) then x :: y :: l'
      else y :: insert_by key x l'
  end.

Definition sort_by (key : nat -> string) (l : list nat) : list nat :=
  fold_left (fun sorted x => insert_by key x sorted) l [].

Definition suite_name_of (rs : list TestResult) (i : nat) : string :=
  suite_name (suite (metadata (runtime_data (rs !!! i)))).

(** [any(case.can_run and case.check_environment(environment, True)
         for case in can_run_results)] *)
Fixpoint any_needs (e : Environment) (l : list nat) : M bool :=
  match l with
  | [] => retM false
  | i :: l' =>
      (case <- lift (get_result i) ;;
       if can_run case then
         ok <- check_environment i e true ;;
         if ok : bool then retM true else any_needs e l'
       else any_needs e l')%M
  end.

(** The loop over [new_env_can_run_results], left after the first run. *)
Fixpoint run_new_env (e : Environment) (l : list nat) : M unit :=
  match l with
  | [] => retM tt
  | i :: l' =>
      (ok <- check_environment i e true ;;
       if ok : bool then _run_suite e [i] else run_new_env e l')%M
  end.

(** Suites are told apart by name: the registry of suites
    ([_add_suite_metadata]) refuses a second suite of the same name. *)
Definition suite_differs (m : TestSuiteMetadata)
    (current_test_suite : option TestSuiteMetadata) : bool :=
  match current_test_suite with
  | None => true
  | Some c => negb (String.eqb (suite_name m) (suite_name c))
  end.

(** The grouping loop; its value is [grouped_cases] when it ends. *)
Fixpoint group_cases (e : Environment) (l : list nat)
    (grouped_cases : list nat) (current_test_suite : option TestSuiteMetadata)
    : M (list nat) :=
  match l with
  | [] => retM grouped_cases
  | i :: l' =>
      (test_result <- lift (get_result i) ;;
       if can_run test_result then
         ok <- check_environment i e true ;;
         if ok && negb (use_new_environment (runtime_data test_result)) then
           let this_suite := suite (metadata (runtime_data test_result)) in
           grouped_cases <-
             (if suite_differs this_suite current_test_suite
                 && negb (bool_decide (grouped_cases = []))
              then _run_suite e grouped_cases ;; retM []
              else retM grouped_cases) ;;
           group_cases e l' (grouped_cases ++ [i]) (Some this_suite)
         else group_cases e l' grouped_cases current_test_suite
       else group_cases e l' grouped_cases current_test_suite)%M
  end.

Inductive Flow := Normal | Continue | Break.

(** The [try] block of one iteration of [for environment in
    prepared_environments]; with how it is left, the list
    [can_run_results] as rebound at its top. *)
Definition iteration_try (platform : Platform) (e : Environment)
    (can_run_results : list nat) : M (Flow * list nat) :=
  (rs <- lift (fun s => (results s, s)) ;;
   let can_run_results :=
     List.filter (fun i => can_run (rs !!! i)) can_run_results in
   let can_run_results := sort_by (suite_name_of rs) can_run_results in
   let new_env_can_run_results :=
     List.filter (fun i => use_new_environment (runtime_data (rs !!! i)))
                 can_run_results in
   if bool_decide (can_run_results = []) then retM (Break, can_run_results)
   else
     is_needed <- any_needs e can_run_results ;;
     if negb is_needed then retM (Continue, can_run_results)
     else
       fun s =>
         match call_platform (EvDeploy (env_name e))
                             (deploy_environment platform e) s with
         | Raised (WaitMoreResourceError _) s' =>
             Done (Continue, can_run_results) s'
         | Raised ex s' => Raised ex s'
         | Done _ s' =>
             (if negb (env_is_ready e (world s'))
              then retM (Continue, can_run_results)
              else
                run_new_env e new_env_can_run_results ;;
                grouped_cases <- group_cases e can_run_results [] None ;;
                (if bool_decide (grouped_cases = []) then retM tt
                 else _run_suite e grouped_cases) ;;
                retM (Normal, can_run_results)) s'
         end)%M.

(** The [finally] block. *)
Definition iteration_finally (platform : Platform) (e : Environment) : M unit :=
  fun s =>
    if env_is_ready e (world s)
    then call_platform (EvDelete (env_name e)) (delete_environment platform e) s
    else Done tt s.

Definition iteration (platform : Platform) (e : Environment)
    (can_run_results : list nat) : M (Flow * list nat) :=
  try_finally (iteration_try platform e can_run_results)
              (iteration_finally platform e).

(** [for environment in prepared_environments]; the value is
    [can_run_results] when the loop is left. *)
Fixpoint environment_loop (platform : Platform) (envs : list Environment)
    (can_run_results : list nat) : M (list nat) :=
  match envs with
  | [] => retM can_run_results
  | e :: envs' =>
      (r <- iteration platform e can_run_results ;;
       match fst r with
       | Break => retM (snd r)
       | Normal | Continue => environment_loop platform envs' (snd r)
       end)%M
  end.

Definition no_environment : string := "no available environment".

(** The text the last loop of [start] gives as the reason. *)
Definition skip_reasons (case : TestResult) : string :=
  match check_results case with
  | Some c =>
      if bool_decide (reasons c = []) then no_environment
      else no_environment +:+ ": " +:+ reasons_str (reasons c)
  | None => no_environment
  end.

(** [for case in can_run_results: if case.can_run: ...] *)
Definition skip_one (i : nat) : St unit :=
  (case <- get_result i ;;
   if can_run case then set_status_at i SKIPPED (MsgStr (skip_reasons case))
   else ret tt)%St.

Fixpoint skip_remaining (can_run_results : list nat) : St unit :=
  match can_run_results with
  | [] => ret tt
  | i :: l' => (skip_one i ;; skip_remaining l')%St
  end.

(** The counting loop over [selected_test_results]. *)
Definition count_result (result_count_dict : gmap TestStatus nat)
    (test_result : TestResult) : gmap TestStatus nat :=
  let result_count := default 0 (result_count_dict !! status test_result) in
  let result_count := result_count + 1 in
  <[status test_result := result_count]> result_count_dict.

Definition count_results (l : list TestResult) : gmap TestStatus nat :=
  fold_left count_result l ∅.

(** What [start] leaves on the runner. *)
Record LisaRunner := {
  exit_code : nat;
  _latest_test_results : list TestResult;
}.

(** [LisaRunner.start], from the selected cases ([select_testcases]) and the
    platform ([load_platform]); the environments of the runbook are in the
    world.  The store is created here.  The status of the runner as an
    [Action] and the log lines are left out. *)
Definition LisaRunner_start (platform : Platform)
    (selected_test_cases : list TestCaseRuntimeData) : M LisaRunner :=
  (lift (fun s => (tt, {| results := _create_test_results selected_test_cases;
                          world := world s; trace := trace s |})) ;;
   let selected_test_results := seq 0 (length selected_test_cases) in
   _merge_test_requirements selected_test_results (type_name platform) ;;
   prepared_environments <-
     lift (fun s => let '(l, w) := prepare_environments platform (world s) in
                    (l, {| results := results s; world := w;
                           trace := trace s |})) ;;
   can_run_results <-
     environment_loop platform prepared_environments selected_test_results ;;
   lift (skip_remaining can_run_results) ;;
   rs <- lift (fun s => (results s, s)) ;;
   let result_count_dict := count_results rs in
   retM {| exit_code := default 0 (result_count_dict !! FAILED);
           _latest_test_results := rs |})%M.

End Lisa.

Arguments Done {C A} a s.
Arguments Raised {C A} e s.

(** ** util/subclasses.py: [Factory] *)

(** A subclass of the factory's base type: the class object and what its
    [type_name()] answers ([None] when it is the inherited one, which
    raises [NotImplementedError]). *)
Record SubClass := {
  qualname : string;
  cls_type_name : option string;
}.

Inductive FactoryError :=
| NotImplementedError
| LisaException (identifier : string).

(** What a factory logs at warning level: the name registered again, the
    new class and the one that exists. *)
Record Warning := {
  warn_name : string;
  warn_new : SubClass;
  warn_exist : SubClass;
}.

(** The factory is the dictionary ([UserDict.data]) with the flag of
    [InitializableMixin] and its log. *)
Record Factory := {
  data : gmap string SubClass;
  _is_initialized : bool;
  warnings : list Warning;
}.

(** [Factory(base_type)] *)
Definition new_Factory : Factory :=
  {| data := ∅; _is_initialized := false; warnings := [] |}.

(** The body of the loop of [_initialize] for one subclass. *)
Definition register (self : Factory) (subclass_type : SubClass)
    : FactoryError + Factory :=
  match cls_type_name subclass_type with
  | None => inl NotImplementedError
  | Some subclass_type_name =>
      match data self !! subclass_type_name with
      | Some exists_type =>
          inr {| data := data self;
                 _is_initialized := _is_initialized self;
                 warnings := warnings self ++
                   [{| warn_name := subclass_type_name;
                       warn_new := subclass_type;
                       warn_exist := exists_type |}] |}
      | None =>
          inr {| data := <[subclass_type_name := subclass_type]> (data self);
                 _is_initialized := _is_initialized self;
                 warnings := warnings self |}
      end
  end.

(** [Factory._initialize] over [self._base_type.__subclasses__()]; an
    exception leaves the factory as far as the loop got. *)
Fixpoint _initialize (subclasses : list SubClass) (self : Factory)
    : option FactoryError * Factory :=
  match subclasses with
  | [] => (None, self)
  | subclass_type :: rest =>
      match register self subclass_type with
      | inl e => (Some e, self)
      | inr self' => _initialize rest self'
      end
  end.

Definition set_initialized (self : Factory) (b : bool) : Factory :=
  {| data := data self; _is_initialized := b; warnings := warnings self |}.

(** Modelled from the spec: [InitializableMixin.initialize], which is
    defined in [lisa/util/__init__.py] and not among the sources.  The
    registry is to stay the same under repeated registration: [initialize]
    runs [_initialize] unless the flag is set, sets the flag before and
    clears it again when [_initialize] raises.  The properties of the
    factory are also stated for [_initialize] run again without the flag. *)
Definition initialize (subclasses : list SubClass) (self : Factory)
    : option FactoryError * Factory :=
  if _is_initialized self then (None, self)
  else
    match _initialize subclasses (set_initialized self true) with
    | (None, self') => (None, self')
    | (Some e, self') => (Some e, set_initialized self' false)
    end.

(** An object made by calling the class. *)
Inductive Instance_ := InstanceOf (cls : SubClass).

(** [Factory.create_by_type_name], given the subclasses alive at the call. *)
Definition create_by_type_name (subclasses : list SubClass) (type_name : string)
    (self : Factory) : (FactoryError + Instance_) * Factory :=
  match initialize subclasses self with
  | (Some e, self') => (inl e, self')
  | (None, self') =>
      match data self' !! type_name with
      | None =>
          (inl (LisaException ("cannot find subclass '" +:+ type_name +:+ "'")),
           self')
      | Some sub_type => (inr (InstanceOf sub_type), self')
      end
  end.

(** The first class of a list that declares a type name. *)
Definition first_declaring (n : string) (subclasses : list SubClass)
    : option SubClass :=
  List.find (fun c => bool_decide (cls_type_name c = Some n)) subclasses.

(** ** testsuite.py: the registry of suites and cases *)

(** A [dict] with string keys, the keys in insertion order. *)
Definition dict (V : Type) : Type := list (string * V).

(** [d.get(key)] *)
Definition dict_get {V} (key : string) (d : dict V) : option V :=
  snd <$> List.find (fun kv => bool_decide (kv.1 = key)) d.

(** [d[key] = v] for a key that [d] does not hold. *)
Definition dict_add {V} (key : string) (v : V) (d : dict V) : dict V :=
  d ++ [(key, v)].

(** A change to the object held under [key]. *)
Definition dict_update {V} (key : string) (f : V -> V) (d : dict V) : dict V :=
  map (fun kv => if bool_decide (kv.1 = key) then (kv.1, f kv.2) else kv) d.

(** What the registry reads and writes of a [TestSuiteMetadata]: its name,
    the name of the class it decorates and [cases].  The objects are shared
    between the two dictionaries, so a suite holds its cases, and a case
    its suite, by their keys. *)
Record SuiteEntry := {
  entry_name : string;
  test_class_name : string;
  suite_cases : list string;
}.

(** What the registry reads and writes of a [TestCaseMetadata];
    [case_suite] is [None] while the attribute [suite] is not set. *)
Record CaseEntry := {
  case_name : string;
  case_full_name : string;
  case_suite : option string;
}.

Record Registry := {
  _all_suites : dict SuiteEntry;
  _all_cases : dict CaseEntry;
}.

(** The module as loaded: both dictionaries empty. *)
Definition new_Registry : Registry :=
  {| _all_suites := []; _all_cases := [] |}.

(** The [LisaException] of a name registered twice; its text begins
    [duplicate test class name: <key>]. *)
Inductive RegistryError :=
| DuplicateName (key : string).

Definition append_case (test_case : string) (s : SuiteEntry) : SuiteEntry :=
  {| entry_name := entry_name s; test_class_name := test_class_name s;
     suite_cases := suite_cases s ++ [test_case] |}.

Definition set_suite (test_suite : string) (c : CaseEntry) : CaseEntry :=
  {| case_name := case_name c; case_full_name := case_full_name c;
     case_suite := Some test_suite |}.

(** [_add_case_to_suite], on the keys of the two objects. *)
Definition _add_case_to_suite (test_suite test_case : string) (reg : Registry)
    : Registry :=
  {| _all_suites := dict_update test_suite (append_case test_case)
                      (_all_suites reg);
     _all_cases := dict_update test_case (set_suite test_suite)
                     (_all_cases reg) |}.

(** [s.split(".")[0]] *)
Fixpoint before_dot (s : string) : string :=
  match s with
  | EmptyString => EmptyString
  | String a s' =>
      if Ascii.eqb a "." then EmptyString else String a (before_dot s')
  end.

(** The key a suite is registered under. *)
Definition suite_key (metadata : SuiteEntry) : string :=
  if str_truthy (entry_name metadata) then entry_name metadata
  else test_class_name metadata.

(** [_add_suite_metadata] *)
Definition _add_suite_metadata (metadata : SuiteEntry) (reg : Registry)
    : RegistryError + Registry :=
  let key := suite_key metadata in
  match dict_get key (_all_suites reg) with
  | Some exist_metadata => inl (DuplicateName key)
  | None =>
      let reg1 := {| _all_suites := dict_add key metadata (_all_suites reg);
                     _all_cases := _all_cases reg |} in
      let class_prefix := key +:+ "." in
      inr (fold_left
             (fun reg test_case =>
                if String.prefix class_prefix (case_full_name test_case.2)
                then _add_case_to_suite key test_case.1 reg
                else reg)
             (_all_cases reg) reg1)
  end.

(** [_add_case_metadata] *)
Definition _add_case_metadata (metadata : CaseEntry) (reg : Registry)
    : RegistryError + Registry :=
  let full_name := case_full_name metadata in
  match dict_get full_name (_all_cases reg) with
  | Some _ => inl (DuplicateName full_name)
  | None =>
      let reg1 := {| _all_suites := _all_suites reg;
                     _all_cases := dict_add full_name metadata
                                     (_all_cases reg) |} in
      let class_name := before_dot full_name in
      match dict_get class_name (_all_suites reg1) with
      | Some test_suite => inr (_add_case_to_suite class_name full_name reg1)
      | None => inr reg1
      end
  end.

(** ** util/shell.py: [ConnectionInfo] and [WindowsShellType] *)

Module Shell.

Inductive Error :=
| LisaException (text : string)
| FileNotFoundError (path : string).

(** Truth value of an [Optional[str]]: present and not empty. *)
Definition truthy (o : option string) : bool :=
  match o with
  | Some text => str_truthy text
  | None => false
  end.

Record ConnectionInfo := {
  address : string;
  port : Z;
  username : string;
  password : option string;
  private_key_file : option string;
}.

(** [ConnectionInfo.__init__]; [path_exists] is [Path(...).exists()] on
    the file system of the call. *)
Definition new_ConnectionInfo (path_exists : string -> bool)
    (address : string) (port : Z) (username : string)
    (password private_key_file : option string) : Error + ConnectionInfo :=
  let credentials : Error + option string * option string :=
    if negb (truthy password) && negb (truthy private_key_file) then
      inl (LisaException
             "at least one of password and privateKeyFile need to be set")
    else if negb (truthy private_key_file) then inr (password, None)
    else
      match private_key_file with
      | Some path =>
          if negb (path_exists path) then inl (FileNotFoundError path)
          else inr (None, private_key_file)
      | None => inr (password, None)
      end in
  match credentials with
  | inl e => inl e
  | inr (password, private_key_file) =>
      if negb (str_truthy username) then
        inl (LisaException "username must be set")
      else
        inr {| address := address; port := port; username := username;
               password := password; private_key_file := private_key_file |}
  end.

Definition dquote : string := String (ascii_of_nat 34) EmptyString.

(** The command that stores the process id. *)
Definition pid_command : string :=
  "powershell " +:+ dquote +:+
  "(gwmi win32_process|? processid -eq $pid).parentprocessid" +:+ dquote +:+
  " &&".

(** The characters of a string, each a string: what [list += str] adds
    to a list. *)
Fixpoint chars (s : string) : list string :=
  match s with
  | EmptyString => []
  | String a s' => String a EmptyString :: chars s'
  end.

(** ["set {0}={1}".format(key, value)] for the items of the dictionary,
    joined. *)
Definition env_text (update_env : list (string * string)) : string :=
  join "& " (map (fun kv => "set " +:+ kv.1 +:+ "=" +:+ kv.2) update_env)
  +:+ "& ".

(** [WindowsShellType.generate_run_command]; the dictionary [update_env]
    is the list of its items in order. *)
Definition generate_run_command (command_args : list string)
    (store_pid : bool) (cwd : option string)
    (update_env : option (list (string * string)))
    (new_process_group : bool) : string :=
  let commands : list string := [] in
  let commands := if store_pid then commands ++ [pid_command] else commands in
  let commands :=
    match cwd with
    | Some cwd =>
        (commands ++ ["cd " +:+ cwd +:+ " 2>&1 && echo spur-cd: 0 "])
          ++ ["|| echo spur-cd: 1 && exit 1 &"]
    | None => commands
    end in
  let commands :=
    match update_env with
    | Some (item :: items) => commands ++ chars (env_text (item :: items))
    | Some [] | None => commands
    end in
  let commands :=
    match cwd with
    | Some cwd =>
        ((commands ++ ["pushd " +:+ cwd +:+ " & "])
           ++ [join " " command_args]) ++ [" & popd"]
    | None => commands ++ [join " " command_args]
    end in
  join " " commands.

End Shell.

(** * Vocabulary of the properties *)

Section Vocabulary.
Context `{C : Collaborators}.

#[global] Instance TestResultMessage_eq_dec : EqDecision TestResultMessage.
Proof. solve_decision. Defined.

#[global] Instance Event_eq_dec : EqDecision Event.
Proof. solve_decision. Defined.

(** How often an event occurs in a trace. *)
Definition occurrences (ev : Event) (l : list Event) : nat :=
  length (List.filter (fun x => bool_decide (x = ev)) l).

(** What was recorded between two states of one run. *)
Definition trace_since (s s' : State) : list Event :=
  drop (length (trace s)) (trace s').

(** A hook that raises whatever the world is. *)
Definition always_raises (h : Hook) (e : Environment) : Prop :=
  forall w, (h e w).1 <> Returned.

Definition is_notify (ev : Event) : Prop :=
  match ev with EvNotify _ => True | _ => False end.

(** The number [LisaRunner.start] passes to [exit_code]. *)
Definition failed_count (rs : list TestResult) : nat :=
  default 0 (count_results rs !! FAILED).

Definition has_status (t : TestStatus) (r : TestResult) : bool :=
  bool_decide (status r = t).

(** What a run may do to a result: it keeps its runtime data, and either
    keeps status and message or has a terminal status. *)
Definition evolves (r r' : TestResult) : Prop :=
  runtime_data r' = runtime_data r /\
  ((status r' = status r /\ message r' = message r) \/
   terminal (status r') = true).

(** What a run may do to the store and the trace: the results evolve and
    the trace grows by events that satisfy [P]. *)
Definition advances (P : Event -> Prop) (s s' : State) : Prop :=
  Forall2 evolves (results s) (results s') /\
  exists d, trace s' = trace s ++ d /\ Forall P d.

Definition okS (P : Event -> Prop) {A} (m : St A) : Prop :=
  forall s, advances P s (m s).2.

Definition okM (P : Event -> Prop) {A} (m : M A) : Prop :=
  forall s, match m s with
            | Done _ s' => advances P s s'
            | Raised _ s' => advances P s s'
            end.

(** The store as [LisaRunner.start] creates it. *)
Definition created (cases : list TestCaseRuntimeData) (s : State) : State :=
  {| results := _create_test_results cases; world := world s;
     trace := trace s |}.

(** A result that has left [NOTRUN] stays out of it. *)
Definition never_reset (s s' : State) : Prop :=
  forall i r r', results s !! i = Some r -> results s' !! i = Some r' ->
                 status r <> NOTRUN -> status r' <> NOTRUN.

(** A notification does not announce [NOTRUN]. *)
Definition announces_progress (ev : Event) : Prop :=
  match ev with
  | EvNotify m => msg_status m <> NOTRUN
  | _ => True
  end.

(** The cases the loop gets to: all up to and with the first one after
    which a stop request is seen. *)
Fixpoint reached (self : TestSuite) (b : bool) (msg : string) (l : list nat)
    (s : State) : list nat :=
  match l with
  | [] => []
  | i :: l' =>
      let r := start_case self b msg i s in
      i :: (if r.1 then [] else reached self b msg l' r.2)
  end.

(** What the first part of an iteration records. *)
Definition body_event (ev : Event) : Prop :=
  match ev with
  | EvNotify _ | EvBeforeCase _ | EvTestMethod _ => True
  | _ => False
  end.

(** [is_suite_continue] and [suite_error_message] as [before_suite]
    leaves them, the state it leaves, and the cases the loop gets to. *)
Definition suite_goes_on (self : TestSuite) (s : State) : bool :=
  match (before_suite (test_class (_metadata self)) (environment self)
                      (world s)).1 with
  | Returned => true
  | Raise _ => false
  end.

Definition suite_error (self : TestSuite) (s : State) : string :=
  match (before_suite (test_class (_metadata self)) (environment self)
                      (world s)).1 with
  | Returned => empty_str
  | Raise id => "before_suite: " +:+ id
  end.

Definition after_before_suite (self : TestSuite) (s : State) : State :=
  (call_hook EvBeforeSuite (before_suite (test_class (_metadata self)))
             (environment self) s).2.

Definition reached_cases (self : TestSuite) (s : State) : list nat :=
  reached self (suite_goes_on self s) (suite_error self s) (case_results self)
          (after_before_suite self s).

(** What the loop records when [before_suite] has failed. *)
Definition skip_event (ev : Event) : Prop :=
  match ev with
  | EvNotify _ | EvAfterCase _ | EvSuiteStopped => True
  | _ => False
  end.

(** The list an iteration leaves in [can_run_results]. *)
Definition runnable_sorted (rs : list TestResult) (can_run_results : list nat)
    : list nat :=
  sort_by (suite_name_of rs)
          (List.filter (fun i => can_run (rs !!! i)) can_run_results).

(** Every result that is still [NOTRUN] is in the list. *)
Definition covers (can_run_results : list nat) (s : State) : Prop :=
  forall i, i < length (results s) -> status (results s !!! i) = NOTRUN ->
            i ∈ can_run_results.

Definition state_of {A} (r : Res A) : State :=
  match r with
  | Done _ s => s
  | Raised _ s => s
  end.

Definition is_delete (ev : Event) : bool :=
  match ev with
  | EvDelete _ => true
  | _ => false
  end.

(** The calls of [delete_environment] in a trace. *)
Definition deletions (l : list Event) : list Event := List.filter is_delete l.

(** The events of the loop of [TestSuite.start] when it gets to the cases
    [got]: hook calls for those cases, notifications, the stop. *)
Definition loop_event (got : list nat) (ev : Event) : Prop :=
  match ev with
  | EvBeforeCase j | EvTestMethod j | EvAfterCase j => j ∈ got
  | EvNotify _ | EvSuiteStopped => True
  | _ => False
  end.

(** The platform requirement of a result as [_merge_test_requirements]
    tests it: none, an empty one, or one that the type name of the
    platform passes. *)
Definition platform_fits (platform_type : string) (r : TestResult) : bool :=
  match req_platform_type (requirement (metadata (runtime_data r))) with
  | Some p =>
      if platform_type_truthy (Some p) && Nat.ltb 0 (platform_space_len p)
      then result (platform_space_check p platform_type)
      else true
  | None => true
  end.

(** The reasons the platform requirement gives against a type name. *)
Definition platform_reasons (platform_type : string) (r : TestResult)
    : list string :=
  match req_platform_type (requirement (metadata (runtime_data r))) with
  | Some p => reasons (platform_space_check p platform_type)
  | None => []
  end.

(** A result that can run on the platform. *)
Definition still_runs (platform_type : string) (r : TestResult) : bool :=
  platform_fits platform_type r && can_run r.

(** What a result asks of the environments: a new one, or one to share. *)
Definition request (r : TestResult) (w : World) : World :=
  match req_environment (requirement (metadata (runtime_data r))) with
  | Some space =>
      if use_new_environment (runtime_data r) then from_requirement space w
      else get_or_create space w
  | None => w
  end.

(** A result as [_merge_test_requirements] leaves it. *)
Definition merged (platform_type : string) (r : TestResult) : TestResult :=
  if platform_fits platform_type r then r
  else (set_status r SKIPPED (MsgList (platform_reasons platform_type r))).1.

(** A notification names the environment [name]; other events pass. *)
Definition names_environment (name : string) (ev : Event) : Prop :=
  match ev with
  | EvNotify m => msg_env m = name
  | _ => True
  end.



End Vocabulary.

(** ** The registry: vocabulary *)

(** A string with a [.] in it, as the qualified name of a method has. *)
Definition has_dot (s : string) : bool :=
  negb (bool_decide (before_dot s = s)).

(** The keys of the cases a suite registered under [key] takes up: those
    whose full name begins with [key.], in the order of registration. *)
Definition matched (key : string) (d : dict CaseEntry) : list string :=
  (List.filter (fun kv => String.prefix (key +:+ ".") (case_full_name kv.2))
               d).*1.

Definition append_cases (l : list string) (s : SuiteEntry) : SuiteEntry :=
  {| entry_name := entry_name s; test_class_name := test_class_name s;
     suite_cases := suite_cases s ++ l |}.

(** The cases with a key in [K] get the suite [key]. *)
Definition assign_suite (key : string) (K : list string) (d : dict CaseEntry)
    : dict CaseEntry :=
  map (fun kv => if bool_decide (kv.1 ∈ K)
                 then (kv.1, set_suite key kv.2) else kv) d.

(** Every object is held under its own key. *)
Definition keyed (reg : Registry) : Prop :=
  Forall (fun kv => suite_key kv.2 = kv.1) (_all_suites reg) /\
  Forall (fun kv => case_full_name kv.2 = kv.1) (_all_cases reg).

(** The two dictionaries agree: the suite of a case is registered and
    lists the case, and the cases a suite lists are registered. *)
Definition consistent (reg : Registry) : Prop :=
  (forall fn c k, dict_get fn (_all_cases reg) = Some c ->
                  case_suite c = Some k ->
                  exists s, dict_get k (_all_suites reg) = Some s /\
                            fn ∈ suite_cases s) /\
  (forall k s fn, dict_get k (_all_suites reg) = Some s ->
                  fn ∈ suite_cases s ->
                  is_Some (dict_get fn (_all_cases reg))).

(** A decorator applied while the modules are loaded. *)
Inductive Decorated :=
| DecoratedSuite (metadata : SuiteEntry)
| DecoratedCase (metadata : CaseEntry).

(** The decorator's object as it is when it registers itself: a suite
    without cases, a case without suite. *)
Definition fresh (d : Decorated) : bool :=
  match d with
  | DecoratedSuite m => bool_decide (suite_cases m = [])
  | DecoratedCase c => bool_decide (case_suite c = None)
  end.

Definition apply_decorator (d : Decorated) (reg : Registry)
    : RegistryError + Registry :=
  match d with
  | DecoratedSuite m => _add_suite_metadata m reg
  | DecoratedCase c => _add_case_metadata c reg
  end.

(** The decorators of a program, one after the other, up to the first
    that raises. *)
Fixpoint apply_decorators (l : list Decorated) (reg : Registry)
    : RegistryError + Registry :=
  match l with
  | [] => inr reg
  | d :: l' =>
      match apply_decorator d reg with
      | inl e => inl e
      | inr reg' => apply_decorators l' reg'
      end
  end.

(** The dictionary a decorator writes to, and the key it writes. *)
Definition decorated_key (d : Decorated) : bool * string :=
  match d with
  | DecoratedSuite m => (true, suite_key m)
  | DecoratedCase c => (false, case_full_name c)
  end.

Definition registered (k : bool * string) (reg : Registry) : bool :=
  if k.1 then bool_decide (is_Some (dict_get k.2 (_all_suites reg)))
  else bool_decide (is_Some (dict_get k.2 (_all_cases reg))).

(** * A concrete setting

    A world that records which environments are deployed and whether a stop
    was requested; environments are known by name, a requirement lists the
    names of the environments that satisfy it. *)
Module Demo.

Record DemoWorld := {
  deployed : list string;
  stop_flag : bool;
}.

Definition demo_check (names : list string) (e : string) : ResultReason :=
  if bool_decide (e ∈ names) then {| result := true; reasons := [] |}
  else {| result := false; reasons := ["no match: " +:+ e] |}.

#[export] Instance demo : Collaborators := {|
  World := DemoWorld;
  Environment := string;
  Node := unit;
  EnvironmentSpace := list string;
  PlatformSpace := list string;
  OsSpace := unit;
  env_name := fun e => e;
  env_is_ready := fun e w => bool_decide (e ∈ deployed w);
  env_nodes := fun _ _ => [tt];
  environment_space_check := fun space e _ => demo_check space e;
  os_space_check := fun _ _ _ => {| result := true; reasons := [] |};
  os_space_len := fun _ => 1;
  platform_space_len := fun p => length p;
  platform_space_check := fun p name => demo_check p name;
  result_reason_merge := fun a b _ =>
    {| result := result a && result b; reasons := reasons a ++ reasons b |};
  reasons_str := fun l => String.concat ", " l;
  from_requirement := fun _ w => w;
  get_or_create := fun _ w => w;
  stop_requested := stop_flag;
|}.

Definition returns : Hook := fun _ w => (Returned, w).

Definition raises (identifier : string) : Hook :=
  fun _ w => (Raise identifier, w).

(** A hook during which [stop] reaches the suite. *)
Definition requests_stop : Hook :=
  fun _ w => (Returned, {| deployed := deployed w; stop_flag := true |}).

Definition quiet_class : TestSuiteClass :=
  {| before_suite := returns; after_suite := returns;
     before_case := returns; after_case := returns |}.

Definition needs (names : list string) : TestCaseRequirement :=
  {| req_environment := Some names; req_platform_type := None;
     req_os_type := None |}.

Definition suite_of (cls : TestSuiteClass) : TestSuiteMetadata :=
  {| suite_name := "Suite"; suite_requirement := needs ["e1"];
     test_class := cls |}.

Definition case_of (cls : TestSuiteClass) (n : string) (body : Hook)
    (req : option TestCaseRequirement) : TestCaseMetadata :=
  {| name := n; full_name := "Suite." +:+ n; func := body;
     suite := suite_of cls; case_requirement := req |}.

Definition runtime (m : TestCaseMetadata) (tries_more : nat) (ignore : bool)
    : TestCaseRuntimeData :=
  {| metadata := m; select_action := empty_str; times := 1;
     retry := tries_more; use_new_environment := false;
     ignore_failure := ignore; environment_name := empty_str |}.

Definition world0 : DemoWorld := {| deployed := []; stop_flag := false |}.

Definition state_with (rs : list TestResult) : State :=
  {| results := rs; world := world0; trace := [] |}.

Definition suite_on (cls : TestSuiteClass) (batch : list nat) : TestSuite :=
  {| environment := "e1"; case_results := batch; _metadata := suite_of cls |}.

(** A platform that deploys what it is asked for, except [busy]. *)
Definition platform (envs : list string) : Platform :=
  {| type_name := "mock";
     prepare_environments := fun w => (envs, w);
     deploy_environment := fun e w =>
       if String.eqb e "busy" then (Some (WaitMoreResourceError "busy"), w)
       else (None, {| deployed := e :: deployed w; stop_flag := stop_flag w |});
     delete_environment := fun e w =>
       (None, {| deployed := List.filter (fun x => negb (String.eqb x e))
                                         (deployed w);
                 stop_flag := stop_flag w |}) |}.

(** A result for a case of the suite of class [cls]. *)
Definition result_of (cls : TestSuiteClass) (n : string) (body : Hook)
    (tries_more : nat) (ignore : bool) : TestResult :=
  new_TestResult (runtime (case_of cls n body None) tries_more ignore).

(** Two retries, a test method that always raises. *)
Definition failing : TestResult :=
  result_of quiet_class "fails" (raises "boom") 2 false.

Definition failing_ignored : TestResult :=
  result_of quiet_class "fails" (raises "boom") 2 true.

Definition passing : TestResult :=
  result_of quiet_class "passes" returns 0 false.

Definition broken_before_case : TestSuiteClass :=
  {| before_suite := returns; after_suite := returns;
     before_case := raises "not ready"; after_case := returns |}.

Definition guarded : TestResult :=
  result_of broken_before_case "guarded" returns 1 false.

Definition broken_before_suite : TestSuiteClass :=
  {| before_suite := raises "no setup"; after_suite := returns;
     before_case := returns; after_case := returns |}.

(** [before_suite] raises and a stop arrives during [after_case]. *)
Definition broken_and_stopped : TestSuiteClass :=
  {| before_suite := raises "no setup"; after_suite := returns;
     before_case := returns; after_case := requests_stop |}.

(** A stop arrives during [after_case]. *)
Definition stopped : TestSuiteClass :=
  {| before_suite := returns; after_suite := returns;
     before_case := returns; after_case := requests_stop |}.

(** Two cases of one suite, not run yet. *)
Definition two_cases (cls : TestSuiteClass) : list TestResult :=
  [result_of cls "first" returns 0 false;
   result_of cls "second" returns 0 false].

(** The cases of a run: one passes, one fails, one fits no environment. *)
Definition selected : list TestCaseRuntimeData :=
  [runtime (case_of quiet_class "passes" returns None) 0 false;
   runtime (case_of quiet_class "fails" (raises "boom") None) 1 false;
   runtime (case_of quiet_class "elsewhere" returns (Some (needs ["e9"])))
           0 false].

(** Subclasses of a factory: two declare [azure], one declares nothing. *)
Definition azure : SubClass :=
  {| qualname := "AzurePlatform"; cls_type_name := Some "azure" |}.

Definition azure_copy : SubClass :=
  {| qualname := "AzureCopy"; cls_type_name := Some "azure" |}.

Definition ready_platform : SubClass :=
  {| qualname := "ReadyPlatform"; cls_type_name := Some "ready" |}.

Definition abstract_platform : SubClass :=
  {| qualname := "AbstractPlatform"; cls_type_name := None |}.

(** A decorated suite and one of its methods. *)
Definition hello_suite : SuiteEntry :=
  {| entry_name := empty_str; test_class_name := "HelloWorld";
     suite_cases := [] |}.

Definition hello_case : CaseEntry :=
  {| case_name := "hello"; case_full_name := "HelloWorld.hello";
     case_suite := None |}.

(** A case for the platforms [names] only. *)
Definition on_platform (names : list string) : TestCaseRequirement :=
  {| req_environment := Some ["e1"]; req_platform_type := Some names;
     req_os_type := None |}.

Definition azure_only : TestResult :=
  new_TestResult
    (runtime (case_of quiet_class "azure_only" returns
                      (Some (on_platform ["azure"]))) 0 false).


End Demo.

(** * Properties *)

Section Properties.
Context `{C : Collaborators}.

(** ** Traces *)

Lemma occurrences_app ev l1 l2 :
  occurrences ev (l1 ++ l2) = occurrences ev l1 + occurrences ev l2.
Proof. unfold occurrences. by rewrite List.filter_app, length_app. Qed.

Lemma occurrences_repeat_eq ev n : occurrences ev (repeat ev n) = n.
Proof.
  unfold occurrences. induction n as [|n IH]; simpl; [done|].
  rewrite bool_decide_true by done. simpl. by rewrite IH.
Qed.

Lemma occurrences_repeat_ne ev ev' n :
  ev' <> ev -> occurrences ev (repeat ev' n) = 0.
Proof.
  intros Hne. unfold occurrences. induction n as [|n IH]; simpl; [done|].
  by rewrite bool_decide_false.
Qed.

Lemma occurrences_Forall_ne ev l :
  Forall (fun x => x <> ev) l -> occurrences ev l = 0.
Proof.
  unfold occurrences. induction 1 as [|x l Hx _ IH]; simpl; [done|].
  by rewrite bool_decide_false.
Qed.

Lemma trace_since_app s s' d :
  trace s' = trace s ++ d -> trace_since s s' = d.
Proof. intros H. unfold trace_since. rewrite H. apply drop_app_length. Qed.

(** ** [set_status] *)

Lemma set_status_status r t m : status (set_status r t m).1 = t.
Proof.
  unfold set_status. simpl. case_bool_decide; simpl; [|done].
  by simpl in *.
Qed.

Lemma set_status_message r t m :
  message (set_status r t m).1 = merged_message (message r) m.
Proof. unfold set_status. simpl. by case_bool_decide. Qed.

Lemma set_status_runtime_data r t m :
  runtime_data (set_status r t m).1 = runtime_data r.
Proof. unfold set_status. simpl. by case_bool_decide. Qed.

Lemma set_status_check_results r t m :
  check_results (set_status r t m).1 = check_results r.
Proof. unfold set_status. simpl. by case_bool_decide. Qed.

Lemma set_status_events r t m :
  (set_status r t m).2 =
    if bool_decide (status r = t) then []
    else [EvNotify {| msg_status := t;
                      msg_message := merged_message (message r) m;
                      msg_env := env r |}].
Proof. unfold set_status. simpl. by case_bool_decide. Qed.

Lemma merged_message_empty old : merged_message old (MsgStr empty_str) = old.
Proof. done. Qed.

Lemma merged_message_fresh m :
  str_truthy m = true -> merged_message empty_str (MsgStr m) = m.
Proof. intros H. unfold merged_message. simpl. rewrite H. simpl. done. Qed.

(** ** The state monad: what the primitive steps do *)

Lemma set_status_at_results i t m s :
  results (set_status_at i t m s).2 =
    <[i := (set_status (results s !!! i) t m).1]> (results s).
Proof.
  unfold set_status_at, bind, get_result, put_result, emit. simpl.
  by destruct (set_status _ _ _).
Qed.

Lemma set_status_at_world i t m s : world (set_status_at i t m s).2 = world s.
Proof.
  unfold set_status_at, bind, get_result, put_result, emit. simpl.
  by destruct (set_status _ _ _).
Qed.

Lemma set_status_at_trace i t m s :
  trace (set_status_at i t m s).2 =
    trace s ++ (set_status (results s !!! i) t m).2.
Proof.
  unfold set_status_at, bind, get_result, put_result, emit. simpl.
  by destruct (set_status _ _ _).
Qed.

Lemma set_status_at_status i t m s :
  i < length (results s) ->
  status (results (set_status_at i t m s).2 !!! i) = t.
Proof.
  intros Hi. rewrite set_status_at_results.
  rewrite list_lookup_total_insert_eq by done. apply set_status_status.
Qed.

Lemma retry_call_S (f : St Outcome) n s :
  retry_call f (S n) s =
    match (f s).1 with
    | Returned => (Returned, (f s).2)
    | Raise id =>
        match n with
        | O => (Raise id, (f s).2)
        | S _ => retry_call f n (f s).2
        end
    end.
Proof.
  simpl. unfold bind. destruct (f s) as [o s']. simpl.
  destruct o; [done|]. by destruct n.
Qed.

Lemma call_hook_results ev h e s : results (call_hook ev h e s).2 = results s.
Proof. unfold call_hook. by destruct (h e (world s)). Qed.

Lemma call_hook_trace ev h e s :
  trace (call_hook ev h e s).2 = trace s ++ [ev].
Proof. unfold call_hook. by destruct (h e (world s)). Qed.

Lemma call_hook_outcome ev h e s : (call_hook ev h e s).1 = (h e (world s)).1.
Proof. unfold call_hook. by destruct (h e (world s)). Qed.

(** [retry_call] on a hook touches no result and records only calls of
    that hook: at least one, at most [tries]. *)
Lemma retry_call_hook_frame ev h e tries s :
  let r := retry_call (call_hook ev h e) tries s in
  results r.2 = results s /\
  exists k, trace r.2 = trace s ++ repeat ev k /\ k <= tries /\
            (0 < tries -> 0 < k).
Proof.
  revert s. induction tries as [|n IH]; intros s.
  - simpl. split; [done|]. exists 0. rewrite app_nil_r. repeat split; lia.
  - cbv zeta. rewrite retry_call_S.
    pose proof (call_hook_results ev h e s) as Hres.
    pose proof (call_hook_trace ev h e s) as Htr.
    destruct (call_hook ev h e s) as [o s1]. simpl in *.
    destruct o as [|id].
    + simpl. split; [done|]. exists 1. split; [done|]. split; lia.
    + destruct n as [|n].
      * simpl. split; [done|]. exists 1. split; [done|]. split; lia.
      * destruct (IH s1) as [IH1 (k & IH2 & IH3 & _)].
        split; [by rewrite IH1|]. exists (S k).
        rewrite IH2, Htr, <- app_assoc. simpl.
        split; [done|]. split; lia.
Qed.

(** A hook that always raises uses the whole budget. *)
Lemma retry_call_always_raises ev h e n s :
  always_raises h e ->
  let r := retry_call (call_hook ev h e) (S n) s in
  (exists identifier, r.1 = Raise identifier) /\
  results r.2 = results s /\
  trace r.2 = trace s ++ repeat ev (S n).
Proof.
  intros Hr. revert s. induction n as [|n IH]; intros s; cbv zeta;
    rewrite retry_call_S;
    pose proof (call_hook_results ev h e s) as Hres;
    pose proof (call_hook_trace ev h e s) as Htr;
    pose proof (call_hook_outcome ev h e s) as Hout;
    specialize (Hr (world s));
    destruct (call_hook ev h e s) as [o s1]; simpl in *;
    destruct o as [|id]; try congruence.
  - simpl. eauto.
  - destruct (IH s1) as (Hid & Hres' & Htr').
    split; [done|]. split; [congruence|].
    rewrite Htr', Htr. simpl. by rewrite <- app_assoc.
Qed.

(** A hook that returns at once is called once. *)
Lemma retry_call_returns ev h e n s :
  (h e (world s)).1 = Returned ->
  let r := retry_call (call_hook ev h e) (S n) s in
  r.1 = Returned /\ results r.2 = results s /\ trace r.2 = trace s ++ [ev].
Proof.
  intros Hh. cbv zeta. rewrite retry_call_S.
  pose proof (call_hook_results ev h e s) as Hres.
  pose proof (call_hook_trace ev h e s) as Htr.
  pose proof (call_hook_outcome ev h e s) as Hout.
  destruct (call_hook ev h e s) as [o s1]. simpl in *.
  rewrite Hh in Hout. subst o. done.
Qed.

Lemma start_case_after_spec self i s :
  let s' := (start_case_after self i s).2 in
  results s' = results s /\
  exists k, trace s' = trace s ++ repeat (EvAfterCase i) k /\
            1 <= k <= retry (runtime_data (results s !!! i)) + 1.
Proof.
  unfold start_case_after, bind, get_result, ret. simpl.
  pose proof (retry_call_hook_frame (EvAfterCase i)
    (after_case (test_class (_metadata self))) (environment self)
    (retry (runtime_data (results s !!! i)) + 1) s) as H.
  cbv zeta in H.
  destruct (retry_call _ _ s) as [o s1]. simpl in *.
  destruct H as [H1 (k & H2 & H3 & H4)].
  split; [done|]. exists k. split; [done|]. lia.
Qed.

Lemma start_case_eq self b msg i s :
  start_case self b msg i s =
    let s1 := (start_case_body self b msg i s).2 in
    let s2 := (start_case_after self i s1).2 in
    (stop_requested (world s2), s2).
Proof.
  unfold start_case, bind, get_world, ret.
  destruct (start_case_body self b msg i s) as [[] s1]. simpl.
  by destruct (start_case_after self i s1) as [[] s2].
Qed.

(** [start_case_body] without the monad. *)
Lemma start_case_body_state self b msg i s :
  (start_case_body self b msg i s).2 =
    let rd := runtime_data (results s !!! i) in
    let cls := test_class (_metadata self) in
    if b then
      let b1 := retry_call (call_hook (EvBeforeCase i) (before_case cls)
                              (environment self)) (retry rd + 1) s in
      match b1.1 with
      | Raise id =>
          (set_status_at i SKIPPED (MsgStr ("before_case: " +:+ id)) b1.2).2
      | Returned =>
          let b2 := retry_call (call_hook (EvTestMethod i) (func (metadata rd))
                                  (environment self)) (retry rd + 1) b1.2 in
          match b2.1 with
          | Returned => (set_status_at i PASSED (MsgStr empty_str) b2.2).2
          | Raise id =>
              if ignore_failure rd
              then (set_status_at i ATTEMPTED (MsgStr id) b2.2).2
              else (set_status_at i FAILED (MsgStr ("failed: " +:+ id)) b2.2).2
          end
      end
    else (set_status_at i SKIPPED (MsgStr msg) s).2.
Proof.
  unfold start_case_body. unfold bind at 1. unfold get_result at 1.
  cbv zeta. destruct b.
  - unfold bind at 1. unfold bind at 1.
    destruct (retry_call _ _ s) as [o1 s1]. simpl.
    destruct o1 as [|id1].
    + unfold ret at 1. unfold bind at 1.
      destruct (retry_call _ _ s1) as [o2 s2]. simpl.
      destruct o2 as [|id2]; [done|]. by destruct (ignore_failure _).
    + unfold bind at 1.
      destruct (set_status_at i SKIPPED _ s1) as [[] s2]. done.
  - unfold bind at 1. unfold bind at 1.
    destruct (set_status_at i SKIPPED _ s) as [[] s2]. done.
Qed.

Lemma set_status_events_notify r t m : Forall is_notify (set_status r t m).2.
Proof.
  rewrite set_status_events. case_bool_decide; [constructor|].
  repeat constructor.
Qed.

Lemma occurrences_notify ev l :
  ~ is_notify ev -> Forall is_notify l -> occurrences ev l = 0.
Proof.
  intros Hev Hl. apply occurrences_Forall_ne.
  eapply Forall_impl; [exact Hl|]. intros x Hx ->. done.
Qed.

Lemma occurrences_set_status ev r t m :
  ~ is_notify ev -> occurrences ev (set_status r t m).2 = 0.
Proof. intros H. apply occurrences_notify, set_status_events_notify. done. Qed.

(** The iteration for a case whose test method always raises, after a
    [before_case] that came through. *)
Lemma start_case_test_raises self msg i s r :
  results s !! i = Some r ->
  let n := retry (runtime_data r) in
  let cls := test_class (_metadata self) in
  let e := environment self in
  let s' := (start_case self true msg i s).2 in
  (retry_call (call_hook (EvBeforeCase i) (before_case cls) e) (n + 1) s).1
    = Returned ->
  always_raises (func (metadata (runtime_data r))) e ->
  exists id kb ka,
    let t := if ignore_failure (runtime_data r) then ATTEMPTED else FAILED in
    let m := if ignore_failure (runtime_data r) then MsgStr id
             else MsgStr ("failed: " +:+ id) in
    results s' = <[i := (set_status r t m).1]> (results s) /\
    trace s' = trace s ++ repeat (EvBeforeCase i) kb ++
               repeat (EvTestMethod i) (n + 1) ++ (set_status r t m).2 ++
               repeat (EvAfterCase i) ka.
Proof.
  intros Hi n cls e s' Hbefore Hraise.
  assert (Hr : results s !!! i = r) by (by apply list_lookup_total_correct).
  subst s'. rewrite start_case_eq. cbv zeta. simpl.
  set (s1 := (start_case_body self true msg i s).2).
  destruct (start_case_after_spec self i s1) as [Ha1 (ka & Ha2 & _)].
  cbv zeta in Ha1. rewrite Ha1, Ha2.
  assert (Hs1 : s1 = (start_case_body self true msg i s).2) by done.
  rewrite start_case_body_state in Hs1. cbv zeta in Hs1. rewrite Hr in Hs1.
  fold n cls e in Hs1.
  pose proof (retry_call_hook_frame (EvBeforeCase i) (before_case cls) e
                (n + 1) s) as Hb. cbv zeta in Hb.
  destruct Hb as [Hb1 (kb & Hb2 & _)].
  rewrite Hbefore in Hs1.
  pose proof (retry_call_always_raises (EvTestMethod i)
    (func (metadata (runtime_data r))) e n
    (retry_call (call_hook (EvBeforeCase i) (before_case cls) e) (n + 1) s).2
    Hraise) as Ht.
  cbv zeta in Ht. rewrite <- Nat.add_1_r in Ht.
  destruct Ht as ((id & Ht0) & Ht1 & Ht2).
  rewrite Ht0 in Hs1. exists id, kb, ka. cbv zeta.
  set (t := if ignore_failure (runtime_data r) then ATTEMPTED else FAILED).
  set (m := if ignore_failure (runtime_data r) then MsgStr id
            else MsgStr ("failed: " +:+ id)).
  assert (Hs1' : s1 = (set_status_at i t m
    (retry_call (call_hook (EvTestMethod i) (func (metadata (runtime_data r))) e)
      (n + 1)
      (retry_call (call_hook (EvBeforeCase i) (before_case cls) e) (n + 1) s).2).2).2).
  { rewrite Hs1. unfold t, m. by destruct (ignore_failure _). }
  rewrite Hs1', set_status_at_results, set_status_at_trace.
  rewrite Ht1, Ht2, Hb1, Hb2, Hr. by rewrite <- !app_assoc.
Qed.

(** The iteration for a case of a suite whose [before_case] always raises. *)
Lemma start_case_before_raises self msg i s r :
  results s !! i = Some r ->
  let n := retry (runtime_data r) in
  let cls := test_class (_metadata self) in
  let e := environment self in
  let s' := (start_case self true msg i s).2 in
  always_raises (before_case cls) e ->
  exists id ka,
    let m := MsgStr ("before_case: " +:+ id) in
    results s' = <[i := (set_status r SKIPPED m).1]> (results s) /\
    trace s' = trace s ++ repeat (EvBeforeCase i) (n + 1) ++
               (set_status r SKIPPED m).2 ++ repeat (EvAfterCase i) ka.
Proof.
  intros Hi n cls e s' Hraise.
  assert (Hr : results s !!! i = r) by (by apply list_lookup_total_correct).
  subst s'. rewrite start_case_eq. cbv zeta. simpl.
  set (s1 := (start_case_body self true msg i s).2).
  destruct (start_case_after_spec self i s1) as [Ha1 (ka & Ha2 & _)].
  cbv zeta in Ha1. rewrite Ha1, Ha2.
  assert (Hs1 : s1 = (start_case_body self true msg i s).2) by done.
  rewrite start_case_body_state in Hs1. cbv zeta in Hs1. rewrite Hr in Hs1.
  fold n cls e in Hs1.
  pose proof (retry_call_always_raises (EvBeforeCase i) (before_case cls) e n
                s Hraise) as Ht.
  cbv zeta in Ht. rewrite <- Nat.add_1_r in Ht.
  destruct Ht as ((id & Ht0) & Ht1 & Ht2).
  rewrite Ht0 in Hs1. exists id, ka. cbv zeta.
  rewrite Hs1, set_status_at_results, set_status_at_trace.
  rewrite Ht1, Ht2, Hr. by rewrite <- !app_assoc.
Qed.

(** C2: with [retry = n], a test method that raises at every call is called
    exactly [n + 1] times by the iteration of [TestSuite.start] that runs
    it (the suite goes on and [before_case] came through within its own
    budget), and the result is then [FAILED], or [ATTEMPTED] under
    [ignore_failure]; a [before_case] that raises at every call is likewise
    called exactly [n + 1] times, the result is [SKIPPED] and the test
    method is not called. *)
Theorem retry_budget (self : TestSuite) (msg : string) (i : nat) (s : State)
    (r : TestResult) :
  results s !! i = Some r ->
  let n := retry (runtime_data r) in
  let cls := test_class (_metadata self) in
  let e := environment self in
  let s' := (start_case self true msg i s).2 in
  ((retry_call (call_hook (EvBeforeCase i) (before_case cls) e) (n + 1) s).1
     = Returned ->
   always_raises (func (metadata (runtime_data r))) e ->
   occurrences (EvTestMethod i) (trace_since s s') = n + 1 /\
   status (results s' !!! i) =
     (if ignore_failure (runtime_data r) then ATTEMPTED else FAILED))
  /\
  (always_raises (before_case cls) e ->
   occurrences (EvBeforeCase i) (trace_since s s') = n + 1 /\
   status (results s' !!! i) = SKIPPED /\
   occurrences (EvTestMethod i) (trace_since s s') = 0).
Proof.
  intros Hi n cls e s'.
  assert (Hlt : i < length (results s)) by (by eapply lookup_lt_Some).
  split.
  - intros Hbefore Hraise.
    destruct (start_case_test_raises self msg i s r Hi Hbefore Hraise)
      as (id & kb & ka & Hres & Htr).
    fold s' in Hres, Htr. split.
    + rewrite (trace_since_app _ _ _ Htr).
      rewrite !occurrences_app, occurrences_repeat_eq.
      rewrite (occurrences_repeat_ne _ (EvBeforeCase i)) by done.
      rewrite (occurrences_repeat_ne _ (EvAfterCase i)) by done.
      rewrite occurrences_set_status by (by intros []).
      fold n. lia.
    + rewrite Hres, list_lookup_total_insert_eq by done.
      apply set_status_status.
  - intros Hraise.
    destruct (start_case_before_raises self msg i s r Hi Hraise)
      as (id & ka & Hres & Htr).
    fold s' in Hres, Htr. rewrite (trace_since_app _ _ _ Htr).
    split; [|split].
    + rewrite !occurrences_app, occurrences_repeat_eq.
      rewrite (occurrences_repeat_ne _ (EvAfterCase i)) by done.
      rewrite occurrences_set_status by (by intros []).
      fold n. lia.
    + rewrite Hres, list_lookup_total_insert_eq by done.
      apply set_status_status.
    + rewrite !occurrences_app.
      rewrite (occurrences_repeat_ne _ (EvBeforeCase i)) by done.
      rewrite (occurrences_repeat_ne _ (EvAfterCase i)) by done.
      rewrite occurrences_set_status by (by intros []).
      lia.
Qed.

(** ** Counting *)

Lemma count_result_lookup d r t :
  default 0 (count_result d r !! t) =
    default 0 (d !! t) + (if has_status t r then 1 else 0).
Proof.
  unfold count_result, has_status. case_bool_decide as H.
  - rewrite H, lookup_insert_eq. simpl. done.
  - rewrite lookup_insert_ne by done. lia.
Qed.

Lemma count_fold_lookup l d t :
  default 0 (fold_left count_result l d !! t) =
    default 0 (d !! t) + length (List.filter (has_status t) l).
Proof.
  revert d. induction l as [|r l IH]; intros d; simpl; [lia|].
  rewrite IH, count_result_lookup. destruct (has_status t r); simpl; lia.
Qed.

Lemma count_results_lookup l t :
  default 0 (count_results l !! t) = length (List.filter (has_status t) l).
Proof. unfold count_results. by rewrite count_fold_lookup, lookup_empty. Qed.

Lemma failed_count_filter rs :
  failed_count rs = length (List.filter (has_status FAILED) rs).
Proof. apply count_results_lookup. Qed.

Lemma failed_count_delete rs i :
  i < length rs -> status (rs !!! i) <> FAILED ->
  failed_count rs = failed_count (delete i rs).
Proof.
  intros Hi Hst. rewrite !failed_count_filter.
  destruct (lookup_lt_is_Some_2 rs i Hi) as [r Hr].
  rewrite (list_lookup_total_correct _ _ _ Hr) in Hst.
  rewrite <- (take_drop_middle rs i r Hr) at 1.
  rewrite delete_take_drop, !List.filter_app, !length_app. simpl.
  unfold has_status at 2. by rewrite bool_decide_false.
Qed.

(** Under [ignore_failure] no way through an iteration ends in [FAILED]. *)
Lemma start_case_ignore_not_failed self b msg i s r :
  results s !! i = Some r ->
  ignore_failure (runtime_data r) = true ->
  status (results (start_case self b msg i s).2 !!! i) <> FAILED.
Proof.
  intros Hi Hign.
  assert (Hlt : i < length (results s)) by (by eapply lookup_lt_Some).
  assert (Hr : results s !!! i = r) by (by apply list_lookup_total_correct).
  rewrite start_case_eq. cbv zeta. simpl.
  destruct (start_case_after_spec self i
              (start_case_body self b msg i s).2) as [Ha _].
  cbv zeta in Ha. rewrite Ha, start_case_body_state. cbv zeta.
  rewrite Hr, Hign.
  set (b1 := retry_call (call_hook (EvBeforeCase i) _ _) _ s).
  destruct (retry_call_hook_frame (EvBeforeCase i)
              (before_case (test_class (_metadata self))) (environment self)
              (retry (runtime_data r) + 1) s) as [Hb1 _].
  fold b1 in Hb1.
  destruct b; [|by rewrite set_status_at_status].
  destruct b1.1 as [|id1]; [|by rewrite set_status_at_status by (by rewrite Hb1)].
  set (b2 := retry_call (call_hook (EvTestMethod i) _ _) _ b1.2).
  destruct (retry_call_hook_frame (EvTestMethod i)
              (func (metadata (runtime_data r))) (environment self)
              (retry (runtime_data r) + 1) b1.2) as [Hb2 _].
  fold b2 in Hb2.
  destruct b2.1 as [|id2];
    by rewrite set_status_at_status by (by rewrite Hb2, Hb1).
Qed.

(** C3: under [ignore_failure], a test method that raises at every attempt
    leaves the result [ATTEMPTED] and not [FAILED], and the count of
    failures that becomes the exit code is the count over the other
    results; indeed no iteration for a case under [ignore_failure] ends
    in [FAILED], whatever the hooks do. *)
Theorem ignore_failure_attempted (self : TestSuite) (msg : string) (i : nat)
    (s : State) (r : TestResult) :
  results s !! i = Some r ->
  ignore_failure (runtime_data r) = true ->
  (retry_call (call_hook (EvBeforeCase i)
                 (before_case (test_class (_metadata self)))
                 (environment self))
              (retry (runtime_data r) + 1) s).1 = Returned ->
  always_raises (func (metadata (runtime_data r))) (environment self) ->
  let s' := (start_case self true msg i s).2 in
  status (results s' !!! i) = ATTEMPTED /\
  status (results s' !!! i) <> FAILED /\
  failed_count (results s') = failed_count (delete i (results s')) /\
  (forall is_suite_continue msg',
     status (results (start_case self is_suite_continue msg' i s).2 !!! i)
       <> FAILED).
Proof.
  intros Hi Hign Hbefore Hraise s'.
  assert (Hlt : i < length (results s)) by (by eapply lookup_lt_Some).
  destruct (start_case_test_raises self msg i s r Hi Hbefore Hraise)
    as (id & kb & ka & Hres & _).
  fold s' in Hres. rewrite Hign in Hres.
  assert (Hst : status (results s' !!! i) = ATTEMPTED).
  { rewrite Hres, list_lookup_total_insert_eq by done.
    apply set_status_status. }
  split; [done|]. split; [by rewrite Hst|]. split.
  - apply failed_count_delete; [|by rewrite Hst].
    by rewrite Hres, length_insert.
  - intros b msg'. by eapply start_case_ignore_not_failed.
Qed.

(** C6: whatever [after_case] does, also when it raises at every attempt
    of its budget, the iteration leaves every result as the first part of
    the iteration left it; in particular the status of the case is the
    one it had before [after_case] ran. *)
Theorem after_case_keeps_status (self : TestSuite) (is_suite_continue : bool)
    (msg : string) (i : nat) (s : State) :
  let before := (start_case_body self is_suite_continue msg i s).2 in
  let after := (start_case self is_suite_continue msg i s).2 in
  after = (start_case_after self i before).2 /\
  results after = results before /\
  status (results after !!! i) = status (results before !!! i).
Proof.
  cbv zeta. rewrite start_case_eq. cbv zeta. simpl.
  destruct (start_case_after_spec self i
              (start_case_body self is_suite_continue msg i s).2) as [H _].
  cbv zeta in H. by rewrite H.
Qed.

(** ** What a run may do to the store and the trace *)

#[global] Instance evolves_preorder : PreOrder evolves.
Proof.
  split.
  - intros r. split; [done|]. by left.
  - intros r1 r2 r3 [Hd1 H1] [Hd2 H2]. split; [congruence|].
    destruct H2 as [[H2 H2']|H2]; [|by right].
    destruct H1 as [[H1 H1']|H1]; [left; split; congruence|].
    right. congruence.
Qed.

Section Advances.
Variable P : Event -> Prop.
Hypothesis P_notify :
  forall m, terminal (msg_status m) = true -> P (EvNotify m).
Hypothesis P_before_case : forall i, P (EvBeforeCase i).
Hypothesis P_test_method : forall i, P (EvTestMethod i).
Hypothesis P_after_case : forall i, P (EvAfterCase i).
Hypothesis P_stopped : P EvSuiteStopped.
Hypothesis P_before_suite : P EvBeforeSuite.
Hypothesis P_after_suite : P EvAfterSuite.

Lemma advances_refl s : advances P s s.
Proof.
  split; [reflexivity|]. exists []. by rewrite app_nil_r.
Qed.

Lemma advances_trans s1 s2 s3 :
  advances P s1 s2 -> advances P s2 s3 -> advances P s1 s3.
Proof.
  intros [H1 (d1 & E1 & F1)] [H2 (d2 & E2 & F2)]. split.
  - by etrans.
  - exists (d1 ++ d2). rewrite E2, E1, app_assoc. split; [done|].
    by apply Forall_app.
Qed.

Lemma okS_ret {A} (a : A) : okS P (ret a).
Proof. intros s. apply advances_refl. Qed.

Lemma okS_bind {A B} (m : St A) (k : A -> St B) :
  okS P m -> (forall a, okS P (k a)) -> okS P (bind m k).
Proof.
  intros Hm Hk s. unfold bind. specialize (Hm s).
  destruct (m s) as [a s1]. simpl in Hm.
  eapply advances_trans; [exact Hm|apply Hk].
Qed.

Lemma okS_get_result i : okS P (get_result i).
Proof. intros s. apply advances_refl. Qed.

Lemma okS_get_world : okS P get_world.
Proof. intros s. apply advances_refl. Qed.

Lemma okS_emit evs : Forall P evs -> okS P (emit evs).
Proof.
  intros H s. split; [reflexivity|]. by exists evs.
Qed.

Lemma okS_update_world f : okS P (update_world f).
Proof.
  intros s. split; [reflexivity|]. exists []. by rewrite app_nil_r.
Qed.

Lemma Forall2_evolves_insert rs i r' :
  evolves (rs !!! i) r' -> Forall2 evolves rs (<[i := r']> rs).
Proof.
  intros H. destruct (decide (i < length rs)) as [Hi|Hi].
  - destruct (lookup_lt_is_Some_2 rs i Hi) as [r Hr].
    rewrite (list_lookup_total_correct _ _ _ Hr) in H.
    rewrite <- (list_insert_id rs i r Hr) at 1.
    apply Forall2_insert; [reflexivity|done].
  - rewrite list_insert_ge by lia. reflexivity.
Qed.

Lemma advances_put_result i r' s :
  evolves (results s !!! i) r' -> advances P s (put_result i r' s).2.
Proof.
  intros H. split; [by apply Forall2_evolves_insert|].
  exists []. by rewrite app_nil_r.
Qed.

Lemma evolves_set_status r t m :
  terminal t = true -> evolves r (set_status r t m).1.
Proof.
  intros Ht. split; [apply set_status_runtime_data|].
  right. by rewrite set_status_status.
Qed.

Lemma okS_set_status_at i t m : terminal t = true -> okS P (set_status_at i t m).
Proof.
  intros Ht s. split.
  - rewrite set_status_at_results.
    by apply Forall2_evolves_insert, evolves_set_status.
  - exists (set_status (results s !!! i) t m).2.
    split; [apply set_status_at_trace|].
    rewrite set_status_events. case_bool_decide; [constructor|].
    repeat constructor. by apply P_notify.
Qed.

Lemma okS_call_hook ev h e : P ev -> okS P (call_hook ev h e).
Proof.
  intros Hev s. split.
  - rewrite call_hook_results. reflexivity.
  - exists [ev]. split; [apply call_hook_trace|]. by repeat constructor.
Qed.

Lemma okS_retry_call f tries : okS P f -> okS P (retry_call f tries).
Proof.
  intros Hf. induction tries as [|n IH]; [apply okS_ret|].
  simpl. apply okS_bind; [done|]. intros [|id]; [apply okS_ret|].
  destruct n; [apply okS_ret|done].
Qed.

Lemma okS_start_case_body self b msg i : okS P (start_case_body self b msg i).
Proof.
  unfold start_case_body. apply okS_bind; [apply okS_get_result|].
  intros r. cbv zeta. apply okS_bind.
  - destruct b.
    + apply okS_bind; [by apply okS_retry_call, okS_call_hook|].
      intros [|id]; [apply okS_ret|].
      apply okS_bind; [by apply okS_set_status_at|]. intros _. apply okS_ret.
    + apply okS_bind; [by apply okS_set_status_at|]. intros _. apply okS_ret.
  - intros [|]; [|apply okS_ret].
    apply okS_bind; [by apply okS_retry_call, okS_call_hook|].
    intros [|id]; [by apply okS_set_status_at|].
    destruct (ignore_failure _); by apply okS_set_status_at.
Qed.

Lemma okS_start_case_after self i : okS P (start_case_after self i).
Proof.
  unfold start_case_after. apply okS_bind; [apply okS_get_result|].
  intros r. apply okS_bind; [by apply okS_retry_call, okS_call_hook|].
  intros _. apply okS_ret.
Qed.

Lemma okS_start_case self b msg i : okS P (start_case self b msg i).
Proof.
  unfold start_case. apply okS_bind; [apply okS_start_case_body|].
  intros _. apply okS_bind; [apply okS_start_case_after|].
  intros _. apply okS_bind; [apply okS_get_world|]. intros w. apply okS_ret.
Qed.

Lemma okS_start_cases self b msg l : okS P (start_cases self b msg l).
Proof.
  induction l as [|i l IH]; [apply okS_ret|].
  simpl. apply okS_bind; [apply okS_start_case|].
  intros [|]; [|done]. apply okS_emit. by repeat constructor.
Qed.

Lemma okS_TestSuite_start self : okS P (TestSuite_start self).
Proof.
  unfold TestSuite_start. apply okS_bind; [by apply okS_call_hook|].
  intros o. cbv zeta. apply okS_bind; [apply okS_start_cases|].
  intros _. apply okS_bind; [by apply okS_call_hook|].
  intros _. apply okS_ret.
Qed.

Lemma okM_ret {A} (a : A) : okM P (retM a).
Proof. intros s. apply advances_refl. Qed.

Lemma okM_raise {A} e : okM P (@raise _ A e).
Proof. intros s. apply advances_refl. Qed.

Lemma okM_bind {A B} (m : M A) (k : A -> M B) :
  okM P m -> (forall a, okM P (k a)) -> okM P (bindM m k).
Proof.
  intros Hm Hk s. unfold bindM. specialize (Hm s).
  destruct (m s) as [a s1|e s1]; [|done].
  specialize (Hk a s1). destruct (k a s1); by eapply advances_trans.
Qed.

Lemma okM_lift {A} (m : St A) : okS P m -> okM P (lift m).
Proof.
  intros Hm s. unfold lift. specialize (Hm s). by destruct (m s).
Qed.

Lemma okM_try_finally {A} (body : M A) fin :
  okM P body -> okM P fin -> okM P (try_finally body fin).
Proof.
  intros Hb Hf s. unfold try_finally. specialize (Hb s).
  destruct (body s) as [a s1|e s1]; specialize (Hf s1);
    destruct (fin s1); by eapply advances_trans.
Qed.

Lemma okS_put_same i (f : TestResult -> TestResult) :
  (forall r, evolves r (f r)) ->
  okS P (bind (get_result i) (fun c => put_result i (f c))).
Proof.
  intros Hf s. unfold bind, get_result. by apply advances_put_result.
Qed.

Lemma evolves_with_env r e : evolves r (with_env r e).
Proof. split; [done|]. by left. Qed.

Lemma evolves_with_check_results r c : evolves r (with_check_results r c).
Proof. split; [done|]. by left. Qed.

Lemma okM_check_environment i e b : okM P (check_environment i e b).
Proof.
  intros s. unfold check_environment, bindM, lift, get_result, get_world, raise.
  simpl. destruct (req_environment _) as [space|]; [|apply advances_refl].
  destruct b; simpl; [|apply advances_refl].
  apply advances_put_result, evolves_with_check_results.
Qed.

Lemma okS_set_envs e cases :
  okS P (fold_right
         (fun i k => bind (get_result i) (fun c =>
                     bind (put_result i (with_env c (env_name e))) (fun _ => k)))
         (ret tt) cases).
Proof.
  induction cases as [|i l IH]; simpl; [apply okS_ret|].
  intros s. unfold bind at 1 2. unfold get_result at 1.
  eapply advances_trans; [|apply IH].
  apply advances_put_result, evolves_with_env.
Qed.

Lemma okM__run_suite e cases : okM P (_run_suite e cases).
Proof.
  unfold _run_suite. destruct cases as [|first rest]; [apply okM_raise|].
  apply okM_bind; [apply okM_lift, okS_get_result|]. intros r. cbv zeta.
  apply okM_bind; [apply okM_lift, okS_set_envs|]. intros _.
  apply okM_lift, okS_TestSuite_start.
Qed.

Lemma okM_merge_one pt i : okM P (merge_one pt i).
Proof.
  unfold merge_one. apply okM_bind; [apply okM_lift, okS_get_result|].
  intros r. cbv zeta. apply okM_bind.
  - destruct (req_platform_type _) as [p|]; [|apply okM_ret].
    destruct (_ && _); [|apply okM_ret].
    destruct (result _); [apply okM_ret|].
    by apply okM_lift, okS_set_status_at.
  - intros _. apply okM_bind; [apply okM_lift, okS_get_result|].
    intros r'. destruct (can_run r'); [|apply okM_ret].
    destruct (req_environment _); [|apply okM_raise].
    destruct (use_new_environment _); apply okM_lift, okS_update_world.
Qed.

Lemma okM_for_each f l : (forall i, okM P (f i)) -> okM P (for_each f l).
Proof.
  intros Hf. induction l as [|i l IH]; [apply okM_ret|].
  simpl. apply okM_bind; [apply Hf|done].
Qed.

Lemma okM__merge_test_requirements l pt : okM P (_merge_test_requirements l pt).
Proof.
  unfold _merge_test_requirements. destruct (str_truthy pt); [|apply okM_raise].
  apply okM_for_each, okM_merge_one.
Qed.

Lemma okM_any_needs e l : okM P (any_needs e l).
Proof.
  induction l as [|i l IH]; [apply okM_ret|].
  simpl. apply okM_bind; [apply okM_lift, okS_get_result|].
  intros r. destruct (can_run r); [|done].
  apply okM_bind; [apply okM_check_environment|].
  intros [|]; [apply okM_ret|done].
Qed.

Lemma okM_run_new_env e l : okM P (run_new_env e l).
Proof.
  induction l as [|i l IH]; [apply okM_ret|].
  simpl. apply okM_bind; [apply okM_check_environment|].
  intros [|]; [apply (okM__run_suite e [i])|done].
Qed.

Lemma okM_group_cases e l g cur : okM P (group_cases e l g cur).
Proof.
  revert g cur. induction l as [|i l IH]; intros g cur; [apply okM_ret|].
  simpl. apply okM_bind; [apply okM_lift, okS_get_result|].
  intros r. destruct (can_run r); [|done].
  apply okM_bind; [apply okM_check_environment|].
  intros ok. destruct (ok && _); [|done].
  apply okM_bind; [|done].
  destruct (_ && _); [|apply okM_ret].
  apply okM_bind; [apply okM__run_suite|]. intros _. apply okM_ret.
Qed.

Hypothesis P_deploy : forall n, P (EvDeploy n).

Lemma okM_call_platform ev f : P ev -> okM P (call_platform ev f).
Proof.
  intros Hev s. unfold call_platform. destruct (f (world s)) as [r w].
  assert (advances P s {| results := results s; world := w;
                        trace := trace s ++ [ev] |}).
  { split; [reflexivity|]. exists [ev]. split; [done|]. by repeat constructor. }
  by destruct r.
Qed.

Lemma okM_iteration_try platform e cr : okM P (iteration_try platform e cr).
Proof.
  unfold iteration_try. apply okM_bind.
  { apply okM_lift. intros s. apply advances_refl. }
  intros rs. cbv zeta. case_bool_decide; [apply okM_ret|].
  apply okM_bind; [apply okM_any_needs|].
  intros [|]; simpl; [|apply okM_ret].
  intros s.
  pose proof (okM_call_platform (EvDeploy (env_name e))
                (deploy_environment platform e) (P_deploy _) s) as Hd.
  destruct (call_platform _ _ s) as [[] s1|ex s1].
  - match goal with |- context [?m s1] =>
      assert (Hm : okM P m); [|specialize (Hm s1); destruct (m s1);
                              by eapply advances_trans] end.
    destruct (negb _); [apply okM_ret|].
    apply okM_bind; [apply okM_run_new_env|]. intros _.
    apply okM_bind; [apply okM_group_cases|]. intros g.
    apply okM_bind; [|intros _; apply okM_ret].
    case_bool_decide; [apply okM_ret|apply okM__run_suite].
  - by destruct ex.
Qed.

Hypothesis P_delete : forall n, P (EvDelete n).

Lemma okM_iteration_finally platform e : okM P (iteration_finally platform e).
Proof.
  intros s. unfold iteration_finally.
  destruct (env_is_ready e (world s)); [|apply advances_refl].
  apply okM_call_platform, P_delete.
Qed.

Lemma okM_iteration platform e cr : okM P (iteration platform e cr).
Proof.
  apply okM_try_finally; [apply okM_iteration_try|apply okM_iteration_finally].
Qed.

Lemma okM_environment_loop platform envs cr :
  okM P (environment_loop platform envs cr).
Proof.
  revert cr. induction envs as [|e envs IH]; intros cr; [apply okM_ret|].
  simpl. apply okM_bind; [apply okM_iteration|].
  intros [[] cr']; simpl; [done|done|apply okM_ret].
Qed.

Lemma okS_skip_one i : okS P (skip_one i).
Proof.
  unfold skip_one. apply okS_bind; [apply okS_get_result|].
  intros r. destruct (can_run r); [by apply okS_set_status_at|apply okS_ret].
Qed.

Lemma okS_skip_remaining l : okS P (skip_remaining l).
Proof.
  induction l as [|i l IH]; [apply okS_ret|].
  simpl. apply okS_bind; [apply okS_skip_one|done].
Qed.

End Advances.

(** [LisaRunner.start] after the store is created. *)
Lemma LisaRunner_start_advances P platform cases s :
  (forall m, terminal (msg_status m) = true -> P (EvNotify m)) ->
  (forall ev, ~ is_notify ev -> P ev) ->
  match LisaRunner_start platform cases s with
  | Done _ s' => advances P (created cases s) s'
  | Raised _ s' => advances P (created cases s) s'
  end.
Proof.
  intros H1 H2. unfold LisaRunner_start.
  unfold bindM at 1. unfold lift at 1. fold (created cases s).
  match goal with |- context [?m (created cases s)] =>
    assert (Hm : okM P m); [|exact (Hm (created cases s))] end.
  apply okM_bind; [by apply okM__merge_test_requirements|]. intros _.
  apply okM_bind.
  { apply okM_lift. intros s1. destruct (prepare_environments _ _).
    split; [reflexivity|]. exists []. by rewrite app_nil_r. }
  intros envs. apply okM_bind.
  { apply okM_environment_loop;
      first [exact H1 | intros; apply H2; by intros []]. }
  intros cr. apply okM_bind; [by apply okM_lift, okS_skip_remaining|].
  intros _. apply okM_bind; [|intros rs; apply okM_ret].
  apply okM_lift. intros s1. apply advances_refl.
Qed.

Lemma notify_progress m :
  terminal (msg_status m) = true -> announces_progress (EvNotify m).
Proof. simpl. by destruct (msg_status m). Qed.

Lemma evolves_never_reset r r' :
  evolves r r' -> status r <> NOTRUN -> status r' <> NOTRUN.
Proof.
  intros [_ [[H _]|H]] Hr; [congruence|]. by destruct (status r').
Qed.

Lemma advances_never_reset P s s' : advances P s s' -> never_reset s s'.
Proof.
  intros [H _] i r r' Hr Hr'. eapply evolves_never_reset.
  eapply Forall2_lookup_lr; eauto.
Qed.

Lemma advances_trace_since P s s' :
  advances P s s' -> Forall P (trace_since s s').
Proof. intros [_ (d & E & F)]. by rewrite (trace_since_app _ _ _ E). Qed.

(** C7: [set_status] notifies exactly when the new status differs from the
    current one, so setting the same status again notifies nothing; and
    neither the suite engine nor any part of the scheduler takes a result
    back to [NOTRUN]: a result that has left [NOTRUN] stays out of it, and
    no notification of a run announces [NOTRUN]. *)
Theorem notify_on_change_only :
  (forall r t m, (set_status r t m).2 = [] <-> status r = t) /\
  (forall r t m, status r <> t ->
     (set_status r t m).2 =
       [EvNotify {| msg_status := t;
                    msg_message := merged_message (message r) m;
                    msg_env := env r |}]) /\
  (forall r t m, (set_status (set_status r t m).1 t m).2 = []) /\
  (forall self s,
     let s' := (TestSuite_start self s).2 in
     never_reset s s' /\ Forall announces_progress (trace_since s s')) /\
  (forall l pt s,
     match _merge_test_requirements l pt s with
     | Done _ s' | Raised _ s' =>
         never_reset s s' /\ Forall announces_progress (trace_since s s')
     end) /\
  (forall platform envs cr s,
     match environment_loop platform envs cr s with
     | Done _ s' | Raised _ s' =>
         never_reset s s' /\ Forall announces_progress (trace_since s s')
     end) /\
  (forall cr s,
     let s' := (skip_remaining cr s).2 in
     never_reset s s' /\ Forall announces_progress (trace_since s s')) /\
  (forall platform cases s,
     match LisaRunner_start platform cases s with
     | Done _ s' | Raised _ s' =>
         never_reset (created cases s) s' /\
         Forall announces_progress (trace_since s s')
     end).
Proof.
  assert (HP := notify_progress).
  split_and!.
  - intros r t m. rewrite set_status_events. by case_bool_decide.
  - intros r t m H. rewrite set_status_events. by rewrite bool_decide_false.
  - intros r t m. rewrite set_status_events, set_status_status.
    by rewrite bool_decide_true.
  - intros self s. cbv zeta.
    pose proof (okS_TestSuite_start announces_progress HP (fun _ => I)
                  (fun _ => I) (fun _ => I) I I I self s) as H.
    split; [by eapply advances_never_reset|by eapply advances_trace_since].
  - intros l pt s.
    pose proof (okM__merge_test_requirements announces_progress HP l pt s) as H.
    destruct (_merge_test_requirements l pt s);
      (split; [by eapply advances_never_reset|by eapply advances_trace_since]).
  - intros platform envs cr s.
    pose proof (okM_environment_loop announces_progress HP (fun _ => I)
                  (fun _ => I) (fun _ => I) I I I (fun _ => I) (fun _ => I)
                  platform envs cr s) as H.
    destruct (environment_loop platform envs cr s);
      (split; [by eapply advances_never_reset|by eapply advances_trace_since]).
  - intros cr s. cbv zeta.
    pose proof (okS_skip_remaining announces_progress HP cr s) as H.
    split; [by eapply advances_never_reset|by eapply advances_trace_since].
  - intros platform cases s.
    assert (HQ : forall ev, ~ is_notify ev -> announces_progress ev)
      by (by intros []).
    pose proof (LisaRunner_start_advances announces_progress platform cases s
                  HP HQ) as H.
    destruct (LisaRunner_start platform cases s);
      (split; [by eapply advances_never_reset|
               by apply (advances_trace_since _ (created cases s))]).
Qed.

(** ** The loop of [TestSuite.start] *)

Lemma reached_prefix self b msg l s : reached self b msg l s `prefix_of` l.
Proof.
  revert s. induction l as [|i l IH]; intros s; simpl; [done|].
  apply prefix_cons. destruct (start_case _ _ _ _ _).1; [|done].
  apply prefix_nil.
Qed.

Lemma reached_no_stop self b msg l s :
  (forall w, stop_requested w = false) -> reached self b msg l s = l.
Proof.
  intros Hno. revert s. induction l as [|i l IH]; intros s; simpl; [done|].
  rewrite start_case_eq. cbv zeta. simpl. rewrite Hno. by rewrite IH.
Qed.

Lemma start_cases_cons self b msg i l s :
  (start_cases self b msg (i :: l) s).2 =
    let r := start_case self b msg i s in
    if r.1 then (emit [EvSuiteStopped] r.2).2
    else (start_cases self b msg l r.2).2.
Proof.
  simpl. unfold bind. destruct (start_case self b msg i s) as [stop s1].
  simpl. by destruct stop.
Qed.

Lemma TestSuite_start_state self s :
  (TestSuite_start self s).2 =
    let cls := test_class (_metadata self) in
    let b0 := call_hook EvBeforeSuite (before_suite cls) (environment self) s in
    let msg := match b0.1 with
               | Returned => empty_str
               | Raise id => "before_suite: " +:+ id
               end in
    let b := match b0.1 with Returned => true | Raise _ => false end in
    let s1 := (start_cases self b msg (case_results self) b0.2).2 in
    (call_hook EvAfterSuite (after_suite cls) (environment self) s1).2.
Proof.
  unfold TestSuite_start. unfold bind at 1.
  destruct (call_hook EvBeforeSuite _ _ s) as [o s0]. cbv zeta.
  cbn [fst snd]. unfold bind at 1.
  destruct (start_cases _ _ _ _ s0) as [[] s1]. cbn [fst snd].
  unfold bind, ret. by destruct (call_hook EvAfterSuite _ _ s1).
Qed.

Lemma advances_runtime_data P s s' i :
  advances P s s' ->
  runtime_data (results s' !!! i) = runtime_data (results s !!! i).
Proof.
  intros [H _]. destruct (decide (i < length (results s))) as [Hi|Hi].
  - destruct (lookup_lt_is_Some_2 _ _ Hi) as [r Hr].
    destruct (Forall2_lookup_l _ _ _ _ _ H Hr) as (r' & Hr' & [Hd _]).
    by rewrite (list_lookup_total_correct _ _ _ Hr),
               (list_lookup_total_correct _ _ _ Hr').
  - rewrite !list_lookup_total_alt.
    rewrite (lookup_ge_None_2 (results s)) by lia.
    rewrite (lookup_ge_None_2 (results s')); [done|].
    rewrite <- (Forall2_length _ _ _ H). lia.
Qed.

Lemma advances_length P s s' :
  advances P s s' -> length (results s') = length (results s).
Proof. intros [H _]. symmetry. by eapply Forall2_length. Qed.

Lemma start_case_after_always_raises self i s :
  always_raises (after_case (test_class (_metadata self))) (environment self) ->
  trace (start_case_after self i s).2 =
    trace s ++ repeat (EvAfterCase i)
                      (retry (runtime_data (results s !!! i)) + 1).
Proof.
  intros Hr. unfold start_case_after, bind, get_result, ret. simpl.
  pose proof (retry_call_always_raises (EvAfterCase i) _ _
                (retry (runtime_data (results s !!! i))) s Hr) as H.
  cbv zeta in H. rewrite <- Nat.add_1_r in H.
  destruct (retry_call _ _ s) as [o s1]. simpl in *. by destruct H as (_ & _ & H).
Qed.

(** One iteration: the events of its first part, then the calls of
    [after_case], at least one. *)
Lemma start_case_trace self b msg i s :
  let s' := (start_case self b msg i s).2 in
  exists d ka,
    trace s' = trace s ++ d ++ repeat (EvAfterCase i) ka /\
    Forall body_event d /\ 1 <= ka /\
    (always_raises (after_case (test_class (_metadata self)))
                   (environment self) ->
     ka = retry (runtime_data (results s !!! i)) + 1).
Proof.
  cbv zeta. rewrite start_case_eq. cbv zeta. simpl.
  set (s1 := (start_case_body self b msg i s).2).
  assert (Hb : advances body_event s s1).
  { apply okS_start_case_body; done. }
  destruct Hb as [Hb1 (d & Hd & HF)].
  destruct (start_case_after_spec self i s1) as [_ (ka & Ha & Hka & _)].
  exists d, ka. split; [by rewrite Ha, Hd, <- app_assoc|].
  split; [done|]. split; [done|].
  intros Hr. pose proof (start_case_after_always_raises self i s1 Hr) as Ha'.
  rewrite Ha in Ha'. apply app_inv_head in Ha'.
  apply (f_equal length) in Ha'. rewrite !repeat_length in Ha'.
  rewrite Ha'. f_equal. f_equal.
  apply (advances_runtime_data body_event). by split; [|exists d].
Qed.

Lemma occurrences_body_event ev d :
  ~ body_event ev -> Forall body_event d -> occurrences ev d = 0.
Proof.
  intros Hev Hd. apply occurrences_Forall_ne.
  eapply Forall_impl; [exact Hd|]. intros x Hx ->. done.
Qed.

Lemma occurrences_repeat ev ev' n :
  occurrences ev (repeat ev' n) = if decide (ev' = ev) then n else 0.
Proof.
  case_decide as H; [subst; apply occurrences_repeat_eq|].
  by apply occurrences_repeat_ne.
Qed.

Lemma start_case_advances_any self b msg i s :
  advances (fun _ => True) s (start_case self b msg i s).2.
Proof. apply okS_start_case; done. Qed.

Lemma occurrences_singleton_ne ev ev' :
  ev' <> ev -> occurrences ev [ev'] = 0.
Proof. intros H. apply occurrences_Forall_ne. by repeat constructor. Qed.

(** The calls of [after_case] over the loop. *)
Lemma start_cases_after_case self b msg l s :
  let s' := (start_cases self b msg l s).2 in
  let got := reached self b msg l s in
  exists d,
    trace s' = trace s ++ d /\
    occurrences EvAfterSuite d = 0 /\
    (forall i, i ∈ got -> 1 <= occurrences (EvAfterCase i) d) /\
    (forall i, i ∉ got -> occurrences (EvAfterCase i) d = 0) /\
    (always_raises (after_case (test_class (_metadata self)))
                   (environment self) ->
     NoDup l ->
     forall i, i ∈ got ->
       occurrences (EvAfterCase i) d =
         retry (runtime_data (results s !!! i)) + 1).
Proof.
  revert s. induction l as [|i0 l IH]; intros s; cbv zeta.
  - exists []. simpl. rewrite app_nil_r. split_and!; try done.
    + intros i Hi. by apply elem_of_nil in Hi.
    + intros _ _ i Hi. by apply elem_of_nil in Hi.
  - rewrite start_cases_cons. cbv zeta. simpl reached.
    destruct (start_case_trace self b msg i0 s) as (d0 & ka & Htr & Hd0 & Hka & Hex).
    pose proof (start_case_advances_any self b msg i0 s) as Hadv.
    destruct (start_case self b msg i0 s) as [stop s1]. simpl in *.
    assert (Hd0' : forall ev, ~ body_event ev -> occurrences ev d0 = 0)
      by (intros; by apply occurrences_body_event).
    destruct stop.
    + exists (d0 ++ repeat (EvAfterCase i0) ka ++ [EvSuiteStopped]).
      split; [by rewrite Htr, <- !app_assoc|].
      split_and!.
      * rewrite !occurrences_app, Hd0', occurrences_repeat by (by intros []).
        by rewrite decide_False, occurrences_singleton_ne.
      * intros i Hi. apply list_elem_of_singleton in Hi. subst i.
        rewrite !occurrences_app, occurrences_repeat_eq. lia.
      * intros i Hi. rewrite list_elem_of_singleton in Hi.
        rewrite !occurrences_app, Hd0', occurrences_repeat by (by intros []).
        rewrite decide_False by congruence.
        by rewrite occurrences_singleton_ne.
      * intros Hr _ i Hi. apply list_elem_of_singleton in Hi. subst i.
        rewrite !occurrences_app, Hd0', occurrences_repeat_eq by (by intros []).
        rewrite (Hex Hr), occurrences_singleton_ne by done. lia.
    + destruct (IH s1) as (d1 & Htr1 & Has1 & Hge1 & Hz1 & Hex1).
      exists (d0 ++ repeat (EvAfterCase i0) ka ++ d1).
      split; [by rewrite Htr1, Htr, <- !app_assoc|].
      split_and!.
      * rewrite !occurrences_app, Hd0', occurrences_repeat by (by intros []).
        by rewrite decide_False.
      * intros i Hi. rewrite !occurrences_app.
        apply elem_of_cons in Hi as [->|Hi].
        -- rewrite occurrences_repeat_eq. lia.
        -- specialize (Hge1 i Hi). lia.
      * intros i Hi. rewrite not_elem_of_cons in Hi. destruct Hi as [Hne Hi].
        rewrite !occurrences_app, Hd0', occurrences_repeat by (by intros []).
        rewrite decide_False by congruence. by rewrite (Hz1 i Hi).
      * intros Hr Hnd i Hi. apply NoDup_cons in Hnd as [Hnotin Hnd].
        rewrite !occurrences_app, Hd0' by (by intros []).
        apply elem_of_cons in Hi as [->|Hi].
        -- rewrite occurrences_repeat_eq, Hz1, (Hex Hr); [lia|].
           intros Hin. apply Hnotin.
           eapply elem_of_prefix; [exact Hin|apply reached_prefix].
        -- assert (i <> i0).
           { intros ->. apply Hnotin.
             eapply elem_of_prefix; [exact Hi|apply reached_prefix]. }
           rewrite occurrences_repeat, decide_False by congruence.
           rewrite (Hex1 Hr Hnd i Hi).
           by rewrite (advances_runtime_data _ _ _ i Hadv).
Qed.

Lemma TestSuite_start_unfold self s :
  (TestSuite_start self s).2 =
    (call_hook EvAfterSuite (after_suite (test_class (_metadata self)))
       (environment self)
       (start_cases self (suite_goes_on self s) (suite_error self s)
          (case_results self) (after_before_suite self s)).2).2.
Proof.
  rewrite TestSuite_start_state. cbv zeta.
  unfold suite_goes_on, suite_error, after_before_suite.
  by rewrite call_hook_outcome.
Qed.

Lemma reached_cases_prefix self s : reached_cases self s `prefix_of` case_results self.
Proof. apply reached_prefix. Qed.

Lemma reached_cases_no_stop self s :
  (forall w, stop_requested w = false) -> reached_cases self s = case_results self.
Proof. apply reached_no_stop. Qed.

(** C10, as the code has it: [after_case] is called, under the full budget
    of [retry + 1] attempts, for every case the loop of [TestSuite.start]
    gets to, whether or not [before_suite] or [before_case] failed and the
    test method was left out; the loop gets to every case of the batch
    unless a stop request is seen at the end of an iteration, and for the
    cases behind that point [after_case] is not called. *)
Theorem after_case_for_every_reached_case (self : TestSuite) (s : State) :
  let s' := (TestSuite_start self s).2 in
  let got := reached_cases self s in
  got `prefix_of` case_results self /\
  ((forall w, stop_requested w = false) -> got = case_results self) /\
  (forall i, i ∈ got -> 1 <= occurrences (EvAfterCase i) (trace_since s s')) /\
  (forall i, i ∉ got -> occurrences (EvAfterCase i) (trace_since s s') = 0) /\
  (always_raises (after_case (test_class (_metadata self)))
                 (environment self) ->
   NoDup (case_results self) ->
   forall i, i ∈ got ->
     occurrences (EvAfterCase i) (trace_since s s') =
       retry (runtime_data (results s !!! i)) + 1).
Proof.
  cbv zeta. split; [apply reached_cases_prefix|].
  split; [apply reached_cases_no_stop|].
  unfold reached_cases.
  destruct (start_cases_after_case self (suite_goes_on self s)
              (suite_error self s) (case_results self)
              (after_before_suite self s))
    as (d & Htr & _ & Hge & Hz & Hex).
  assert (Hts : trace_since s (TestSuite_start self s).2 =
                [EvBeforeSuite] ++ d ++ [EvAfterSuite]).
  { apply trace_since_app. rewrite TestSuite_start_unfold, call_hook_trace.
    rewrite Htr. unfold after_before_suite. rewrite call_hook_trace.
    by rewrite <- !app_assoc. }
  rewrite Hts.
  assert (Hocc : forall i, occurrences (EvAfterCase i)
                   ([EvBeforeSuite] ++ d ++ [EvAfterSuite]) =
                 occurrences (EvAfterCase i) d).
  { intros i. rewrite !occurrences_app, !occurrences_singleton_ne by done. lia. }
  split_and!.
  - intros i Hi. rewrite Hocc. by apply Hge.
  - intros i Hi. rewrite Hocc. by apply Hz.
  - intros Hr Hnd i Hi. rewrite Hocc, (Hex Hr Hnd i Hi).
    unfold after_before_suite. by rewrite call_hook_results.
Qed.

(** An iteration when [before_suite] has failed: the result is set
    [SKIPPED] with the suite's message and [after_case] is called. *)
Lemma start_case_suite_failed self msg i s :
  let s' := (start_case self false msg i s).2 in
  let sk := set_status (results s !!! i) SKIPPED (MsgStr msg) in
  results s' = <[i := sk.1]> (results s) /\
  exists ka, trace s' = trace s ++ sk.2 ++ repeat (EvAfterCase i) ka.
Proof.
  cbv zeta. rewrite start_case_eq. cbv zeta. simpl.
  set (s1 := (start_case_body self false msg i s).2).
  destruct (start_case_after_spec self i s1) as [Ha1 (ka & Ha2 & _)].
  cbv zeta in Ha1. rewrite Ha1, Ha2.
  assert (Hs1 : s1 = (start_case_body self false msg i s).2) by done.
  rewrite start_case_body_state in Hs1. cbv zeta in Hs1.
  rewrite Hs1, set_status_at_results, set_status_at_trace.
  split; [done|]. exists ka. by rewrite <- app_assoc.
Qed.

Lemma Forall_skip_event_case r t m i ka :
  Forall skip_event ((set_status r t m).2 ++ repeat (EvAfterCase i) ka).
Proof.
  apply Forall_app. split.
  - eapply Forall_impl; [apply set_status_events_notify|]. by intros [].
  - apply Forall_forall. intros x Hx. apply list_elem_of_In in Hx.
    by apply repeat_spec in Hx as ->.
Qed.

Lemma start_cases_suite_failed self msg l s :
  let s' := (start_cases self false msg l s).2 in
  let got := reached self false msg l s in
  (exists d, trace s' = trace s ++ d /\ Forall skip_event d) /\
  length (results s') = length (results s) /\
  (forall i, i ∉ got -> results s' !!! i = results s !!! i) /\
  (forall i, i ∈ got -> i < length (results s) ->
     status (results s' !!! i) = SKIPPED) /\
  (NoDup l -> forall i, i ∈ got -> i < length (results s) ->
     results s' !!! i = (set_status (results s !!! i) SKIPPED (MsgStr msg)).1).
Proof.
  revert s. induction l as [|i0 l IH]; intros s; cbv zeta.
  - simpl. split_and!; try done.
    + exists []. by rewrite app_nil_r.
    + intros i Hi. by apply elem_of_nil in Hi.
    + intros _ i Hi. by apply elem_of_nil in Hi.
  - rewrite start_cases_cons. cbv zeta. simpl reached.
    destruct (start_case_suite_failed self msg i0 s) as [Hres (ka & Htr)].
    pose proof (Forall_skip_event_case (results s !!! i0) SKIPPED (MsgStr msg)
                  i0 ka) as Hsk.
    destruct (start_case self false msg i0 s) as [stop s1]. simpl in *.
    assert (Hlen1 : length (results s1) = length (results s))
      by (by rewrite Hres, length_insert).
    assert (Hat : i0 < length (results s) ->
              results s1 !!! i0 =
                (set_status (results s !!! i0) SKIPPED (MsgStr msg)).1)
      by (intros; by rewrite Hres, list_lookup_total_insert_eq).
    assert (Hoff : forall i, i <> i0 -> results s1 !!! i = results s !!! i)
      by (intros; by rewrite Hres, list_lookup_total_insert_ne).
    destruct stop.
    + simpl. split_and!.
      * exists (((set_status (results s !!! i0) SKIPPED (MsgStr msg)).2 ++
                 repeat (EvAfterCase i0) ka) ++ [EvSuiteStopped]).
        rewrite Htr, <- !app_assoc. split; [done|].
        rewrite app_assoc. apply Forall_app. split; [done|].
        by repeat constructor.
      * done.
      * intros i Hi. rewrite list_elem_of_singleton in Hi. by apply Hoff.
      * intros i Hi Hlt. apply list_elem_of_singleton in Hi. subst i.
        rewrite Hat by done. apply set_status_status.
      * intros _ i Hi Hlt. apply list_elem_of_singleton in Hi. subst i.
        by apply Hat.
    + destruct (IH s1) as ((d1 & Htr1 & Hd1) & Hlen & Hframe & Hst & Hex).
      split_and!.
      * exists (((set_status (results s !!! i0) SKIPPED (MsgStr msg)).2 ++
                 repeat (EvAfterCase i0) ka) ++ d1).
        rewrite Htr1, Htr, <- !app_assoc. split; [done|].
        rewrite app_assoc. by apply Forall_app.
      * by rewrite Hlen.
      * intros i Hi. rewrite not_elem_of_cons in Hi. destruct Hi as [Hne Hi].
        rewrite (Hframe i Hi). by apply Hoff.
      * intros i Hi Hlt.
        destruct (decide (i ∈ reached self false msg l s1)) as [Hin|Hin].
        -- apply Hst; [done|lia].
        -- apply elem_of_cons in Hi as [->|Hi]; [|done].
           rewrite (Hframe i0 Hin), Hat by done. apply set_status_status.
      * intros Hnd i Hi Hlt. apply NoDup_cons in Hnd as [Hnotin Hnd].
        apply elem_of_cons in Hi as [->|Hi].
        -- rewrite Hframe, Hat; [done|done|].
           intros Hin. apply Hnotin.
           eapply elem_of_prefix; [exact Hin|apply reached_prefix].
        -- assert (i <> i0).
           { intros ->. apply Hnotin.
             eapply elem_of_prefix; [exact Hi|apply reached_prefix]. }
           rewrite (Hex Hnd i Hi) by lia. by rewrite Hoff.
Qed.

(** C5, as the code has it: when [before_suite] raises, every case the loop
    gets to is set [SKIPPED] with the message of the failure (joined to a
    message the result already had), neither [before_case] nor a test
    method is called for any case, and [after_suite] is called once, as
    the last thing [start] does.  The loop gets to every case of the batch
    unless a stop request is seen at the end of an iteration; the results
    of the cases behind that point are left as they were. *)
Theorem before_suite_failure_skips (self : TestSuite) (s : State)
    (identifier : string) :
  (before_suite (test_class (_metadata self)) (environment self) (world s)).1
    = Raise identifier ->
  let msg := MsgStr ("before_suite: " +:+ identifier) in
  let s' := (TestSuite_start self s).2 in
  let got := reached_cases self s in
  got `prefix_of` case_results self /\
  ((forall w, stop_requested w = false) -> got = case_results self) /\
  (forall i, i ∈ got -> i < length (results s) ->
     status (results s' !!! i) = SKIPPED) /\
  (NoDup (case_results self) ->
   forall i, i ∈ got -> i < length (results s) ->
     results s' !!! i = (set_status (results s !!! i) SKIPPED msg).1 /\
     message (results s' !!! i) = merged_message (message (results s !!! i)) msg) /\
  (forall i, i ∉ got -> results s' !!! i = results s !!! i) /\
  (forall i, occurrences (EvBeforeCase i) (trace_since s s') = 0 /\
             occurrences (EvTestMethod i) (trace_since s s') = 0) /\
  occurrences EvAfterSuite (trace_since s s') = 1 /\
  last (trace s') = Some EvAfterSuite.
Proof.
  intros Hraise. cbv zeta.
  split; [apply reached_cases_prefix|].
  split; [apply reached_cases_no_stop|].
  assert (Hgo : suite_goes_on self s = false)
    by (unfold suite_goes_on; by rewrite Hraise).
  assert (Herr : suite_error self s = "before_suite: " +:+ identifier)
    by (unfold suite_error; by rewrite Hraise).
  assert (Hres0 : results (after_before_suite self s) = results s)
    by apply call_hook_results.
  unfold reached_cases. rewrite Hgo, Herr.
  destruct (start_cases_suite_failed self ("before_suite: " +:+ identifier)
              (case_results self) (after_before_suite self s))
    as ((d & Htr & Hd) & Hlen & Hframe & Hst & Hex).
  rewrite Hres0 in Hlen, Hframe, Hst, Hex.
  assert (Hfin : results (TestSuite_start self s).2 =
                 results (start_cases self false
                            ("before_suite: " +:+ identifier)
                            (case_results self) (after_before_suite self s)).2).
  { by rewrite TestSuite_start_unfold, call_hook_results, Hgo, Herr. }
  assert (Htrace : trace (TestSuite_start self s).2 =
                   trace s ++ ([EvBeforeSuite] ++ d) ++ [EvAfterSuite]).
  { rewrite TestSuite_start_unfold, call_hook_trace, Hgo, Herr, Htr.
    unfold after_before_suite. rewrite call_hook_trace.
    by rewrite <- !app_assoc. }
  assert (Hts : trace_since s (TestSuite_start self s).2 =
                ([EvBeforeSuite] ++ d) ++ [EvAfterSuite]).
  { apply trace_since_app. by rewrite Htrace. }
  assert (Hnone : forall ev, ~ skip_event ev -> occurrences ev d = 0).
  { intros ev Hev. apply occurrences_Forall_ne.
    eapply Forall_impl; [exact Hd|]. intros x Hx ->. done. }
  rewrite Hfin, Hts. split_and!.
  - done.
  - intros Hnd i Hi Hlt. rewrite (Hex Hnd i Hi Hlt).
    split; [done|apply set_status_message].
  - done.
  - intros i. rewrite !occurrences_app, !Hnone by (by intros []).
    by rewrite !occurrences_singleton_ne.
  - rewrite !occurrences_app, Hnone by (by intros []).
    rewrite occurrences_singleton_ne by done.
    apply (occurrences_repeat_eq EvAfterSuite 1).
  - rewrite Htrace, app_assoc. apply last_snoc.
Qed.

(** ** The scheduler *)

Lemma bindM_Done {A B} (m : M A) (k : A -> M B) s b s' :
  bindM m k s = Done b s' ->
  exists a s1, m s = Done a s1 /\ k a s1 = Done b s'.
Proof.
  unfold bindM. destruct (m s) as [a s1|e s1]; [|done]. eauto.
Qed.

Lemma lift_Done {A} (m : St A) s a s' :
  lift m s = Done a s' -> m s = (a, s').
Proof. unfold lift. destruct (m s). by intros [= -> ->]. Qed.

(** How a run that completes is composed. *)
Lemma LisaRunner_start_Done platform cases s runner s' :
  LisaRunner_start platform cases s = Done runner s' ->
  exists s1 s2 envs cr s3,
    _merge_test_requirements (seq 0 (length cases)) (type_name platform)
                             (created cases s) = Done tt s1 /\
    prepare_environments platform (world s1) = (envs, world s2) /\
    results s2 = results s1 /\ trace s2 = trace s1 /\
    environment_loop platform envs (seq 0 (length cases)) s2 = Done cr s3 /\
    s' = (skip_remaining cr s3).2 /\
    runner = {| exit_code := failed_count (results s');
                _latest_test_results := results s' |}.
Proof.
  unfold LisaRunner_start. intros H.
  apply bindM_Done in H as ([] & s0 & H0 & H).
  apply lift_Done in H0. injection H0 as <-.
  apply bindM_Done in H as ([] & s1 & H1 & H).
  apply bindM_Done in H as (envs & s2 & H2 & H).
  apply lift_Done in H2.
  apply bindM_Done in H as (cr & s3 & H3 & H).
  apply bindM_Done in H as ([] & s4 & H4 & H).
  apply lift_Done in H4.
  apply bindM_Done in H as (rs & s5 & H5 & H).
  apply lift_Done in H5. injection H5 as <- <-.
  injection H as <- <-.
  exists s1, s2, envs, cr, s3.
  destruct (prepare_environments platform (world s1)) as [l w] eqn:Hp.
  injection H2 as <- <-. simpl.
  split_and!; try done. by rewrite H4.
Qed.

Lemma failed_count_zero rs :
  Forall (fun r => status r <> FAILED) rs -> failed_count rs = 0.
Proof.
  rewrite failed_count_filter.
  induction 1 as [|r l Hr _ IH]; simpl; [done|].
  unfold has_status at 1. by rewrite bool_decide_false.
Qed.

(** C1: when a run completes, the exit code is the number of selected
    results whose status is [FAILED]; it is zero when no result is
    [FAILED], in particular when every result is [SKIPPED]. *)
Theorem exit_code_counts_failed (platform : Platform)
    (selected_test_cases : list TestCaseRuntimeData) (s : State)
    (runner : LisaRunner) (s' : State) :
  LisaRunner_start platform selected_test_cases s = Done runner s' ->
  _latest_test_results runner = results s' /\
  length (results s') = length selected_test_cases /\
  exit_code runner =
    length (List.filter (has_status FAILED) (_latest_test_results runner)) /\
  (Forall (fun r => status r <> FAILED) (results s') -> exit_code runner = 0) /\
  (Forall (fun r => status r = SKIPPED) (results s') -> exit_code runner = 0).
Proof.
  intros H.
  pose proof (LisaRunner_start_advances (fun _ => True) platform
                selected_test_cases s (fun _ _ => I) (fun _ _ => I)) as Hadv.
  rewrite H in Hadv. apply advances_length in Hadv.
  apply LisaRunner_start_Done in H
    as (s1 & s2 & envs & cr & s3 & _ & _ & _ & _ & _ & _ & ->).
  simpl. split_and!.
  - done.
  - rewrite Hadv. unfold created, _create_test_results. simpl.
    by rewrite length_map.
  - apply failed_count_filter.
  - apply failed_count_zero.
  - intros HF. apply failed_count_zero. eapply Forall_impl; [exact HF|].
    intros r ->. done.
Qed.

Lemma insert_by_elem key x l y : y ∈ insert_by key x l <-> y = x \/ y ∈ l.
Proof.
  induction l as [|z l IH]; simpl.
  - rewrite list_elem_of_singleton, elem_of_nil. tauto.
  - destruct (String.ltb _ _); rewrite !elem_of_cons; [done|].
    rewrite IH. tauto.
Qed.

Lemma sort_by_elem key l y : y ∈ sort_by key l <-> y ∈ l.
Proof.
  unfold sort_by.
  assert (H : forall acc, y ∈ fold_left (fun sorted x => insert_by key x sorted)
                            l acc <-> y ∈ l \/ y ∈ acc).
  { induction l as [|x l IH]; intros acc; simpl.
    - rewrite elem_of_nil. tauto.
    - rewrite IH, insert_by_elem, elem_of_cons. tauto. }
  rewrite H, elem_of_nil. tauto.
Qed.

Lemma runnable_sorted_elem rs l i :
  i ∈ runnable_sorted rs l <-> i ∈ l /\ status (rs !!! i) = NOTRUN.
Proof.
  unfold runnable_sorted. rewrite sort_by_elem, list_elem_of_In, filter_In.
  rewrite <- list_elem_of_In. unfold can_run. by rewrite bool_decide_eq_true.
Qed.

Lemma iteration_try_Done platform e cr s flow cr1 s1 :
  iteration_try platform e cr s = Done (flow, cr1) s1 ->
  cr1 = runnable_sorted (results s) cr.
Proof.
  unfold iteration_try. intros H.
  apply bindM_Done in H as (rs & s0 & H0 & H).
  apply lift_Done in H0. injection H0 as <- <-. cbv zeta in H.
  fold (runnable_sorted (results s) cr) in H.
  case_bool_decide; [by injection H as _ <- _|].
  apply bindM_Done in H as (needed & s2 & _ & H).
  destruct needed; simpl in H; [|by injection H as _ <- _].
  destruct (call_platform _ _ s2) as [[] s3|ex s3].
  - destruct (negb _); [by injection H as _ <- _|].
    apply bindM_Done in H as ([] & s4 & _ & H).
    apply bindM_Done in H as (g & s5 & _ & H).
    apply bindM_Done in H as ([] & s6 & _ & H).
    by injection H as _ <- _.
  - destruct ex; try done. by injection H as _ <- _.
Qed.

Lemma advances_still_notrun P s s' i :
  advances P s s' -> status (results s' !!! i) = NOTRUN ->
  status (results s !!! i) = NOTRUN.
Proof.
  intros [H _] Hst. destruct (decide (i < length (results s))) as [Hi|Hi].
  - destruct (lookup_lt_is_Some_2 _ _ Hi) as [r Hr].
    destruct (Forall2_lookup_l _ _ _ _ _ H Hr) as (r' & Hr' & [_ He]).
    rewrite (list_lookup_total_correct _ _ _ Hr).
    rewrite (list_lookup_total_correct _ _ _ Hr') in Hst.
    destruct He as [[He _]|He]; [congruence|]. by rewrite Hst in He.
  - rewrite list_lookup_total_alt, (lookup_ge_None_2 (results s)) by lia. done.
Qed.

Lemma covers_advances P cr s s' :
  advances P s s' -> covers cr s -> covers cr s'.
Proof.
  intros Hadv Hc i Hi Hst. apply Hc.
  - by rewrite <- (advances_length _ _ _ Hadv).
  - by eapply advances_still_notrun.
Qed.

Lemma try_finally_Done {A} (body : M A) fin s a s' :
  try_finally body fin s = Done a s' ->
  exists s1, body s = Done a s1 /\ fin s1 = Done tt s'.
Proof.
  unfold try_finally. destruct (body s) as [a1 s1|e s1].
  - destruct (fin s1) as [[] s2|e s2] eqn:Hf; [|done].
    intros [= -> ->]. eauto.
  - by destruct (fin s1).
Qed.

Lemma iteration_covers platform e cr s flow cr1 s1 :
  iteration platform e cr s = Done (flow, cr1) s1 ->
  covers cr s -> covers cr1 s1.
Proof.
  intros H Hc.
  pose proof (okM_iteration (fun _ => True) (fun _ _ => I) (fun _ => I)
                (fun _ => I) (fun _ => I) I I I (fun _ => I) (fun _ => I)
                platform e cr s) as Hadv.
  rewrite H in Hadv.
  apply try_finally_Done in H as (s0 & H & _).
  apply iteration_try_Done in H. subst cr1.
  eapply covers_advances; [exact Hadv|].
  intros i Hi Hst. apply runnable_sorted_elem. split; [by apply Hc|done].
Qed.

Lemma environment_loop_covers platform envs cr s cr1 s1 :
  environment_loop platform envs cr s = Done cr1 s1 ->
  covers cr s -> covers cr1 s1.
Proof.
  revert cr s. induction envs as [|e envs IH]; intros cr s H Hc.
  - simpl in H. by injection H as <- <-.
  - simpl in H. apply bindM_Done in H as ([flow cr2] & s2 & Hit & H).
    pose proof (iteration_covers _ _ _ _ _ _ _ Hit Hc) as Hc2.
    simpl in H. destruct flow; [by eapply IH|by eapply IH|].
    by injection H as <- <-.
Qed.

(** The last loop of [start]. *)
Lemma skip_one_results i s :
  results (skip_one i s).2 =
    if can_run (results s !!! i)
    then <[i := (set_status (results s !!! i) SKIPPED
                   (MsgStr (skip_reasons (results s !!! i)))).1]> (results s)
    else results s.
Proof.
  unfold skip_one, bind, get_result. simpl.
  destruct (can_run _); [apply set_status_at_results|done].
Qed.

Lemma skip_remaining_cons i l s :
  (skip_remaining (i :: l) s).2 = (skip_remaining l (skip_one i s).2).2.
Proof. simpl. unfold bind. by destruct (skip_one i s). Qed.

Lemma skip_remaining_other l s i :
  status (results s !!! i) <> NOTRUN ->
  results (skip_remaining l s).2 !!! i = results s !!! i.
Proof.
  revert s. induction l as [|i0 l IH]; intros s Hst; [done|].
  rewrite skip_remaining_cons.
  assert (Hsame : results (skip_one i0 s).2 !!! i = results s !!! i).
  { rewrite skip_one_results. destruct (can_run _) eqn:Hc; [|done].
    destruct (decide (i = i0)) as [->|Hne].
    - unfold can_run in Hc. by apply bool_decide_eq_true in Hc.
    - by rewrite list_lookup_total_insert_ne. }
  rewrite IH; by rewrite Hsame.
Qed.

Lemma skip_remaining_skips l s i :
  i ∈ l -> i < length (results s) -> status (results s !!! i) = NOTRUN ->
  results (skip_remaining l s).2 !!! i =
    (set_status (results s !!! i) SKIPPED
       (MsgStr (skip_reasons (results s !!! i)))).1.
Proof.
  revert s. induction l as [|i0 l IH]; intros s Hin Hlt Hst.
  - by apply elem_of_nil in Hin.
  - rewrite skip_remaining_cons.
    pose proof (skip_one_results i0 s) as Hone.
    destruct (decide (i = i0)) as [->|Hne].
    + unfold can_run in Hone. rewrite bool_decide_true in Hone by done.
      rewrite skip_remaining_other; rewrite Hone;
        rewrite list_lookup_total_insert_eq by done; [done|].
      by rewrite set_status_status.
    + apply elem_of_cons in Hin as [?|Hin]; [done|].
      assert (Hsame : results (skip_one i0 s).2 !!! i = results s !!! i).
      { rewrite Hone. destruct (can_run _); [|done].
        by rewrite list_lookup_total_insert_ne. }
      rewrite IH; rewrite ?Hsame; try done.
      rewrite Hone. destruct (can_run _); [by rewrite length_insert|done].
Qed.

Lemma skip_reasons_truthy r : str_truthy (skip_reasons r) = true.
Proof.
  unfold skip_reasons. destruct (check_results r) as [c|]; [|done].
  by case_bool_decide.
Qed.

(** From the created store to the end of the loop over the environments. *)
Lemma LisaRunner_start_loop_end platform cases s runner s' :
  LisaRunner_start platform cases s = Done runner s' ->
  exists envs s2 cr s3,
    environment_loop platform envs (seq 0 (length cases)) s2 = Done cr s3 /\
    s' = (skip_remaining cr s3).2 /\
    runner = {| exit_code := failed_count (results s');
                _latest_test_results := results s' |} /\
    advances (fun _ => True) (created cases s) s3 /\
    covers cr s3.
Proof.
  intros H.
  apply LisaRunner_start_Done in H
    as (s1 & s2 & envs & cr & s3 & Hm & _ & Hr2 & Ht2 & Hloop & -> & ->).
  exists envs, s2, cr, s3. split_and!; try done.
  - pose proof (okM__merge_test_requirements (fun _ => True) (fun _ _ => I)
                  (seq 0 (length cases)) (type_name platform)
                  (created cases s)) as H1.
    rewrite Hm in H1.
    pose proof (okM_environment_loop (fun _ => True) (fun _ _ => I)
                  (fun _ => I) (fun _ => I) (fun _ => I) I I I (fun _ => I)
                  (fun _ => I) platform envs (seq 0 (length cases)) s2) as H2.
    rewrite Hloop in H2.
    eapply advances_trans; [|exact H2].
    destruct H1 as [H1 (d & Hd & HF)]. split; [by rewrite Hr2|].
    exists d. by rewrite Ht2.
  - eapply environment_loop_covers; [exact Hloop|].
    intros i Hi _. apply elem_of_seq. split; [lia|].
    pose proof (okM__merge_test_requirements (fun _ => True) (fun _ _ => I)
                  (seq 0 (length cases)) (type_name platform)
                  (created cases s)) as H1.
    rewrite Hm in H1. apply advances_length in H1.
    rewrite Hr2, H1 in Hi. unfold created, _create_test_results in Hi.
    simpl in Hi. rewrite length_map in Hi. lia.
Qed.

Lemma evolves_from_new x r :
  evolves (new_TestResult x) r ->
  (status r = NOTRUN /\ message r = empty_str) \/ terminal (status r) = true.
Proof. intros [_ [[H1 H2]|H]]; [left|right]; done. Qed.

(** C4: when a run completes, every selected result has one of the four
    terminal statuses, none is [NOTRUN]; and a result that is [NOTRUN]
    when the loop over the environments ends is [SKIPPED] afterwards with
    the message [no available environment], followed by the reasons of the
    checks saved on it when there are any. *)
Theorem exhaustive_disposition (platform : Platform)
    (selected_test_cases : list TestCaseRuntimeData) (s : State)
    (runner : LisaRunner) (s' : State) :
  LisaRunner_start platform selected_test_cases s = Done runner s' ->
  _latest_test_results runner = results s' /\
  Forall (fun r => terminal (status r) = true /\ status r <> NOTRUN)
         (results s') /\
  exists envs s2 can_run_results s3,
    environment_loop platform envs (seq 0 (length selected_test_cases)) s2
      = Done can_run_results s3 /\
    s' = (skip_remaining can_run_results s3).2 /\
    forall i r, results s3 !! i = Some r -> status r = NOTRUN ->
      exists r', results s' !! i = Some r' /\
        status r' = SKIPPED /\
        message r' = skip_reasons r /\
        (check_results r = None -> message r' = no_environment) /\
        (forall c, check_results r = Some c -> reasons c = [] ->
                   message r' = no_environment) /\
        (forall c, check_results r = Some c -> reasons c <> [] ->
                   message r' =
                     no_environment +:+ ": " +:+ reasons_str (reasons c)).
Proof.
  intros H.
  apply LisaRunner_start_loop_end in H
    as (envs & s2 & cr & s3 & Hloop & -> & -> & Hadv & Hcov).
  assert (Hlen : length (results (skip_remaining cr s3).2) = length (results s3)).
  { eapply (advances_length (fun _ => True)).
    apply okS_skip_remaining. done. }
  assert (Hinv : forall i r, results s3 !! i = Some r ->
            (status r = NOTRUN /\ message r = empty_str) \/
            terminal (status r) = true).
  { intros i r Hr. destruct Hadv as [Hadv _].
    destruct (Forall2_lookup_r _ _ _ _ _ Hadv Hr) as (r0 & Hr0 & Hev).
    unfold created, _create_test_results in Hr0. simpl in Hr0.
    apply list_lookup_fmap_Some in Hr0 as (x & -> & _).
    by eapply evolves_from_new. }
  assert (Hskip : forall i r, results s3 !! i = Some r -> status r = NOTRUN ->
            results (skip_remaining cr s3).2 !! i =
              Some (set_status r SKIPPED (MsgStr (skip_reasons r))).1).
  { intros i r Hr Hst.
    assert (Hi : i < length (results s3)) by (by eapply lookup_lt_Some).
    pose proof (list_lookup_total_correct _ _ _ Hr) as Hr'.
    rewrite <- Hr'. rewrite <- (skip_remaining_skips cr s3 i).
    - apply list_lookup_lookup_total_lt. by rewrite Hlen.
    - apply Hcov; [done|by rewrite Hr'].
    - done.
    - by rewrite Hr'. }
  simpl. split; [done|]. split.
  - apply Forall_lookup. intros i r' Hr'.
    assert (Hi : i < length (results s3)).
    { rewrite <- Hlen. by eapply lookup_lt_Some. }
    destruct (lookup_lt_is_Some_2 _ _ Hi) as [r Hr].
    destruct (decide (status r = NOTRUN)) as [Hst|Hst].
    + rewrite (Hskip i r Hr Hst) in Hr'. injection Hr' as <-.
      by rewrite set_status_status.
    + assert (r' = r) as ->.
      { pose proof (skip_remaining_other cr s3 i) as Ho.
        rewrite (list_lookup_total_correct _ _ _ Hr) in Ho.
        rewrite (list_lookup_total_correct _ _ _ Hr') in Ho.
        by apply Ho. }
      split; [|done]. by destruct (Hinv i r Hr) as [[? _]|?].
  - exists envs, s2, cr, s3. split; [done|]. split; [done|].
    intros i r Hr Hst. eexists. split; [by apply Hskip|].
    assert (Hmsg : message (set_status r SKIPPED (MsgStr (skip_reasons r))).1
                   = skip_reasons r).
    { rewrite set_status_message.
      destruct (Hinv i r Hr) as [[_ ->]|Ht]; [|by rewrite Hst in Ht].
      apply merged_message_fresh, skip_reasons_truthy. }
    rewrite Hmsg, set_status_status. unfold skip_reasons.
    split_and!; try done.
    + by intros ->.
    + intros c -> ->. done.
    + intros c -> Hne. by rewrite bool_decide_false.
Qed.

(** ** Deprovisioning *)

Lemma state_of_try_finally {A} (body : M A) fin s :
  state_of (try_finally body fin s) = state_of (fin (state_of (body s))).
Proof.
  unfold try_finally. destruct (body s) as [a s1|e s1]; simpl;
    by destruct (fin s1).
Qed.

Lemma deletions_none d :
  Forall (fun ev => is_delete ev = false) d -> deletions d = [].
Proof.
  unfold deletions. induction 1 as [|x l Hx _ IH]; simpl; [done|].
  by rewrite Hx.
Qed.

Lemma iteration_try_no_delete platform e cr s :
  advances (fun ev => is_delete ev = false) s
           (state_of (iteration_try platform e cr s)).
Proof.
  pose proof (okM_iteration_try (fun ev => is_delete ev = false)
                (fun _ _ => eq_refl) (fun _ => eq_refl) (fun _ => eq_refl)
                (fun _ => eq_refl) eq_refl eq_refl eq_refl (fun _ => eq_refl)
                platform e cr s) as H.
  by destruct (iteration_try platform e cr s).
Qed.

Lemma iteration_finally_state platform e s :
  trace (state_of (iteration_finally platform e s)) =
    trace s ++ (if env_is_ready e (world s) then [EvDelete (env_name e)]
                else []).
Proof.
  unfold iteration_finally. destruct (env_is_ready e (world s)); simpl.
  - unfold call_platform. destruct (delete_environment _ _ _) as [[ex|] w]; done.
  - by rewrite app_nil_r.
Qed.

(** C8, as the code has it: however an iteration of the loop over the
    environments is left -- at its end, by [continue], by [break] or by an
    exception -- [delete_environment] is called for the environment
    exactly when the environment is ready at that point, then once and as
    the last thing of the iteration; for an environment that is not ready
    (not needed, not deployed, waiting for resources) it is not called. *)
Theorem deprovision_when_ready (platform : Platform) (e : Environment)
    (can_run_results : list nat) (s : State) :
  let at_exit := state_of (iteration_try platform e can_run_results s) in
  let s' := state_of (iteration platform e can_run_results s) in
  deletions (trace_since s at_exit) = [] /\
  trace s' = trace at_exit ++
             (if env_is_ready e (world at_exit) then [EvDelete (env_name e)]
              else []) /\
  deletions (trace_since s s') =
    (if env_is_ready e (world at_exit) then [EvDelete (env_name e)] else []).
Proof.
  cbv zeta. unfold iteration. rewrite state_of_try_finally.
  destruct (iteration_try_no_delete platform e can_run_results s)
    as [_ (d & Hd & HF)].
  rewrite iteration_finally_state.
  split; [|split; [done|]].
  - rewrite (trace_since_app _ _ _ Hd). by apply deletions_none.
  - erewrite trace_since_app;
      [|rewrite iteration_finally_state, Hd, <- app_assoc; reflexivity].
    unfold deletions. rewrite List.filter_app.
    fold (deletions d). rewrite (deletions_none d HF).
    by destruct (env_is_ready _ _).
Qed.

(** ** More on [TestSuite.start] *)

(** One iteration for case [i]: it writes the result of [i] and nothing
    else, and it records calls of [before_case], then of the test method,
    then at most one notification, then calls of [after_case], all for
    [i] and each hook within the budget. *)
Lemma start_case_shape self b msg i s :
  let s' := (start_case self b msg i s).2 in
  let n := retry (runtime_data (results s !!! i)) in
  exists kb kt ka t m,
    results s' = <[i := (set_status (results s !!! i) t m).1]> (results s) /\
    terminal t = true /\
    trace s' = trace s ++ repeat (EvBeforeCase i) kb ++
               repeat (EvTestMethod i) kt ++
               (set_status (results s !!! i) t m).2 ++
               repeat (EvAfterCase i) ka /\
    kb <= n + 1 /\ kt <= n + 1 /\ 1 <= ka <= n + 1 /\
    (b = false -> kb = 0 /\ kt = 0 /\ t = SKIPPED /\ m = MsgStr msg).
Proof.
  cbv zeta. rewrite start_case_eq. cbv zeta. simpl.
  set (s1 := (start_case_body self b msg i s).2).
  assert (Hs1 : s1 = (start_case_body self b msg i s).2) by done.
  rewrite start_case_body_state in Hs1. cbv zeta in Hs1.
  set (r := results s !!! i) in *. set (n := retry (runtime_data r)) in *.
  set (b1 := retry_call (call_hook (EvBeforeCase i) _ _) _ s) in Hs1.
  destruct (retry_call_hook_frame (EvBeforeCase i)
              (before_case (test_class (_metadata self))) (environment self)
              (n + 1) s) as [Hb1 (kb & Hb2 & Hb3 & _)].
  fold b1 in Hb1, Hb2.
  set (b2 := retry_call (call_hook (EvTestMethod i) _ _) _ b1.2) in Hs1.
  destruct (retry_call_hook_frame (EvTestMethod i)
              (func (metadata (runtime_data r))) (environment self)
              (n + 1) b1.2) as [Hc1 (kt & Hc2 & Hc3 & _)].
  fold b2 in Hc1, Hc2.
  assert (Hshape : exists kb kt t m,
    results s1 = <[i := (set_status r t m).1]> (results s) /\
    terminal t = true /\
    trace s1 = trace s ++ repeat (EvBeforeCase i) kb ++
               repeat (EvTestMethod i) kt ++ (set_status r t m).2 /\
    kb <= n + 1 /\ kt <= n + 1 /\
    (b = false -> kb = 0 /\ kt = 0 /\ t = SKIPPED /\ m = MsgStr msg)).
  { destruct b.
    - destruct b1.1 as [|id1].
      + assert (Hk : forall t m, terminal t = true ->
            s1 = (set_status_at i t m b2.2).2 ->
            exists kb kt t m,
              results s1 = <[i := (set_status r t m).1]> (results s) /\
              terminal t = true /\
              trace s1 = trace s ++ repeat (EvBeforeCase i) kb ++
                         repeat (EvTestMethod i) kt ++ (set_status r t m).2 /\
              kb <= n + 1 /\ kt <= n + 1 /\
              (true = false -> kb = 0 /\ kt = 0 /\ t = SKIPPED /\ m = MsgStr msg)).
        { intros t m Ht ->. exists kb, kt, t, m.
          rewrite set_status_at_results, set_status_at_trace.
          rewrite Hc1, Hb1, Hc2, Hb2. fold r. rewrite <- !app_assoc.
          split_and!; try done. }
        destruct b2.1 as [|id2];
          [exact (Hk PASSED (MsgStr empty_str) eq_refl Hs1)|].
        destruct (ignore_failure (runtime_data r)).
        * exact (Hk ATTEMPTED (MsgStr id2) eq_refl Hs1).
        * exact (Hk FAILED (MsgStr ("failed: " +:+ id2)) eq_refl Hs1).
      + exists kb, 0, SKIPPED, (MsgStr ("before_case: " +:+ id1)).
        rewrite Hs1, set_status_at_results, set_status_at_trace.
        rewrite Hb1, Hb2. fold r. simpl. rewrite <- !app_assoc.
        split_and!; try done. lia.
    - exists 0, 0, SKIPPED, (MsgStr msg).
      rewrite Hs1, set_status_at_results, set_status_at_trace. fold r.
      simpl. split_and!; try done; lia. }
  destruct Hshape as (kb' & kt' & t & m & Hr & Ht & Htr & Hkb & Hkt & Hb).
  destruct (start_case_after_spec self i s1) as [Ha1 (ka & Ha2 & Hka)].
  cbv zeta in Ha1.
  assert (Hn : retry (runtime_data (results s1 !!! i)) = n).
  { rewrite Hr. destruct (decide (i < length (results s))) as [Hi|Hi].
    - rewrite list_lookup_total_insert_eq by done.
      by rewrite set_status_runtime_data.
    - by rewrite list_insert_ge by lia. }
  rewrite Hn in Hka.
  exists kb', kt', ka, t, m. rewrite Ha1, Ha2, Hr, Htr, <- !app_assoc.
  split_and!; try done; lia.
Qed.

Lemma loop_event_mono got got' ev :
  (forall j, j ∈ got -> j ∈ got') -> loop_event got ev -> loop_event got' ev.
Proof. intros H. destruct ev; simpl; auto. Qed.

Lemma Forall_loop_event_repeat got ev n :
  loop_event got ev -> Forall (loop_event got) (repeat ev n).
Proof.
  intros H. apply Forall_forall. intros x Hx. apply list_elem_of_In in Hx.
  by apply repeat_spec in Hx as ->.
Qed.

Lemma Forall_loop_event_notify got l :
  Forall is_notify l -> Forall (loop_event got) l.
Proof. intros H. eapply Forall_impl; [exact H|]. by intros []. Qed.

(** The loop writes to the results of the cases it gets to, and records
    events of those cases only. *)
Lemma start_cases_shape self b msg l s :
  let s' := (start_cases self b msg l s).2 in
  let got := reached self b msg l s in
  length (results s') = length (results s) /\
  (forall i, i ∉ got -> results s' !!! i = results s !!! i) /\
  (l = [] -> s' = s) /\
  exists d, trace s' = trace s ++ d /\ Forall (loop_event got) d.
Proof.
  revert s. induction l as [|i0 l IH]; intros s; cbv zeta.
  - simpl. split_and!; try done. exists []. by rewrite app_nil_r.
  - rewrite start_cases_cons. cbv zeta. simpl reached.
    destruct (start_case_shape self b msg i0 s)
      as (kb & kt & ka & t & m & Hres & _ & Htr & _).
    destruct (start_case self b msg i0 s) as [stop s1]. simpl in *.
    assert (Hin : forall got, i0 ∈ i0 :: got) by (intros; apply elem_of_cons; by left).
    assert (Hd0 : forall got, Forall (loop_event (i0 :: got))
              (repeat (EvBeforeCase i0) kb ++ repeat (EvTestMethod i0) kt ++
               (set_status (results s !!! i0) t m).2 ++
               repeat (EvAfterCase i0) ka)).
    { intros got. apply Forall_app. split.
      { apply Forall_loop_event_repeat, Hin. }
      apply Forall_app. split.
      { apply Forall_loop_event_repeat, Hin. }
      apply Forall_app. split.
      { apply Forall_loop_event_notify, set_status_events_notify. }
      apply Forall_loop_event_repeat, Hin. }
    destruct stop.
    + simpl. split_and!.
      * by rewrite Hres, length_insert.
      * intros i Hi. rewrite list_elem_of_singleton in Hi.
        by rewrite Hres, list_lookup_total_insert_ne.
      * done.
      * exists ((repeat (EvBeforeCase i0) kb ++ repeat (EvTestMethod i0) kt ++
                 (set_status (results s !!! i0) t m).2 ++
                 repeat (EvAfterCase i0) ka) ++ [EvSuiteStopped]).
        rewrite Htr, <- !app_assoc. split; [done|].
        rewrite 3!app_assoc. apply Forall_app. split; [|by repeat constructor].
        rewrite <- !app_assoc. apply Hd0.
    + destruct (IH s1) as (Hlen & Hframe & _ & d1 & Htr1 & Hd1).
      split_and!.
      * by rewrite Hlen, Hres, length_insert.
      * intros i Hi. rewrite not_elem_of_cons in Hi. destruct Hi as [Hne Hi].
        rewrite (Hframe i Hi), Hres. by rewrite list_lookup_total_insert_ne.
      * done.
      * exists ((repeat (EvBeforeCase i0) kb ++ repeat (EvTestMethod i0) kt ++
                 (set_status (results s !!! i0) t m).2 ++
                 repeat (EvAfterCase i0) ka) ++ d1).
        rewrite Htr1, Htr, <- !app_assoc. split; [done|].
        rewrite 3!app_assoc. apply Forall_app. split.
        -- rewrite <- !app_assoc. apply Hd0.
        -- eapply Forall_impl; [exact Hd1|]. intros ev.
           apply loop_event_mono. intros j Hj. apply elem_of_cons. by right.
Qed.

Lemma occurrences_loop_event got ev d :
  ~ loop_event got ev -> Forall (loop_event got) d -> occurrences ev d = 0.
Proof.
  intros Hev Hd. apply occurrences_Forall_ne.
  eapply Forall_impl; [exact Hd|]. intros x Hx ->. done.
Qed.

(** [TestSuite.start] as a whole: the trace and the frame. *)
Lemma TestSuite_start_shape self s :
  let s' := (TestSuite_start self s).2 in
  length (results s') = length (results s) /\
  (forall i, i ∉ reached_cases self s -> results s' !!! i = results s !!! i) /\
  (case_results self = [] -> results s' = results s) /\
  exists d, trace s' = trace s ++ [EvBeforeSuite] ++ d ++ [EvAfterSuite] /\
            Forall (loop_event (reached_cases self s)) d /\
            (case_results self = [] -> d = []).
Proof.
  cbv zeta. rewrite TestSuite_start_unfold, call_hook_results, call_hook_trace.
  unfold reached_cases.
  destruct (start_cases_shape self (suite_goes_on self s) (suite_error self s)
              (case_results self) (after_before_suite self s))
    as (Hlen & Hframe & Hnil & d & Htr & Hd).
  assert (Hres0 : results (after_before_suite self s) = results s)
    by apply call_hook_results.
  assert (Htr0 : trace (after_before_suite self s) = trace s ++ [EvBeforeSuite])
    by apply call_hook_trace.
  rewrite Hres0 in Hlen, Hframe. split_and!; try done.
  - intros Hempty. by rewrite (Hnil Hempty).
  - exists d. rewrite Htr, Htr0, <- !app_assoc. split_and!; try done.
    intros Hempty. rewrite (Hnil Hempty) in Htr.
    rewrite <- (app_nil_r (trace _)) in Htr at 1.
    by apply app_inv_head in Htr.
Qed.

Lemma occurrences_singleton_eq ev : occurrences ev [ev] = 1.
Proof. apply (occurrences_repeat_eq ev 1). Qed.

(** X1: [TestSuite.start] calls [before_suite] exactly once, as the first
    thing it does, and [after_suite] exactly once, as the last, whatever
    the hooks and the test methods do in between; it keeps the number of
    results, and on an empty batch it calls nothing else and changes no
    result. *)
Theorem suite_hooks_once (self : TestSuite) (s : State) :
  let s' := (TestSuite_start self s).2 in
  length (results s') = length (results s) /\
  head (trace_since s s') = Some EvBeforeSuite /\
  last (trace_since s s') = Some EvAfterSuite /\
  occurrences EvBeforeSuite (trace_since s s') = 1 /\
  occurrences EvAfterSuite (trace_since s s') = 1 /\
  (case_results self = [] ->
   trace_since s s' = [EvBeforeSuite; EvAfterSuite] /\ results s' = results s).
Proof.
  cbv zeta.
  destruct (TestSuite_start_shape self s)
    as (Hlen & _ & Hnil & d & Htr & Hd & Hdnil).
  rewrite (trace_since_app _ _ _ Htr).
  assert (Hz : forall ev, ~ loop_event (reached_cases self s) ev ->
                          occurrences ev d = 0)
    by (intros; by eapply occurrences_loop_event).
  assert (Hb : occurrences EvBeforeSuite d = 0) by (apply Hz; simpl; tauto).
  assert (Ha : occurrences EvAfterSuite d = 0) by (apply Hz; simpl; tauto).
  split_and!; try done.
  - rewrite app_assoc. apply last_snoc.
  - rewrite !occurrences_app, Hb, occurrences_singleton_eq.
    by rewrite (occurrences_singleton_ne EvBeforeSuite EvAfterSuite).
  - rewrite !occurrences_app, Ha, occurrences_singleton_eq.
    by rewrite (occurrences_singleton_ne EvAfterSuite EvBeforeSuite).
  - intros Hempty. by rewrite (Hdnil Hempty), (Hnil Hempty).
Qed.

(** X2: [TestSuite.start] leaves alone every result that its loop does not
    get to -- the results outside its batch and, after a stop request, the
    cases of the batch behind the stop: such a result is not changed and
    none of [before_case], the test method and [after_case] is called for
    it. *)
Theorem unreached_cases_untouched (self : TestSuite) (s : State) (i : nat) :
  i ∉ reached_cases self s ->
  let s' := (TestSuite_start self s).2 in
  results s' !!! i = results s !!! i /\
  occurrences (EvBeforeCase i) (trace_since s s') = 0 /\
  occurrences (EvTestMethod i) (trace_since s s') = 0 /\
  occurrences (EvAfterCase i) (trace_since s s') = 0.
Proof.
  intros Hi. cbv zeta.
  destruct (TestSuite_start_shape self s)
    as (_ & Hframe & _ & d & Htr & Hd & _).
  rewrite (trace_since_app _ _ _ Htr).
  assert (Hz : forall ev, ~ loop_event (reached_cases self s) ev ->
                          occurrences ev d = 0)
    by (intros; by eapply occurrences_loop_event).
  split; [by apply Hframe|].
  split_and!; rewrite !occurrences_app, Hz by (simpl; tauto);
    by rewrite !occurrences_singleton_ne.
Qed.

(** A case outside the batch is a case the loop does not get to. *)
Lemma not_in_batch_unreached self s i :
  i ∉ case_results self -> i ∉ reached_cases self s.
Proof.
  intros Hi Hin. apply Hi.
  eapply elem_of_prefix; [exact Hin|apply reached_cases_prefix].
Qed.

Lemma retry_call_returns_world ev h e n s :
  (h e (world s)).1 = Returned ->
  world (retry_call (call_hook ev h e) (S n) s).2 = (h e (world s)).2.
Proof.
  intros Hh. rewrite retry_call_S.
  pose proof (call_hook_outcome ev h e s) as Hout. rewrite Hh in Hout.
  rewrite Hout. unfold call_hook. by destruct (h e (world s)).
Qed.

(** X3: a case whose [before_case] and test method both return at their
    first call is [PASSED]; each of the two is called once, however many
    retries the case allows, and the message of the result is left as it
    was. *)
Theorem first_attempt_passes (self : TestSuite) (msg : string) (i : nat)
    (s : State) (r : TestResult) :
  results s !! i = Some r ->
  let cls := test_class (_metadata self) in
  let e := environment self in
  (before_case cls e (world s)).1 = Returned ->
  (func (metadata (runtime_data r)) e (before_case cls e (world s)).2).1
    = Returned ->
  let s' := (start_case self true msg i s).2 in
  status (results s' !!! i) = PASSED /\
  message (results s' !!! i) = message r /\
  occurrences (EvBeforeCase i) (trace_since s s') = 1 /\
  occurrences (EvTestMethod i) (trace_since s s') = 1.
Proof.
  intros Hi cls e Hbefore Htest s'.
  assert (Hlt : i < length (results s)) by (by eapply lookup_lt_Some).
  assert (Hr : results s !!! i = r) by (by apply list_lookup_total_correct).
  subst s'. rewrite start_case_eq. cbv zeta. simpl.
  set (s1 := (start_case_body self true msg i s).2).
  destruct (start_case_after_spec self i s1) as [Ha1 (ka & Ha2 & _)].
  cbv zeta in Ha1. rewrite Ha1.
  assert (Hs1 : s1 = (start_case_body self true msg i s).2) by done.
  rewrite start_case_body_state in Hs1. cbv zeta in Hs1. rewrite Hr in Hs1.
  fold cls e in Hs1.
  set (n := retry (runtime_data r)) in *.
  destruct (retry_call_returns (EvBeforeCase i) (before_case cls) e n s Hbefore)
    as (Hb0 & Hb1 & Hb2).
  pose proof (retry_call_returns_world (EvBeforeCase i) (before_case cls) e n
                s Hbefore) as Hbw.
  rewrite <- Nat.add_1_r in Hb0, Hb1, Hb2, Hbw.
  rewrite Hb0 in Hs1.
  set (sb := (retry_call (call_hook (EvBeforeCase i) (before_case cls) e)
                (n + 1) s).2) in *.
  rewrite <- Hbw in Htest.
  destruct (retry_call_returns (EvTestMethod i)
              (func (metadata (runtime_data r))) e n sb Htest)
    as (Ht0 & Ht1 & Ht2).
  rewrite <- Nat.add_1_r in Ht0, Ht1, Ht2. rewrite Ht0 in Hs1.
  assert (Hres : results s1 =
            <[i := (set_status r PASSED (MsgStr empty_str)).1]> (results s)).
  { by rewrite Hs1, set_status_at_results, Ht1, Hb1, Hr. }
  assert (Htr : trace_since s (start_case_after self i s1).2 =
            [EvBeforeCase i] ++ [EvTestMethod i] ++
            (set_status r PASSED (MsgStr empty_str)).2 ++
            repeat (EvAfterCase i) ka).
  { apply trace_since_app.
    rewrite Ha2, Hs1, set_status_at_trace, Ht2, Ht1, Hb2, Hb1, Hr.
    by rewrite <- !app_assoc. }
  rewrite Hres, list_lookup_total_insert_eq, Htr by done.
  split; [apply set_status_status|]. split; [by rewrite set_status_message|].
  split; rewrite !occurrences_app, ?occurrences_singleton_eq,
           occurrences_set_status by (by intros []);
    rewrite occurrences_singleton_ne by done;
    rewrite occurrences_repeat_ne by done; lia.
Qed.

(** ** The text of a message *)

Lemma prefix_append s t : String.prefix s (s +:+ t) = true.
Proof.
  induction s as [|a s IH].
  - change (String.prefix EmptyString t = true). by destruct t.
  - change (String.prefix (String a s) (String a (s +:+ t)) = true).
    simpl. destruct (Ascii.ascii_dec a a); [done|congruence].
Qed.

Lemma prefix_refl s : String.prefix s s = true.
Proof.
  induction s as [|a s IH]; simpl; [done|].
  destruct (Ascii.ascii_dec a a); [done|congruence].
Qed.

Lemma join_cons sep x l :
  join sep (x :: l) = if bool_decide (l = []) then x
                      else x +:+ sep +:+ join sep l.
Proof. by destruct l. Qed.

(** X4: [set_status] never loses text: the message a result had is a
    prefix of the message it has afterwards; an empty message argument
    (the empty string or the empty list) leaves the message as it was, and
    the first message that is not empty becomes the message as it is.
    Whatever the arguments, the status afterwards is the new status and
    runtime data, environment name and saved check are not touched. *)
Theorem set_status_keeps_text (r : TestResult) (t : TestStatus) (m : Message) :
  let r' := (set_status r t m).1 in
  String.prefix (message r) (message r') = true /\
  (message_truthy m = false -> message r' = message r) /\
  (forall text, message r = empty_str -> m = MsgStr text ->
                message r' = text) /\
  (forall text, str_truthy (message r) = true -> str_truthy text = true ->
                m = MsgStr text ->
                message r' = message r +:+ newline +:+ text) /\
  status r' = t /\ runtime_data r' = runtime_data r /\
  env r' = env r /\ check_results r' = check_results r.
Proof.
  cbv zeta. rewrite set_status_message, set_status_status,
    set_status_runtime_data, set_status_check_results.
  split_and!; try done.
  - unfold merged_message. destruct (message_truthy m); [|apply prefix_refl].
    destruct (str_truthy (message r)) eqn:Hold.
    + rewrite join_cons. case_bool_decide; [apply prefix_refl|].
      apply prefix_append.
    + destruct (message r); [|discriminate].
      by destruct (join newline _).
  - intros Hm. unfold merged_message. by rewrite Hm.
  - intros text Hold ->. unfold merged_message. rewrite Hold. simpl.
    by destruct text.
  - intros text Hold Htext ->. unfold merged_message. simpl.
    by rewrite Htext, Hold.
  - unfold set_status. simpl. by case_bool_decide.
Qed.

(** ** Merging the requirements *)

Lemma set_status_at_eq i t m s :
  set_status_at i t m s =
    (tt, {| results := <[i := (set_status (results s !!! i) t m).1]> (results s);
            world := world s;
            trace := trace s ++ (set_status (results s !!! i) t m).2 |}).
Proof.
  unfold set_status_at, bind, get_result, put_result, emit. simpl.
  by destruct (set_status _ _ _).
Qed.

Lemma can_run_merged pt r : can_run (merged pt r) = still_runs pt r.
Proof.
  unfold merged, still_runs. destruct (platform_fits pt r); [done|].
  unfold can_run. rewrite set_status_status. done.
Qed.

(** One turn of the loop of [_merge_test_requirements]. *)
Lemma merge_one_spec pt i s :
  i < length (results s) ->
  (still_runs pt (results s !!! i) = true ->
   is_Some (req_environment
              (requirement (metadata (runtime_data (results s !!! i)))))) ->
  exists s',
    merge_one pt i s = Done tt s' /\
    results s' = <[i := merged pt (results s !!! i)]> (results s) /\
    world s' = (if still_runs pt (results s !!! i)
                then request (results s !!! i) (world s) else world s).
Proof.
  intros Hi Henv. rewrite <- can_run_merged in *.
  destruct (lookup_lt_is_Some_2 _ _ Hi) as [r Hr].
  pose proof (list_lookup_total_correct _ _ _ Hr) as Hr'.
  unfold merge_one, bindM, lift, get_result. rewrite Hr'.
  rewrite Hr' in Henv. unfold merged, request in *.
  unfold platform_fits, platform_reasons in *.
  destruct (req_platform_type (requirement (metadata (runtime_data r))))
    as [p|] eqn:Hp.
  - destruct (platform_type_truthy (Some p) && Nat.ltb 0 (platform_space_len p))
      eqn:Hlen.
    + destruct (result (platform_space_check p pt)) eqn:Hres.
      * unfold retM. cbn. rewrite Hr'.
        destruct (can_run r) eqn:Hcan.
        -- destruct (Henv eq_refl) as [space Hspace]. rewrite Hspace.
           destruct (use_new_environment (runtime_data r));
             (eexists; split; [done|]); cbn; by rewrite list_insert_id.
        -- eexists. split; [done|]. cbn. by rewrite list_insert_id.
      * rewrite set_status_at_eq. cbn [results world trace].
        rewrite list_lookup_total_insert_eq by done. rewrite Hr'.
        unfold can_run. rewrite !set_status_status.
        rewrite !(bool_decide_false (SKIPPED = NOTRUN)) by done.
        eexists. split; [reflexivity|]. done.
    + unfold retM. cbn. rewrite Hr'.
      destruct (can_run r) eqn:Hcan.
      * destruct (Henv eq_refl) as [space Hspace]. rewrite Hspace.
        destruct (use_new_environment (runtime_data r));
          (eexists; split; [done|]); cbn; by rewrite list_insert_id.
      * eexists. split; [done|]. cbn. by rewrite list_insert_id.
  - unfold retM. cbn. rewrite Hr'.
    destruct (can_run r) eqn:Hcan.
    + destruct (Henv eq_refl) as [space Hspace]. rewrite Hspace.
      destruct (use_new_environment (runtime_data r));
        (eexists; split; [done|]); cbn; by rewrite list_insert_id.
    + eexists. split; [done|]. cbn. by rewrite list_insert_id.
Qed.

Lemma for_each_merge pt (rs : list TestResult) l :
  forall s,
  NoDup l ->
  (forall i, i ∈ l -> i < length (results s)) ->
  (forall i, i ∈ l -> results s !!! i = rs !!! i) ->
  (forall i, i ∈ l -> still_runs pt (rs !!! i) = true ->
     is_Some (req_environment
                (requirement (metadata (runtime_data (rs !!! i)))))) ->
  exists s',
    for_each (merge_one pt) l s = Done tt s' /\
    length (results s') = length (results s) /\
    world s' = fold_left (fun w i => request (rs !!! i) w)
                 (List.filter (fun i => still_runs pt (rs !!! i)) l)
                 (world s) /\
    (forall i, i ∈ l -> results s' !!! i = merged pt (rs !!! i)) /\
    (forall i, i ∉ l -> results s' !!! i = results s !!! i).
Proof.
  induction l as [|i l IH]; intros s Hnd Hlt Hsame Henv.
  - exists s. split_and!; try done. intros i Hi. by apply elem_of_nil in Hi.
  - apply NoDup_cons in Hnd as [Hi Hnd].
    assert (Hil : i ∈ i :: l) by (apply elem_of_cons; by left).
    destruct (merge_one_spec pt i s (Hlt i Hil)) as (s1 & E1 & R1 & W1).
    { rewrite (Hsame i Hil). by apply Henv. }
    destruct (IH s1) as (s' & E & Hlen & Hw & Hin & Hout); try done.
    { intros j Hj. rewrite R1, length_insert. apply Hlt, elem_of_cons.
      by right. }
    { intros j Hj. rewrite R1, list_lookup_total_insert_ne.
      - apply Hsame, elem_of_cons. by right.
      - intros ->. done. }
    { intros j Hj. apply Henv, elem_of_cons. by right. }
    exists s'. split_and!.
    + cbn [for_each]. unfold bindM. by rewrite E1.
    + by rewrite Hlen, R1, length_insert.
    + rewrite Hw, W1, (Hsame i Hil). cbn [List.filter].
      by destruct (still_runs pt (rs !!! i)).
    + intros j Hj. apply elem_of_cons in Hj as [->|Hj]; [|by apply Hin].
      rewrite (Hout i Hi), R1, list_lookup_total_insert_eq by (by apply Hlt).
      by rewrite (Hsame i Hil).
    + intros j Hj. apply not_elem_of_cons in Hj as [Hne Hj].
      rewrite (Hout j Hj), R1. by rewrite list_lookup_total_insert_ne.
Qed.

(** X12: [_merge_test_requirements] asks for environments in the order
    of the results, once for each result that can run on the platform and
    for no other: for a new environment when the case wants one of its
    own, for one to share otherwise.  A result whose platform requirement
    the type name of the platform fails is [SKIPPED] with the reasons of
    the check and asks for nothing; no other result is changed.  An empty
    type name raises [AssertionError] before anything is done. *)
Theorem merge_requirements_requests (l : list nat) (pt : string) (s : State) :
  (str_truthy pt = false ->
   _merge_test_requirements l pt s = Raised (AssertionError empty_str) s) /\
  (str_truthy pt = true ->
   NoDup l ->
   (forall i, i ∈ l -> i < length (results s)) ->
   (forall i, i ∈ l -> still_runs pt (results s !!! i) = true ->
      is_Some (req_environment
                 (requirement (metadata (runtime_data (results s !!! i)))))) ->
   exists s',
     _merge_test_requirements l pt s = Done tt s' /\
     world s' = fold_left (fun w i => request (results s !!! i) w)
                  (List.filter (fun i => still_runs pt (results s !!! i)) l)
                  (world s) /\
     (forall i, i ∈ l ->
        results s' !!! i = merged pt (results s !!! i) /\
        (platform_fits pt (results s !!! i) = true ->
         results s' !!! i = results s !!! i) /\
        (platform_fits pt (results s !!! i) = false ->
         status (results s' !!! i) = SKIPPED /\
         message (results s' !!! i) =
           merged_message (message (results s !!! i))
             (MsgList (platform_reasons pt (results s !!! i))))) /\
     (forall i, i ∉ l -> results s' !!! i = results s !!! i)).
Proof.
  unfold _merge_test_requirements. split; intros Hpt; rewrite Hpt; [done|].
  intros Hnd Hlt Henv.
  destruct (for_each_merge pt (results s) l s Hnd Hlt) as
    (s' & E & _ & Hw & Hin & Hout); try done.
  exists s'. split_and!; try done.
  intros i Hi. rewrite (Hin i Hi). split_and!; try done.
  - unfold merged. by intros ->.
  - unfold merged. intros ->. split.
    + apply set_status_status.
    + apply set_status_message.
Qed.

(** ** [_run_suite] *)

Lemma set_status_env r t m : env (set_status r t m).1 = env r.
Proof. unfold set_status. simpl. by case_bool_decide. Qed.

Lemma env_insert (rs : list TestResult) i r j :
  env r = env (rs !!! i) -> env (<[i := r]> rs !!! j) = env (rs !!! j).
Proof.
  intros H. rewrite list_lookup_total_insert.
  destruct (decide (i = j ∧ i < length rs)) as [[-> _]|_]; done.
Qed.

Lemma Forall_names_repeat name ev n :
  names_environment name ev -> Forall (names_environment name) (repeat ev n).
Proof. intros H. induction n; simpl; by constructor. Qed.

Lemma Forall_names_set_status name r t m :
  env r = name -> Forall (names_environment name) (set_status r t m).2.
Proof.
  intros H. rewrite set_status_events. case_bool_decide; [constructor|].
  by repeat constructor.
Qed.

(** The loop of [start] changes no [env], and what it notifies names the
    environment its cases carry. *)
Lemma start_cases_env self b msg l name :
  forall s,
  (forall i, i ∈ l -> env (results s !!! i) = name) ->
  let s' := (start_cases self b msg l s).2 in
  (forall j, env (results s' !!! j) = env (results s !!! j)) /\
  exists d, trace s' = trace s ++ d /\ Forall (names_environment name) d.
Proof.
  induction l as [|i0 l IH]; intros s Hl; cbv zeta.
  - simpl. split; [done|]. exists []. by rewrite app_nil_r.
  - rewrite start_cases_cons. cbv zeta.
    destruct (start_case_shape self b msg i0 s)
      as (kb & kt & ka & t & m & Hres & _ & Htr & _).
    destruct (start_case self b msg i0 s) as [stop s1]. simpl in *.
    assert (Hi0 : env (results s !!! i0) = name).
    { apply Hl, elem_of_cons. by left. }
    assert (Henv1 : forall j, env (results s1 !!! j) = env (results s !!! j)).
    { intros j. rewrite Hres. apply env_insert, set_status_env. }
    assert (Hd0 : Forall (names_environment name)
              (repeat (EvBeforeCase i0) kb ++ repeat (EvTestMethod i0) kt ++
               (set_status (results s !!! i0) t m).2 ++
               repeat (EvAfterCase i0) ka)).
    { apply Forall_app. split; [by apply Forall_names_repeat|].
      apply Forall_app. split; [by apply Forall_names_repeat|].
      apply Forall_app. split; [by apply Forall_names_set_status|].
      by apply Forall_names_repeat. }
    destruct stop.
    + simpl. split; [done|].
      exists ((repeat (EvBeforeCase i0) kb ++ repeat (EvTestMethod i0) kt ++
               (set_status (results s !!! i0) t m).2 ++
               repeat (EvAfterCase i0) ka) ++ [EvSuiteStopped]).
      rewrite Htr, <- !app_assoc. split; [done|].
      rewrite 3!app_assoc. apply Forall_app. split; [|by repeat constructor].
      by rewrite <- !app_assoc.
    + destruct (IH s1) as (Henv & d1 & Htr1 & Hd1).
      { intros j Hj. rewrite Henv1. apply Hl, elem_of_cons. by right. }
      split.
      * intros j. by rewrite Henv, Henv1.
      * exists ((repeat (EvBeforeCase i0) kb ++ repeat (EvTestMethod i0) kt ++
                 (set_status (results s !!! i0) t m).2 ++
                 repeat (EvAfterCase i0) ka) ++ d1).
        rewrite Htr1, Htr, <- !app_assoc. split; [done|].
        rewrite 3!app_assoc. apply Forall_app. split; [|done].
        by rewrite <- !app_assoc.
Qed.

Lemma TestSuite_start_env self name s :
  (forall i, i ∈ case_results self -> env (results s !!! i) = name) ->
  let s' := (TestSuite_start self s).2 in
  (forall j, env (results s' !!! j) = env (results s !!! j)) /\
  exists d, trace s' = trace s ++ d /\ Forall (names_environment name) d.
Proof.
  intros Hl. cbv zeta.
  rewrite TestSuite_start_unfold, call_hook_results, call_hook_trace.
  assert (Hres0 : results (after_before_suite self s) = results s)
    by apply call_hook_results.
  assert (Htr0 : trace (after_before_suite self s) = trace s ++ [EvBeforeSuite])
    by apply call_hook_trace.
  destruct (start_cases_env self (suite_goes_on self s) (suite_error self s)
              (case_results self) name (after_before_suite self s))
    as (Henv & d & Htr & Hd).
  { intros i Hi. rewrite Hres0. by apply Hl. }
  rewrite Hres0 in Henv. split; [done|].
  exists ([EvBeforeSuite] ++ d ++ [EvAfterSuite]).
  rewrite Htr, Htr0, <- !app_assoc. split; [done|].
  apply Forall_app. split; [by repeat constructor|].
  apply Forall_app. split; [done|]. by repeat constructor.
Qed.

(** The loop [for case in cases: case.env = environment.name]. *)
Lemma assign_env_spec name (cases : list nat) :
  forall s,
  let s' := (fold_right
               (fun i k => bind (get_result i) (fun c =>
                             bind (put_result i (with_env c name))
                                  (fun _ => k)))
               (ret tt) cases s).2 in
  trace s' = trace s /\ world s' = world s /\
  length (results s') = length (results s) /\
  (forall j, j ∈ cases -> j < length (results s) ->
             results s' !!! j = with_env (results s !!! j) name) /\
  (forall j, j ∉ cases -> results s' !!! j = results s !!! j).
Proof.
  induction cases as [|i l IH]; intros s; cbv zeta.
  - simpl. split_and!; try done. intros j Hj. by apply elem_of_nil in Hj.
  - set (s1 := {| results := <[i := with_env (results s !!! i) name]>
                               (results s);
                  world := world s; trace := trace s |}).
    change ((fold_right
               (fun i k => bind (get_result i) (fun c =>
                             bind (put_result i (with_env c name))
                                  (fun _ => k)))
               (ret tt) (i :: l) s).2)
      with ((fold_right
               (fun i k => bind (get_result i) (fun c =>
                             bind (put_result i (with_env c name))
                                  (fun _ => k)))
               (ret tt) l s1).2).
    destruct (IH s1) as (Htr & Hw & Hlen & Hin & Hout).
    assert (Hlen1 : length (results s1) = length (results s))
      by apply length_insert.
    split_and!; try done.
    + by rewrite Hlen.
    + intros j Hj Hlt.
      destruct (decide (j ∈ l)) as [Hjl|Hjl].
      * rewrite (Hin j Hjl) by (by rewrite Hlen1). unfold s1. cbn [results].
        rewrite list_lookup_total_insert.
        destruct (decide (i = j ∧ i < length (results s))) as [[-> _]|_];
          done.
      * apply elem_of_cons in Hj as [->|Hj]; [|done].
        rewrite (Hout i Hjl). unfold s1. cbn [results].
        by rewrite list_lookup_total_insert_eq.
    + intros j Hj. apply not_elem_of_cons in Hj as [Hne Hj].
      rewrite (Hout j Hj). unfold s1. cbn [results].
      by rewrite list_lookup_total_insert_ne.
Qed.

(** X13: [_run_suite] refuses an empty batch with [AssertionError] and
    changes nothing.  Otherwise it does not raise: every case of the batch
    carries the name of the environment afterwards, every status
    notification of the run names that environment, and no result outside
    the batch is changed. *)
Theorem run_suite_names_environment (e : Environment) (cases : list nat)
    (s : State) :
  (cases = [] ->
   _run_suite e cases s = Raised (AssertionError empty_str) s) /\
  (cases <> [] ->
   (forall i, i ∈ cases -> i < length (results s)) ->
   exists s',
     _run_suite e cases s = Done tt s' /\
     (forall i, i ∈ cases -> env (results s' !!! i) = env_name e) /\
     (forall i, i ∉ cases -> results s' !!! i = results s !!! i) /\
     Forall (names_environment (env_name e)) (trace_since s s')).
Proof.
  split; [by intros ->|]. intros Hne Hlt.
  destruct cases as [|first rest]; [done|].
  unfold _run_suite, bindM, lift. unfold get_result at 1.
  set (self := {| environment := e; case_results := first :: rest;
                  _metadata := suite (metadata (runtime_data
                                 (results s !!! first))) |}).
  destruct (assign_env_spec (env_name e) (first :: rest) s)
    as (Htr & Hw & Hlen & Hin & Hout).
  match goal with
  | |- context [foldr ?f ?a ?l s] =>
      remember (foldr f a l s) as out eqn:Eout; clear Eout;
      destruct out as [[] s0]
  end.
  cbn [snd] in *.
  assert (Hbatch : forall i, i ∈ case_results self ->
                     env (results s0 !!! i) = env_name e).
  { intros i Hi. rewrite (Hin i Hi) by (by apply Hlt). done. }
  destruct (TestSuite_start_env self (env_name e) s0 Hbatch)
    as (Henv & d & Htrd & Hd).
  destruct (TestSuite_start_shape self s0) as (_ & Hframe & _).
  destruct (TestSuite_start self s0) as [[] s']. cbn [snd] in *.
  exists s'. split_and!; try done.
  - intros i Hi. rewrite Henv. by apply Hbatch.
  - intros i Hi. rewrite Hframe; [by apply Hout|].
    intros Hr. apply Hi.
    exact (elem_of_prefix _ _ _ Hr (reached_cases_prefix self s0)).
  - rewrite (trace_since_app s s' d); [done|]. by rewrite Htrd, Htr.
Qed.

(** ** Environments that are not deployed *)







Lemma sort_by_nil key : sort_by key [] = [].
Proof. done. Qed.

Lemma runnable_sorted_none rs l :
  (forall i, i ∈ l -> status (rs !!! i) <> NOTRUN) ->
  runnable_sorted rs l = [].
Proof.
  intros H. unfold runnable_sorted.
  assert (E : List.filter (fun i => can_run (rs !!! i)) l = []).
  { induction l as [|i l IH]; [done|]. cbn [List.filter].
    unfold can_run at 1. rewrite bool_decide_false.
    - apply IH. intros j Hj. apply H, elem_of_cons. by right.
    - apply H, elem_of_cons. by left. }
  by rewrite E.
Qed.

(** X15: with no result left to run the loop over the environments ends
    at the first environment: it deploys nothing and looks at no further
    environment, and all it does is the [finally] block of the first,
    which deletes the environment when it is ready.  Without environments
    the loop returns its list as it is. *)
Theorem no_runnable_case_stops (platform : Platform) (e : Environment)
    (rest : list Environment) (can_run_results : list nat) (s : State) :
  (forall i, i ∈ can_run_results -> status (results s !!! i) <> NOTRUN) ->
  environment_loop platform (e :: rest) can_run_results s =
    bindM (iteration_finally platform e) (fun _ => retM []) s /\
  environment_loop platform [] can_run_results s = Done can_run_results s.
Proof.
  intros H. split; [|done].
  cbn [environment_loop]. unfold bindM at 1. unfold iteration, try_finally.
  unfold iteration_try. unfold bindM at 1. unfold lift at 1.
  fold (runnable_sorted (results s) can_run_results).
  rewrite (runnable_sorted_none _ _ H).
  rewrite bool_decide_true by done. unfold retM at 1. unfold bindM.
  by destruct (iteration_finally platform e s) as [[] s'|ex s'].
Qed.

End Properties.

(** ** The factory *)

Lemma register_again (self : Factory) (c_new c_old : SubClass) (n : string) :
  cls_type_name c_new = Some n -> data self !! n = Some c_old ->
  register self c_new =
    inr {| data := data self; _is_initialized := _is_initialized self;
           warnings := warnings self ++
             [{| warn_name := n; warn_new := c_new; warn_exist := c_old |}] |}.
Proof. intros Hn Hd. unfold register. by rewrite Hn, Hd. Qed.

Lemma register_keeps (self self' : Factory) (c c0 : SubClass) (n : string) :
  register self c = inr self' -> data self !! n = Some c0 ->
  data self' !! n = Some c0.
Proof.
  unfold register. destruct (cls_type_name c) as [m|]; [|done].
  destruct (data self !! m) as [c1|] eqn:Hm; intros [= <-] Hn; simpl; [done|].
  rewrite lookup_insert_ne; [done|]. intros ->. congruence.
Qed.

Lemma register_flag (self self' : Factory) (c : SubClass) :
  register self c = inr self' -> _is_initialized self' = _is_initialized self.
Proof.
  unfold register. destruct (cls_type_name c) as [m|]; [|done].
  by destruct (data self !! m); intros [= <-].
Qed.

(** Whatever is registered stays, also when the loop is left early. *)
Lemma _initialize_keeps (l : list SubClass) (self : Factory) (c0 : SubClass)
    (n : string) :
  data self !! n = Some c0 -> data (_initialize l self).2 !! n = Some c0.
Proof.
  revert self. induction l as [|c l IH]; intros self Hn; simpl; [done|].
  destruct (register self c) as [e|self'] eqn:Hr; simpl; [done|].
  apply IH. by eapply register_keeps.
Qed.

Lemma _initialize_flag (l : list SubClass) (self : Factory) :
  _is_initialized (_initialize l self).2 = _is_initialized self.
Proof.
  revert self. induction l as [|c l IH]; intros self; simpl; [done|].
  destruct (register self c) as [e|self'] eqn:Hr; simpl; [done|].
  rewrite IH. by eapply register_flag.
Qed.

(** With every type name declared, the loop ends and a name not yet
    registered goes to the first class that declares it. *)
Lemma _initialize_first (l : list SubClass) (self : Factory) (n : string) :
  Forall (fun c => is_Some (cls_type_name c)) l ->
  (_initialize l self).1 = None /\
  data (_initialize l self).2 !! n =
    match data self !! n with
    | Some c => Some c
    | None => first_declaring n l
    end.
Proof.
  intros Hl. revert self. induction Hl as [|c l [m Hm] _ IH]; intros self.
  - simpl. split; [done|]. by destruct (data self !! n).
  - simpl. unfold register. rewrite Hm.
    destruct (data self !! m) as [c1|] eqn:Hd.
    + match goal with |- context [_initialize l ?f] =>
        destruct (IH f) as [IH1 IH2] end.
      split; [done|]. rewrite IH2. simpl.
      destruct (data self !! n) as [cn|] eqn:Hn; [done|].
      rewrite bool_decide_false; [done|]. intros [= ->]. congruence.
    + match goal with |- context [_initialize l ?f] =>
        destruct (IH f) as [IH1 IH2] end.
      split; [done|]. rewrite IH2. simpl.
      destruct (decide (m = n)) as [->|Hne].
      * rewrite lookup_insert_eq, Hd. by rewrite bool_decide_true.
      * rewrite lookup_insert_ne by done.
        destruct (data self !! n); [done|].
        rewrite bool_decide_false; [done|]. congruence.
Qed.

(** C9: registering one more subclass under a type name that is registered
    replaces nothing and raises nothing, a warning is logged; so
    [create_by_type_name] makes an object of the first subclass that
    declares the name, and does so again at every later call and after
    every later run of [_initialize], whatever subclasses exist then. *)
Theorem first_registration_kept :
  (forall (self : Factory) (c_new c_old : SubClass) (n : string),
     cls_type_name c_new = Some n -> data self !! n = Some c_old ->
     exists self',
       register self c_new = inr self' /\
       data self' = data self /\
       warnings self' = warnings self ++
         [{| warn_name := n; warn_new := c_new; warn_exist := c_old |}]) /\
  (forall (subclasses : list SubClass) (n : string) (c : SubClass),
     Forall (fun c => is_Some (cls_type_name c)) subclasses ->
     first_declaring n subclasses = Some c ->
     let made := create_by_type_name subclasses n new_Factory in
     made.1 = inr (InstanceOf c) /\
     data made.2 !! n = Some c /\
     (forall later, (create_by_type_name later n made.2).1
                    = inr (InstanceOf c)) /\
     (forall later, data (_initialize later made.2).2 !! n = Some c) /\
     (forall later, data (initialize later (set_initialized made.2 false)).2
                      !! n = Some c)).
Proof.
  split.
  - intros self c_new c_old n Hn Hd. eexists.
    split; [by apply register_again|]. done.
  - intros subclasses n c Hall Hfirst. cbv zeta.
    destruct (_initialize_first subclasses (set_initialized new_Factory true) n
                Hall) as [Hnone Hdata].
    simpl in Hdata. rewrite lookup_empty, Hfirst in Hdata.
    pose proof (_initialize_flag subclasses (set_initialized new_Factory true))
      as Hflag.
    assert (Hmade : create_by_type_name subclasses n new_Factory =
              (inr (InstanceOf c),
               (_initialize subclasses (set_initialized new_Factory true)).2)).
    { unfold create_by_type_name, initialize. simpl.
      destruct (_initialize subclasses _) as [o f]. simpl in *. subst o.
      by rewrite Hdata. }
    rewrite Hmade. simpl. split_and!; try done.
    + intros later. unfold create_by_type_name, initialize.
      rewrite Hflag. simpl. by rewrite Hdata.
    + intros later. by apply _initialize_keeps.
    + intros later. unfold initialize. simpl.
      destruct (_initialize later _) as [o f] eqn:Hi.
      assert (data f !! n = Some c).
      { change f with (o, f).2. rewrite <- Hi. by apply _initialize_keeps. }
      by destruct o.
Qed.

(** ** More on the factory *)

(** With every type name declared, the dictionary after [_initialize] on
    an empty factory is the table of first declarations. *)
Lemma _initialize_table (l : list SubClass) (self : Factory) (n : string) :
  Forall (fun c => is_Some (cls_type_name c)) l -> data self = ∅ ->
  data (_initialize l self).2 !! n = first_declaring n l.
Proof.
  intros Hl He. destruct (_initialize_first l self n Hl) as [_ H].
  by rewrite H, He, lookup_empty.
Qed.

(** X5: [create_by_type_name] on a fresh factory raises [LisaException]
    with the text [cannot find subclass '<name>'] exactly when no subclass
    declares the name, and it returns an instance of the first subclass
    that declares it otherwise; the dictionary it leaves maps every name to
    the first subclass that declares it. *)
Theorem unknown_type_name_raises (subclasses : list SubClass) (n : string) :
  Forall (fun c => is_Some (cls_type_name c)) subclasses ->
  let made := create_by_type_name subclasses n new_Factory in
  (first_declaring n subclasses = None <->
   made.1 = inl (LisaException ("cannot find subclass '" +:+ n +:+ "'"))) /\
  (forall c, first_declaring n subclasses = Some c <->
             made.1 = inr (InstanceOf c)) /\
  (forall k, data made.2 !! k = first_declaring k subclasses).
Proof.
  intros Hall. cbv zeta.
  destruct (_initialize_first subclasses (set_initialized new_Factory true) n
              Hall) as [Hnone _].
  pose proof (_initialize_flag subclasses (set_initialized new_Factory true))
    as Hflag.
  pose proof (fun k => _initialize_table subclasses
                         (set_initialized new_Factory true) k Hall eq_refl)
    as Htab.
  unfold create_by_type_name, initialize. simpl.
  destruct (_initialize subclasses _) as [o f]. simpl in *. subst o.
  rewrite Htab. destruct (first_declaring n subclasses) as [c|]; simpl.
  - split_and!; try done.
    intros c'. split; [by intros [= ->]|by intros [= ->]].
  - split_and!; try done.
Qed.

(** Entries and warnings together grow by one for each subclass. *)
Lemma _initialize_accounts (l : list SubClass) (self : Factory) :
  Forall (fun c => is_Some (cls_type_name c)) l ->
  let self' := (_initialize l self).2 in
  size (data self') + length (warnings self') =
    size (data self) + length (warnings self) + length l.
Proof.
  intros Hl. revert self. induction Hl as [|c l [m Hm] _ IH]; intros self.
  - simpl. lia.
  - cbv zeta. simpl. unfold register. rewrite Hm.
    destruct (data self !! m) as [c1|] eqn:Hd.
    + match goal with |- context [_initialize l ?f] =>
        specialize (IH f) end.
      cbv zeta in IH. rewrite IH. simpl. rewrite length_app. simpl. lia.
    + match goal with |- context [_initialize l ?f] =>
        specialize (IH f) end.
      cbv zeta in IH. rewrite IH. simpl.
      rewrite map_size_insert_None by done. lia.
Qed.

(** X6: [_initialize] drops no subclass silently: with every type name
    declared it raises nothing, and every subclass is either put into the
    dictionary or warned about, so entries and warnings together grow by
    the number of subclasses; run a second time over the same subclasses it
    changes no entry and warns once for each of them. *)
Theorem every_subclass_registered_or_warned (l : list SubClass)
    (self : Factory) :
  Forall (fun c => is_Some (cls_type_name c)) l ->
  let once := (_initialize l self).2 in
  let twice := (_initialize l once).2 in
  (_initialize l self).1 = None /\
  size (data once) + length (warnings once) =
    size (data self) + length (warnings self) + length l /\
  data twice = data once /\
  length (warnings twice) = length (warnings once) + length l.
Proof.
  intros Hl. cbv zeta.
  destruct (_initialize_first l self EmptyString Hl) as [Hnone _].
  split; [done|]. split; [by apply _initialize_accounts|].
  assert (Hsame : data (_initialize l (_initialize l self).2).2 =
                  data (_initialize l self).2).
  { apply map_eq. intros k.
    destruct (_initialize_first l (_initialize l self).2 k Hl) as [_ H2].
    rewrite H2.
    destruct (data (_initialize l self).2 !! k) as [c|] eqn:Hk; [done|].
    destruct (_initialize_first l self k Hl) as [_ H1]. rewrite Hk in H1.
    by destruct (data self !! k). }
  split; [done|].
  pose proof (_initialize_accounts l (_initialize l self).2 Hl) as Hacc.
  cbv zeta in Hacc. rewrite Hsame in Hacc. lia.
Qed.

(** The loop up to a class that does not implement [type_name]. *)
Lemma _initialize_app (l1 l2 : list SubClass) (self : Factory) :
  (_initialize l1 self).1 = None ->
  _initialize (l1 ++ l2) self = _initialize l2 (_initialize l1 self).2.
Proof.
  revert self. induction l1 as [|c l1 IH]; intros self H; simpl in *; [done|].
  destruct (register self c) as [e|self']; [done|]. by apply IH.
Qed.

(** X7: a subclass that does not implement [type_name] stops
    [_initialize] with [NotImplementedError]: the subclasses before it are
    in the dictionary, those after it are not looked at, and
    [create_by_type_name] on a fresh factory raises [NotImplementedError]
    for every name, also for a name that a subclass before it declares. *)
Theorem abstract_subclass_breaks_factory (before after : list SubClass)
    (c : SubClass) (n : string) :
  Forall (fun c => is_Some (cls_type_name c)) before ->
  cls_type_name c = None ->
  let made := create_by_type_name (before ++ c :: after) n new_Factory in
  (forall self, _initialize (before ++ c :: after) self =
                  (Some NotImplementedError, (_initialize before self).2)) /\
  made.1 = inl NotImplementedError /\
  (forall k, data made.2 !! k = first_declaring k before).
Proof.
  intros Hall Hc. cbv zeta. split.
  { intros self.
    destruct (_initialize_first before self n Hall) as [Hnone _].
    rewrite (_initialize_app _ _ _ Hnone). simpl.
    unfold register. by rewrite Hc. }
  destruct (_initialize_first before (set_initialized new_Factory true) n
              Hall) as [Hnone _].
  pose proof (fun k => _initialize_table before
                         (set_initialized new_Factory true) k Hall eq_refl)
    as Htab.
  unfold create_by_type_name, initialize. simpl.
  rewrite (_initialize_app _ _ _ Hnone). simpl.
  unfold register. rewrite Hc. simpl. done.
Qed.

(** ** The registry of suites and cases *)

Lemma dict_get_nil {V} (k : string) : dict_get k ([] : dict V) = None.
Proof. done. Qed.

Lemma dict_get_cons {V} (k : string) (kv : string * V) (d : dict V) :
  dict_get k (kv :: d) = if bool_decide (kv.1 = k) then Some kv.2
                         else dict_get k d.
Proof. unfold dict_get. simpl. by case_bool_decide. Qed.

Lemma dict_get_app {V} (k : string) (d1 d2 : dict V) :
  dict_get k (d1 ++ d2) =
    match dict_get k d1 with Some v => Some v | None => dict_get k d2 end.
Proof.
  induction d1 as [|kv d1 IH]; [done|].
  rewrite <- app_comm_cons, !dict_get_cons. by case_bool_decide.
Qed.

Lemma dict_get_update {V} (k k' : string) (f : V -> V) (d : dict V) :
  dict_get k (dict_update k' f d) =
    if bool_decide (k = k') then f <$> dict_get k d else dict_get k d.
Proof.
  induction d as [|kv d IH]; [by case_bool_decide|].
  unfold dict_update in *. simpl map. rewrite dict_get_cons.
  destruct (bool_decide (kv.1 = k')) eqn:E1; simpl.
  - apply bool_decide_eq_true in E1. rewrite dict_get_cons.
    destruct (bool_decide (kv.1 = k)) eqn:E2.
    + apply bool_decide_eq_true in E2.
      rewrite bool_decide_true by congruence. done.
    + done.
  - apply bool_decide_eq_false in E1. rewrite dict_get_cons.
    destruct (bool_decide (kv.1 = k)) eqn:E2.
    + apply bool_decide_eq_true in E2.
      rewrite bool_decide_false by congruence. done.
    + done.
Qed.

Lemma dict_get_None {V} (k : string) (d : dict V) :
  dict_get k d = None <-> k ∉ d.*1.
Proof.
  induction d as [|kv d IH].
  - split; [intros _; apply not_elem_of_nil|done].
  - rewrite dict_get_cons, fmap_cons, not_elem_of_cons.
    case_bool_decide as E.
    + split; [done|]. by intros [? _].
    + rewrite IH. split; [by split|by intros [_ ?]].
Qed.

Lemma dict_get_Some_key {V} (k : string) (d : dict V) :
  is_Some (dict_get k d) <-> k ∈ d.*1.
Proof.
  destruct (dict_get k d) eqn:E.
  - split; [|by eauto]. intros _.
    destruct (decide (k ∈ d.*1)) as [|Hn]; [done|].
    apply dict_get_None in Hn. congruence.
  - apply dict_get_None in E. split; [by intros [? ?]|done].
Qed.

Lemma dict_update_keys {V} (k : string) (f : V -> V) (d : dict V) :
  (dict_update k f d).*1 = d.*1.
Proof.
  unfold dict_update. induction d as [|kv d IH]; [done|].
  cbn [map]. rewrite !fmap_cons, IH. by case_bool_decide.
Qed.

Lemma dict_update_absent {V} (k : string) (f : V -> V) (d : dict V) :
  dict_get k d = None -> dict_update k f d = d.
Proof.
  induction d as [|kv d IH]; [done|].
  rewrite dict_get_cons. unfold dict_update in *. simpl.
  case_bool_decide; [done|]. intros Hd. by rewrite IH.
Qed.

Lemma dict_update_app {V} (k : string) (f : V -> V) (d1 d2 : dict V) :
  dict_update k f (d1 ++ d2) = dict_update k f d1 ++ dict_update k f d2.
Proof. unfold dict_update. by rewrite map_app. Qed.

Lemma matched_app (key : string) (d1 d2 : dict CaseEntry) :
  matched key (d1 ++ d2) = matched key d1 ++ matched key d2.
Proof. unfold matched. by rewrite List.filter_app, fmap_app. Qed.

Lemma matched_keys (key fn : string) (d : dict CaseEntry) :
  fn ∈ matched key d -> fn ∈ d.*1.
Proof.
  unfold matched. induction d as [|kv d IH]; [done|]. simpl.
  destruct (String.prefix _ _); rewrite ?fmap_cons, ?elem_of_cons; tauto.
Qed.

(** The loop of [_add_suite_metadata] in closed form. *)
Lemma link_loop (key : string) (l : dict CaseEntry) (reg : Registry) :
  fold_left
    (fun reg test_case =>
       if String.prefix (key +:+ ".") (case_full_name test_case.2)
       then _add_case_to_suite key test_case.1 reg
       else reg) l reg =
  {| _all_suites := dict_update key (append_cases (matched key l))
                      (_all_suites reg);
     _all_cases :=
       assign_suite key (matched key l) (_all_cases reg) |}.
Proof.
  unfold assign_suite. revert reg. induction l as [|kv l IH]; intros [S C].
  - cbn [fold_left _all_suites _all_cases]. f_equal.
    + unfold dict_update. rewrite <- (map_id S) at 1. apply map_ext.
      intros [k [n cn cs]]. cbn [fst snd]. case_bool_decide; [|done].
      unfold append_cases. cbn. by rewrite app_nil_r.
    + rewrite <- (map_id C) at 1. apply map_ext. intros x.
      rewrite bool_decide_false; [done|]. unfold matched. cbn.
      apply not_elem_of_nil.
  - simpl fold_left. unfold matched. simpl List.filter.
    destruct (String.prefix _ _) eqn:Hp.
    + rewrite IH. unfold _add_case_to_suite.
      cbn [_all_suites _all_cases fst snd]. f_equal.
      * unfold dict_update. rewrite map_map. apply map_ext.
        intros [k [n cn cs]]. cbn [fst snd].
        destruct (bool_decide (k = key)) eqn:E; cbn [fst snd]; rewrite E;
          [|done].
        unfold append_cases, append_case. cbn. by rewrite <- app_assoc.
      * unfold dict_update. rewrite map_map. apply map_ext. intros [k c].
        cbn [fst snd fmap list_fmap]. fold (matched key l).
        destruct (bool_decide (k = kv.1)) eqn:E1; cbn [fst snd].
        -- apply bool_decide_eq_true in E1. subst k.
           rewrite (bool_decide_true (kv.1 ∈ kv.1 :: _))
             by (apply elem_of_cons; by left).
           by case_bool_decide.
        -- apply bool_decide_eq_false in E1.
           destruct (bool_decide (k ∈ matched key l)) eqn:E2.
           ++ apply bool_decide_eq_true in E2.
              rewrite bool_decide_true by (apply elem_of_cons; by right).
              done.
           ++ apply bool_decide_eq_false in E2.
              rewrite bool_decide_false; [done|].
              rewrite elem_of_cons. by intros [?|?].
    + by rewrite IH.
Qed.

Lemma _add_suite_metadata_new (m : SuiteEntry) (reg : Registry) :
  dict_get (suite_key m) (_all_suites reg) = None ->
  _add_suite_metadata m reg =
    inr {| _all_suites := _all_suites reg ++
             [(suite_key m,
               append_cases (matched (suite_key m) (_all_cases reg)) m)];
           _all_cases :=
             assign_suite (suite_key m)
               (matched (suite_key m) (_all_cases reg)) (_all_cases reg) |}.
Proof.
  intros Hk. unfold _add_suite_metadata. rewrite Hk. rewrite link_loop.
  simpl. unfold dict_add. rewrite dict_update_app.
  rewrite (dict_update_absent _ _ _ Hk). unfold dict_update at 1. simpl.
  by rewrite bool_decide_true by done.
Qed.

Lemma assigned_get (key : string) (K : list string) (d : dict CaseEntry)
    (fn : string) :
  dict_get fn (assign_suite key K d) =
  (fun c => if bool_decide (fn ∈ K) then set_suite key c else c) <$>
    dict_get fn d.
Proof.
  unfold assign_suite. induction d as [|[k c] d IH]; [done|]. simpl map.
  rewrite !dict_get_cons. cbn [fst snd].
  destruct (bool_decide (k ∈ K)) eqn:E1; cbn [fst snd];
    destruct (bool_decide (k = fn)) eqn:E2; try done;
    apply bool_decide_eq_true in E2; subst k; cbn; by rewrite E1.
Qed.

Lemma assigned_keys (key : string) (K : list string) (d : dict CaseEntry) :
  (assign_suite key K d).*1 = d.*1.
Proof.
  unfold assign_suite. induction d as [|[k c] d IH]; [done|]. cbn [map].
  rewrite !fmap_cons, IH. by case_bool_decide.
Qed.

(** X8: [_add_suite_metadata] raises for a key that is registered and
    nothing else; otherwise it puts the suite last in [_all_suites], under
    its name or, without one, under the name of its class, and the suite
    takes up the registered cases whose full name begins with the key and
    a dot, in the order they were registered: these cases get the suite,
    no other case is changed, and no suite registered before is. *)
Theorem suite_registration_links_cases (m : SuiteEntry) (reg : Registry) :
  let key := suite_key m in
  let taken := matched key (_all_cases reg) in
  match _add_suite_metadata m reg with
  | inl e => e = DuplicateName key /\ is_Some (dict_get key (_all_suites reg))
  | inr reg' =>
      dict_get key (_all_suites reg) = None /\
      _all_suites reg' = _all_suites reg ++ [(key, append_cases taken m)] /\
      (_all_cases reg').*1 = (_all_cases reg).*1 /\
      (forall fn, dict_get fn (_all_cases reg') =
         (fun c => if bool_decide (fn ∈ taken) then set_suite key c else c)
           <$> dict_get fn (_all_cases reg))
  end.
Proof.
  cbv zeta. destruct (dict_get (suite_key m) (_all_suites reg)) eqn:Hk.
  - unfold _add_suite_metadata. rewrite Hk. by eauto.
  - rewrite (_add_suite_metadata_new _ _ Hk). simpl.
    split; [done|]. split; [done|]. split; [apply assigned_keys|].
    intros fn. apply assigned_get.
Qed.

Lemma prefix_nil (s : string) : String.prefix EmptyString s = true.
Proof. by destruct s. Qed.

(** For a key without a dot and a qualified name, the two tests the
    registry makes are the same test. *)
Lemma prefix_class (k fn : string) :
  has_dot k = false -> has_dot fn = true ->
  String.prefix (k +:+ ".") fn = bool_decide (before_dot fn = k).
Proof.
  unfold has_dot. rewrite negb_false_iff, negb_true_iff.
  rewrite bool_decide_eq_true, bool_decide_eq_false.
  revert fn. induction k as [|b k IH]; intros [|a s] Hk Hfn; try done.
  - change (String.prefix (String "." EmptyString) (String a s) =
            bool_decide (before_dot (String a s) = EmptyString)).
    cbn [String.prefix before_dot].
    destruct (Ascii.eqb a ".") eqn:E.
    + apply Ascii.eqb_eq in E. subst a.
      destruct (ascii_dec "." "."); [|done]. by rewrite prefix_nil.
    + apply Ascii.eqb_neq in E.
      destruct (ascii_dec "." a); [congruence|].
      by rewrite bool_decide_false.
  - cbn [before_dot] in Hk. destruct (Ascii.eqb b ".") eqn:Eb; [done|].
    injection Hk as Hk.
    change (String.prefix (String b (k +:+ ".")) (String a s) =
            bool_decide (before_dot (String a s) = String b k)).
    cbn [String.prefix before_dot]. cbn [before_dot] in Hfn.
    destruct (ascii_dec b a) as [->|Hne].
    + rewrite Eb in *. rewrite IH; [|done|congruence].
      apply bool_decide_ext. split; [congruence|]. by intros [= ?].
    + destruct (Ascii.eqb a "."); rewrite bool_decide_false; try done.
      intros [= ? ?]. congruence.
Qed.

Lemma matched_snoc (key fn : string) (c : CaseEntry) (d : dict CaseEntry) :
  matched key (d ++ [(fn, c)]) =
    matched key d ++
      (if String.prefix (key +:+ ".") (case_full_name c) then [fn] else []).
Proof.
  rewrite matched_app. f_equal. unfold matched. cbn.
  by destruct (String.prefix _ _).
Qed.

Lemma assign_suite_ext (key : string) (K K' : list string)
    (d : dict CaseEntry) :
  (forall k, k ∈ d.*1 -> (k ∈ K <-> k ∈ K')) ->
  assign_suite key K d = assign_suite key K' d.
Proof.
  unfold assign_suite. induction d as [|[k c] d IH]; intros H; [done|].
  cbn [map fst snd]. rewrite IH.
  - f_equal. rewrite (bool_decide_ext (k ∈ K) (k ∈ K')); [done|].
    apply H. rewrite fmap_cons. apply elem_of_cons. by left.
  - intros k' Hk'. apply H. rewrite fmap_cons. apply elem_of_cons.
    by right.
Qed.

Lemma assign_suite_app (key : string) (K : list string)
    (d1 d2 : dict CaseEntry) :
  assign_suite key K (d1 ++ d2) =
    assign_suite key K d1 ++ assign_suite key K d2.
Proof. unfold assign_suite. by rewrite map_app. Qed.

Lemma _add_case_metadata_new (c : CaseEntry) (reg : Registry) :
  dict_get (case_full_name c) (_all_cases reg) = None ->
  _add_case_metadata c reg =
    inr (match dict_get (before_dot (case_full_name c)) (_all_suites reg) with
         | Some _ =>
             {| _all_suites :=
                  dict_update (before_dot (case_full_name c))
                    (append_case (case_full_name c)) (_all_suites reg);
                _all_cases :=
                  _all_cases reg ++
                    [(case_full_name c,
                      set_suite (before_dot (case_full_name c)) c)] |}
         | None =>
             {| _all_suites := _all_suites reg;
                _all_cases := _all_cases reg ++ [(case_full_name c, c)] |}
         end).
Proof.
  intros Hc. unfold _add_case_metadata. rewrite Hc.
  cbn [_all_suites _all_cases].
  destruct (dict_get (before_dot _) _) eqn:Hs; [|done].
  unfold _add_case_to_suite, dict_add. cbn [_all_suites _all_cases].
  rewrite dict_update_app, (dict_update_absent _ _ _ Hc).
  unfold dict_update at 2. cbn [map fst snd].
  by rewrite bool_decide_true by done.
Qed.

(** X9: a suite and one of its methods can be registered in either
    order.  For a key without a dot and a qualified name with one, neither
    registered before, [_add_suite_metadata] followed by
    [_add_case_metadata] leaves the registry that the two calls in the other
    order leave, and neither order raises. *)
Theorem registration_order_irrelevant (m : SuiteEntry) (c : CaseEntry)
    (reg : Registry) :
  has_dot (suite_key m) = false ->
  has_dot (case_full_name c) = true ->
  dict_get (suite_key m) (_all_suites reg) = None ->
  dict_get (case_full_name c) (_all_cases reg) = None ->
  apply_decorators [DecoratedSuite m; DecoratedCase c] reg =
    apply_decorators [DecoratedCase c; DecoratedSuite m] reg /\
  is_Some (match apply_decorators [DecoratedSuite m; DecoratedCase c] reg
           with inr reg' => Some reg' | inl _ => None end).
Proof.
  intros Hk Hfn HS HC. destruct reg as [S C]. cbn [_all_suites _all_cases] in *.
  set (k := suite_key m) in *. set (fn := case_full_name c) in *.
  pose proof (prefix_class k fn Hk Hfn) as Hp.
  assert (HfnC : fn ∉ C.*1) by by apply dict_get_None.
  assert (HfnM : fn ∉ matched k C).
  { intros H. by apply matched_keys in H. }
  cbn [apply_decorators apply_decorator].
  rewrite (_add_suite_metadata_new m {| _all_suites := S; _all_cases := C |} HS). cbn [_all_suites _all_cases].
  fold k.
  rewrite _add_case_metadata_new; cbn [_all_suites _all_cases]; fold fn;
    [|by rewrite assigned_get, HC].
  rewrite (_add_case_metadata_new c {| _all_suites := S; _all_cases := C |} HC). cbn [_all_suites _all_cases].
  fold fn.
  rewrite dict_get_app, dict_get_cons, dict_get_nil. cbn [fst snd].
  destruct (dict_get (before_dot fn) S) as [s0|] eqn:Hcn.
  - (* the case belongs to a suite registered before *)
    assert (Hne : before_dot fn <> k) by (intros E; congruence).
    rewrite bool_decide_false in Hp by done.
    rewrite _add_suite_metadata_new; cbn [_all_suites _all_cases]; fold k;
      [|by rewrite dict_get_update, HS; case_bool_decide].
    rewrite ?(bool_decide_false (k = before_dot fn)) by done.
    rewrite matched_snoc. cbn [case_full_name set_suite]. fold fn.
    rewrite Hp, app_nil_r.
    split; [|by eauto]. do 2 f_equal.
    + rewrite dict_update_app. f_equal. unfold dict_update. cbn [map fst snd].
      by rewrite bool_decide_false by done.
    + rewrite assign_suite_app. f_equal. unfold assign_suite.
      cbn [map fst snd]. by rewrite bool_decide_false by done.
  - destruct (decide (before_dot fn = k)) as [Hcase|Hcase].
    + (* the case belongs to the suite *)
      rewrite bool_decide_true in Hp by done.
      rewrite (bool_decide_true (k = before_dot fn)) by done.
      rewrite _add_suite_metadata_new; cbn [_all_suites _all_cases]; fold k;
        [|done].
      rewrite matched_snoc. fold fn. rewrite Hp.
      split; [|by eauto]. do 2 f_equal.
      * rewrite dict_update_app, dict_update_absent by (by rewrite Hcase).
        f_equal. unfold dict_update. cbn [map fst snd].
        rewrite bool_decide_true by done. do 2 f_equal.
        unfold append_case, append_cases. cbn. by rewrite <- app_assoc.
      * rewrite assign_suite_app. f_equal.
        -- apply assign_suite_ext. intros k' Hk'. rewrite elem_of_app.
           split; [by left|]. intros [?|Hin]; [done|].
           apply list_elem_of_singleton in Hin. by subst k'.
        -- unfold assign_suite. cbn [map fst snd].
           rewrite bool_decide_true; [by rewrite Hcase|].
           apply elem_of_app. right. by apply list_elem_of_singleton.
    + (* the case belongs to no registered suite *)
      rewrite bool_decide_false in Hp by done.
      rewrite (bool_decide_false (k = before_dot fn)) by done.
      rewrite _add_suite_metadata_new; cbn [_all_suites _all_cases]; fold k;
        [|done].
      rewrite matched_snoc. fold fn. rewrite Hp, app_nil_r.
      split; [|by eauto]. do 2 f_equal.
      rewrite assign_suite_app. f_equal. unfold assign_suite.
      cbn [map fst snd]. by rewrite bool_decide_false by done.
Qed.

Lemma registered_keys (k : bool * string) (reg : Registry) :
  registered k reg = true <->
  (if k.1 then k.2 ∈ (_all_suites reg).*1 else k.2 ∈ (_all_cases reg).*1).
Proof.
  unfold registered. destruct k as [[] k]; cbn [fst snd];
    rewrite bool_decide_eq_true; apply dict_get_Some_key.
Qed.

(** A decorator that registers writes its key, last, to its dictionary
    and no other key. *)
Lemma apply_decorator_keys (d : Decorated) (reg reg' : Registry) :
  apply_decorator d reg = inr reg' ->
  registered (decorated_key d) reg = false /\
  (_all_suites reg').*1 =
    (_all_suites reg).*1 ++
      (if (decorated_key d).1 then [(decorated_key d).2] else []) /\
  (_all_cases reg').*1 =
    (_all_cases reg).*1 ++
      (if (decorated_key d).1 then [] else [(decorated_key d).2]).
Proof.
  destruct d as [m|c]; cbn [apply_decorator decorated_key fst snd];
    unfold registered; cbn [fst snd].
  - destruct (dict_get (suite_key m) (_all_suites reg)) eqn:Hk.
    + unfold _add_suite_metadata. by rewrite Hk.
    + rewrite (_add_suite_metadata_new _ _ Hk). intros [= <-].
      cbn [_all_suites _all_cases].
      split; [apply bool_decide_false; by intros [? ?]|].
      split; [by rewrite fmap_app|].
      by rewrite assigned_keys, app_nil_r.
  - destruct (dict_get (case_full_name c) (_all_cases reg)) eqn:Hk.
    + unfold _add_case_metadata. by rewrite Hk.
    + rewrite (_add_case_metadata_new _ _ Hk). intros [= <-].
      split; [apply bool_decide_false; by intros [? ?]|].
      destruct (dict_get (before_dot _) _); cbn [_all_suites _all_cases];
        rewrite ?dict_update_keys, ?fmap_app, ?app_nil_r; done.
Qed.

Lemma apply_decorators_keeps (l : list Decorated) (reg reg' : Registry)
    (k : bool * string) :
  apply_decorators l reg = inr reg' ->
  registered k reg = true -> registered k reg' = true.
Proof.
  revert reg. induction l as [|d l IH]; intros reg H Hk.
  - by injection H as <-.
  - cbn [apply_decorators] in H.
    destruct (apply_decorator d reg) as [e|r] eqn:E; [done|].
    apply (IH r H). apply registered_keys. apply registered_keys in Hk.
    destruct (apply_decorator_keys _ _ _ E) as (_ & HS & HC).
    destruct k as [[] k]; cbn [fst snd] in *.
    + rewrite HS. apply elem_of_app. by left.
    + rewrite HC. apply elem_of_app. by left.
Qed.

(** X10: a name is registered once.  A decorator that registers found
    its key free; after it, and after whatever else is registered, a suite
    with the same key, or a case with the same full name, raises the
    exception of a duplicate name. *)
Theorem duplicate_name_raises (d d' : Decorated) (l : list Decorated)
    (reg reg' : Registry) :
  apply_decorators (d :: l) reg = inr reg' ->
  decorated_key d' = decorated_key d ->
  registered (decorated_key d) reg = false /\
  apply_decorator d' reg' = inl (DuplicateName (decorated_key d).2).
Proof.
  intros H Hkey. cbn [apply_decorators] in H.
  destruct (apply_decorator d reg) as [e|r] eqn:E; [done|].
  destruct (apply_decorator_keys _ _ _ E) as (Hfree & HS & HC).
  split; [done|].
  assert (Hin : registered (decorated_key d) reg' = true).
  { apply (apply_decorators_keeps l r); [done|]. apply registered_keys.
    destruct (decorated_key d) as [[] k]; cbn [fst snd] in *.
    - rewrite HS. apply elem_of_app. right. by apply list_elem_of_singleton.
    - rewrite HC. apply elem_of_app. right. by apply list_elem_of_singleton. }
  rewrite <- Hkey in *. unfold registered in Hin.
  destruct d' as [m'|c']; cbn [decorated_key fst snd apply_decorator] in *.
  - apply bool_decide_eq_true in Hin as [s Hs].
    unfold _add_suite_metadata. by rewrite Hs.
  - apply bool_decide_eq_true in Hin as [s Hs].
    unfold _add_case_metadata. by rewrite Hs.
Qed.

Lemma dict_get_app_Some {V} (k : string) (d1 d2 : dict V) (v : V) :
  dict_get k d1 = Some v -> dict_get k (d1 ++ d2) = Some v.
Proof. intros H. by rewrite dict_get_app, H. Qed.

Lemma consistent_suite (m : SuiteEntry) (reg reg' : Registry) :
  suite_cases m = [] -> consistent reg ->
  _add_suite_metadata m reg = inr reg' -> consistent reg'.
Proof.
  intros Hm [H1 H2].
  destruct (dict_get (suite_key m) (_all_suites reg)) eqn:Hk.
  { unfold _add_suite_metadata. by rewrite Hk. }
  rewrite (_add_suite_metadata_new _ _ Hk). intros [= <-].
  split; cbn [_all_suites _all_cases].
  - intros fn c k. rewrite assigned_get.
    destruct (dict_get fn (_all_cases reg)) as [c0|] eqn:Hc; [|done].
    cbn. intros [= <-].
    destruct (bool_decide (fn ∈ matched _ _)) eqn:Hin.
    + apply bool_decide_eq_true in Hin. cbn. intros [= <-].
      exists (append_cases (matched (suite_key m) (_all_cases reg)) m).
      split.
      * rewrite dict_get_app, Hk, dict_get_cons. cbn [fst snd].
        by rewrite bool_decide_true by done.
      * cbn. apply elem_of_app. by right.
    + intros Hs. destruct (H1 fn c0 k Hc Hs) as (s & Hs1 & Hs2).
      exists s. split; [by apply dict_get_app_Some|done].
  - intros k s fn. rewrite dict_get_app.
    destruct (dict_get k (_all_suites reg)) as [s0|] eqn:Hs.
    + intros [= <-] Hin. destruct (H2 k s0 fn Hs Hin) as [c Hc].
      rewrite assigned_get, Hc. by eauto.
    + rewrite dict_get_cons, dict_get_nil. cbn [fst snd].
      case_bool_decide; [|done]. intros [= <-]. cbn. rewrite Hm.
      intros Hin. apply matched_keys in Hin.
      apply dict_get_Some_key. by rewrite assigned_keys.
Qed.

Lemma consistent_case (c : CaseEntry) (reg reg' : Registry) :
  case_suite c = None -> consistent reg ->
  _add_case_metadata c reg = inr reg' -> consistent reg'.
Proof.
  intros Hfresh [H1 H2].
  destruct (dict_get (case_full_name c) (_all_cases reg)) eqn:Hk.
  { unfold _add_case_metadata. by rewrite Hk. }
  rewrite (_add_case_metadata_new _ _ Hk). intros [= <-].
  destruct (dict_get (before_dot _) (_all_suites reg)) as [s0|] eqn:Hcn;
    split; cbn [_all_suites _all_cases].
  - intros fn c1 k. rewrite dict_get_app.
    destruct (dict_get fn (_all_cases reg)) as [c0|] eqn:Hc.
    + intros [= <-] Hs. destruct (H1 fn c0 k Hc Hs) as (s & Hs1 & Hs2).
      rewrite dict_get_update, Hs1. case_bool_decide.
      * exists (append_case (case_full_name c) s). split; [done|].
        cbn. apply elem_of_app. by left.
      * by exists s.
    + rewrite dict_get_cons, dict_get_nil. cbn [fst snd].
      case_bool_decide as E; [|done]. intros [= <-]. cbn. intros [= <-].
      rewrite dict_get_update, bool_decide_true, Hcn by done.
      eexists. split; [done|]. cbn. apply elem_of_app. right.
      apply list_elem_of_singleton. done.
  - intros k s fn. rewrite dict_get_update.
    assert (Hmono : forall f, is_Some (dict_get f (_all_cases reg)) ->
              is_Some (dict_get f (_all_cases reg ++
                [(case_full_name c,
                  set_suite (before_dot (case_full_name c)) c)]))).
    { intros f [x Hx]. rewrite (dict_get_app_Some _ _ _ _ Hx). by eauto. }
    case_bool_decide as E.
    + subst k. rewrite Hcn. cbn. intros [= <-]. cbn.
      rewrite elem_of_app, list_elem_of_singleton. intros [Hin| ->].
      * apply Hmono. by apply (H2 _ _ _ Hcn).
      * apply dict_get_Some_key. rewrite fmap_app. apply elem_of_app.
        right. by apply list_elem_of_singleton.
    + intros Hs Hin. apply Hmono. by apply (H2 _ _ _ Hs).
  - intros fn c1 k. rewrite dict_get_app.
    destruct (dict_get fn (_all_cases reg)) as [c0|] eqn:Hc.
    + intros [= <-]. by apply H1.
    + rewrite dict_get_cons, dict_get_nil. cbn [fst snd].
      case_bool_decide as E; [|done]. intros [= <-]. by rewrite Hfresh.
  - intros k s fn Hs Hin. destruct (H2 _ _ _ Hs Hin) as [x Hx].
    rewrite (dict_get_app_Some _ _ _ _ Hx). by eauto.
Qed.

Lemma keyed_step (d : Decorated) (reg reg' : Registry) :
  keyed reg -> apply_decorator d reg = inr reg' -> keyed reg'.
Proof.
  intros [HS HC]. destruct d as [m|c]; cbn [apply_decorator].
  - destruct (dict_get (suite_key m) (_all_suites reg)) eqn:Hk.
    { unfold _add_suite_metadata. by rewrite Hk. }
    rewrite (_add_suite_metadata_new _ _ Hk). intros [= <-].
    split; cbn [_all_suites _all_cases].
    + apply Forall_app. split; [done|]. by apply Forall_singleton.
    + unfold assign_suite. apply Forall_map. eapply Forall_impl; [exact HC|].
      intros [k c] Hkc. cbn [fst snd] in *. by case_bool_decide.
  - destruct (dict_get (case_full_name c) (_all_cases reg)) eqn:Hk.
    { unfold _add_case_metadata. by rewrite Hk. }
    rewrite (_add_case_metadata_new _ _ Hk). intros [= <-].
    destruct (dict_get (before_dot _) (_all_suites reg)) as [s0|]; split;
      cbn [_all_suites _all_cases]; try done.
    + unfold dict_update. apply Forall_map. eapply Forall_impl; [exact HS|].
      intros [k s] Hks. cbn [fst snd] in *. by case_bool_decide.
    + apply Forall_app. split; [done|]. by apply Forall_singleton.
    + apply Forall_app. split; [done|]. by apply Forall_singleton.
Qed.

Lemma NoDup_step (d : Decorated) (reg reg' : Registry) :
  NoDup (_all_suites reg).*1 -> NoDup (_all_cases reg).*1 ->
  apply_decorator d reg = inr reg' ->
  NoDup (_all_suites reg').*1 /\ NoDup (_all_cases reg').*1.
Proof.
  intros HS HC E. destruct (apply_decorator_keys _ _ _ E) as (Hf & ES & EC).
  rewrite ES, EC.
  assert (Hn : ~ registered (decorated_key d) reg = true) by by rewrite Hf.
  rewrite registered_keys in Hn.
  destruct (decorated_key d) as [[] k]; cbn [fst snd] in *;
    rewrite app_nil_r.
  - split; [|done]. apply NoDup_app. split; [done|].
    split; [|apply NoDup_singleton].
    intros x Hx Hx'. apply list_elem_of_singleton in Hx'. by subst x.
  - split; [done|]. apply NoDup_app. split; [done|].
    split; [|apply NoDup_singleton].
    intros x Hx Hx'. apply list_elem_of_singleton in Hx'. by subst x.
Qed.

Lemma registry_invariant (l : list Decorated) (reg reg' : Registry) :
  Forall (fun d => fresh d = true) l ->
  consistent reg -> keyed reg ->
  NoDup (_all_suites reg).*1 -> NoDup (_all_cases reg).*1 ->
  apply_decorators l reg = inr reg' ->
  consistent reg' /\ keyed reg' /\
  NoDup (_all_suites reg').*1 /\ NoDup (_all_cases reg').*1.
Proof.
  intros Hl. revert reg. induction Hl as [|d l Hd _ IH];
    intros reg Hc Hk HS HC H.
  - by injection H as <-.
  - cbn [apply_decorators] in H.
    destruct (apply_decorator d reg) as [e|r] eqn:E; [done|].
    destruct (NoDup_step _ _ _ HS HC E) as [HS' HC'].
    apply (IH r); try done.
    + destruct d as [m|c]; cbn [apply_decorator fresh] in *;
        apply bool_decide_eq_true in Hd.
      * by apply (consistent_suite m reg).
      * by apply (consistent_case c reg).
    + by apply (keyed_step d reg).
Qed.

(** X11: the two dictionaries stay consistent.  After any decorators
    that register themselves as they are made (a suite without cases, a
    case without suite), in any order, from the empty registry: the suite
    of each case is registered and lists the case, the cases a suite
    lists are registered, every object is held under its own key, and no
    key is held twice. *)
Theorem registry_consistent (l : list Decorated) (reg : Registry) :
  Forall (fun d => fresh d = true) l ->
  apply_decorators l new_Registry = inr reg ->
  consistent reg /\ keyed reg /\
  NoDup (_all_suites reg).*1 /\ NoDup (_all_cases reg).*1.
Proof.
  intros Hl H.
  assert (Hc : consistent new_Registry).
  { split; intros ? ? ?; cbn [new_Registry _all_suites _all_cases];
      by rewrite dict_get_nil. }
  assert (Hk : keyed new_Registry) by by split.
  exact (registry_invariant l new_Registry reg Hl Hc Hk
           (NoDup_nil_2 : NoDup (_all_suites new_Registry).*1)
           (NoDup_nil_2 : NoDup (_all_cases new_Registry).*1) H).
Qed.

(** ** The shell *)

(** X16: a [ConnectionInfo] holds exactly one credential.  The constructor
    returns only with a user name that is not empty; when a key file is
    given it must exist and the password is dropped, when none is given
    the password is kept and the key file is [None].  Without any
    credential it raises [LisaException] first; a key file that does not
    exist raises [FileNotFoundError] before the user name is looked at. *)
Theorem connection_holds_one_credential (path_exists : string -> bool)
    (address : string) (port : Z) (username : string)
    (password private_key_file : option string) :
  match Shell.new_ConnectionInfo path_exists address port username password
          private_key_file with
  | inr info =>
      Shell.address info = address /\ Shell.port info = port /\
      Shell.username info = username /\ str_truthy username = true /\
      (if Shell.truthy private_key_file
       then Shell.password info = None /\
            Shell.private_key_file info = private_key_file /\
            exists path, private_key_file = Some path /\
                         path_exists path = true
       else Shell.password info = password /\
            Shell.private_key_file info = None /\
            Shell.truthy password = true)
  | inl (Shell.FileNotFoundError path) =>
      private_key_file = Some path /\ str_truthy path = true /\
      path_exists path = false
  | inl (Shell.LisaException text) =>
      (text = "at least one of password and privateKeyFile need to be set" /\
       Shell.truthy password = false /\
       Shell.truthy private_key_file = false) \/
      (text = "username must be set" /\ str_truthy username = false /\
       (Shell.truthy password = true \/ Shell.truthy private_key_file = true) /\
       (forall path, Shell.truthy private_key_file = true ->
                     private_key_file = Some path -> path_exists path = true))
  end.
Proof.
  unfold Shell.new_ConnectionInfo.
  destruct private_key_file as [path|]; cbn [Shell.truthy].
  - destruct (str_truthy path) eqn:Hp; cbn [negb andb].
    + rewrite andb_false_r.
      destruct (path_exists path) eqn:He; cbn [negb]; [|done].
      destruct (str_truthy username) eqn:Hu; cbn [negb].
      * cbn [Shell.address Shell.port Shell.username Shell.password
             Shell.private_key_file]. split_and!; try done. by exists path.
      * right. split_and!; try done; [by right|]. by intros ? _ [= <-].
    + rewrite andb_true_r.
      destruct (Shell.truthy password) eqn:Hw; cbn [negb]; [|by left].
      destruct (str_truthy username) eqn:Hu; cbn [negb].
      * cbn [Shell.address Shell.port Shell.username Shell.password
             Shell.private_key_file]. split_and!; done.
      * right. split_and!; try done. by left.
  - rewrite andb_true_r.
    destruct (Shell.truthy password) eqn:Hw; cbn [negb]; [|by left].
    destruct (str_truthy username) eqn:Hu; cbn [negb].
    + cbn [Shell.address Shell.port Shell.username Shell.password
           Shell.private_key_file]. split_and!; done.
    + right. split_and!; try done. by left.
Qed.

Lemma join_cons_cons sep (x y : string) (l : list string) :
  join sep (x :: y :: l) = x +:+ sep +:+ join sep (y :: l).
Proof. done. Qed.

Lemma append_assoc (s1 s2 s3 : string) :
  (s1 +:+ s2) +:+ s3 = s1 +:+ (s2 +:+ s3).
Proof.
  induction s1 as [|a s1 IH]; [done|].
  change (String a ((s1 +:+ s2) +:+ s3) = String a (s1 +:+ (s2 +:+ s3))).
  by rewrite IH.
Qed.

Lemma join_snoc sep (l : list string) (z y : string) :
  join sep ((z :: l) ++ [y]) = join sep (z :: l) +:+ sep +:+ y.
Proof.
  revert z. induction l as [|z' l IH]; intros z; [done|].
  rewrite <- !app_comm_cons, !join_cons_cons.
  rewrite app_comm_cons, IH. by rewrite !append_assoc.
Qed.

(** X17: the command [WindowsShellType.generate_run_command] makes.
    Without a process id, a directory or variables it is the arguments
    joined by blanks.  Storing the
    process id puts its command and a blank in front of the command made
    without.  With a directory the command ends with the arguments between
    [pushd] and [popd].  Variables are added to the list of commands as a
    string, that is character by character: without process id and
    directory the command then begins with the letters of [set] held
    apart by blanks. *)
Theorem windows_run_command (command_args : list string)
    (cwd : option string) (update_env : option (list (string * string)))
    (new_process_group : bool) :
  Shell.generate_run_command command_args false None None new_process_group
    = join " " command_args /\
  Shell.generate_run_command command_args false None (Some [])
    new_process_group = join " " command_args /\
  Shell.generate_run_command command_args true cwd update_env
    new_process_group =
    Shell.pid_command +:+ " " +:+
    Shell.generate_run_command command_args false cwd update_env
      new_process_group /\
  (forall dir, cwd = Some dir ->
     exists front,
       Shell.generate_run_command command_args false cwd update_env
         new_process_group =
       front +:+ " " +:+ ("pushd " +:+ dir +:+ " & ") +:+ " " +:+
       join " " command_args +:+ " " +:+ " & popd") /\
  (forall item items, update_env = Some (item :: items) ->
     String.prefix "s e t   "
       (Shell.generate_run_command command_args false None update_env
          new_process_group) = true).
Proof.
  split; [done|]. split; [done|]. split; [|split].
  - unfold Shell.generate_run_command. cbn [app].
    destruct cwd as [dir|], update_env as [[|item items]|];
      cbn [app]; try done.
    destruct (Shell.chars _); done.
  - intros dir ->. unfold Shell.generate_run_command. cbn [app].
    assert (Hgen : forall (z x y w : string) (l : list string),
              join " " ((((z :: l) ++ [x]) ++ [y]) ++ [w]) =
                join " " (z :: l) +:+ " " +:+ x +:+ " " +:+ y +:+ " " +:+ w).
    { intros z x y w l.
      change ((((z :: l) ++ [x]) ++ [y]) ++ [w])
        with ((z :: ((l ++ [x]) ++ [y])) ++ [w]).
      rewrite (join_snoc " " ((l ++ [x]) ++ [y]) z w).
      change (z :: (l ++ [x]) ++ [y]) with ((z :: (l ++ [x])) ++ [y]).
      rewrite (join_snoc " " (l ++ [x]) z y).
      change (z :: l ++ [x]) with ((z :: l) ++ [x]).
      rewrite (join_snoc " " l z x).
      by rewrite !append_assoc. }
    destruct update_env as [[|item items]|]; cbn [app].
    + eexists. apply (Hgen _ _ _ _ [_]).
    + eexists. apply (Hgen _ _ _ _ (_ :: _)).
    + eexists. apply (Hgen _ _ _ _ [_]).
  - intros item items ->. unfold Shell.generate_run_command. cbn [app].
    assert (E : exists rest,
              Shell.env_text (item :: items) = "set " +:+ rest).
    { unfold Shell.env_text. destruct items as [|item' items]; cbn [map].
      - by exists ((item.1 +:+ "=" +:+ item.2) +:+ "& ").
      - by exists (((item.1 +:+ "=" +:+ item.2) +:+ "& " +:+
                    join "& " (map (fun kv => "set " +:+ kv.1 +:+ "=" +:+ kv.2)
                                   (item' :: items))) +:+ "& "). }
    destruct E as [rest ->].
    change (Shell.chars ("set " +:+ rest))
      with ("s" :: "e" :: "t" :: " " :: Shell.chars rest).
    destruct (Shell.chars rest); cbn; apply prefix_nil.
Qed.

(** * Instances of the properties *)

Import Demo.

(** Membership in a batch that is written out. *)
Ltac in_batch := simpl; rewrite ?elem_of_cons; auto.

Lemma exit_code_counts_failed_witness :
  exists runner s',
    LisaRunner_start (platform ["e1"; "e2"]) selected (state_with [])
      = Done runner s' /\
    exit_code runner = 1 /\
    exit_code runner =
      length (List.filter (has_status FAILED) (_latest_test_results runner)).
Proof.
  assert (H : { rs : LisaRunner * State |
                LisaRunner_start (platform ["e1"; "e2"]) selected
                                 (state_with []) = Done rs.1 rs.2 }).
  { eexists (_, _). vm_compute. reflexivity. }
  destruct H as [[runner s'] H]. simpl in H.
  exists runner, s'. split; [exact H|].
  split.
  - vm_compute in H. by injection H as <- _.
  - exact (proj1 (proj2 (proj2
      (exit_code_counts_failed _ _ _ _ _ H)))).
Defined.

Lemma retry_budget_witness :
  (let s := state_with [failing] in
   let s' := (start_case (suite_on quiet_class [0]) true empty_str 0 s).2 in
   occurrences (EvTestMethod 0) (trace_since s s') = 3 /\
   status (results s' !!! 0) = FAILED) /\
  (let s := state_with [guarded] in
   let s' := (start_case (suite_on broken_before_case [0]) true empty_str 0 s).2 in
   occurrences (EvBeforeCase 0) (trace_since s s') = 2 /\
   status (results s' !!! 0) = SKIPPED /\
   occurrences (EvTestMethod 0) (trace_since s s') = 0).
Proof.
  split.
  - apply (proj1 (retry_budget (suite_on quiet_class [0]) empty_str 0
                    (state_with [failing]) failing eq_refl)).
    + reflexivity.
    + intros w. simpl. discriminate.
  - apply (proj2 (retry_budget (suite_on broken_before_case [0]) empty_str 0
                    (state_with [guarded]) guarded eq_refl)).
    intros w. simpl. discriminate.
Defined.

Lemma ignore_failure_attempted_witness :
  let s := state_with [passing; failing_ignored] in
  let s' := (start_case (suite_on quiet_class [1]) true empty_str 1 s).2 in
  status (results s' !!! 1) = ATTEMPTED /\
  status (results s' !!! 1) <> FAILED /\
  failed_count (results s') = failed_count (delete 1 (results s')).
Proof.
  destruct (ignore_failure_attempted (suite_on quiet_class [1]) empty_str 1
              (state_with [passing; failing_ignored]) failing_ignored)
    as (H1 & H2 & H3 & _).
  - reflexivity.
  - reflexivity.
  - reflexivity.
  - intros w. simpl. discriminate.
  - cbv zeta. exact (conj H1 (conj H2 H3)).
Defined.

Lemma exhaustive_disposition_witness :
  exists runner s',
    LisaRunner_start (platform ["e1"; "e2"]) selected (state_with [])
      = Done runner s' /\
    Forall (fun r => terminal (status r) = true /\ status r <> NOTRUN)
           (results s').
Proof.
  assert (H : { rs : LisaRunner * State |
                LisaRunner_start (platform ["e1"; "e2"]) selected
                                 (state_with []) = Done rs.1 rs.2 }).
  { eexists (_, _). vm_compute. reflexivity. }
  destruct H as [[runner s'] H]. simpl in H.
  exists runner, s'. split; [exact H|].
  exact (proj1 (proj2 (exhaustive_disposition _ _ _ _ _ H))).
Defined.

Lemma before_suite_failure_skips_witness :
  let s := state_with (two_cases broken_before_suite) in
  let s' := (TestSuite_start (suite_on broken_before_suite [0; 1]) s).2 in
  reached_cases (suite_on broken_before_suite [0; 1]) s = [0; 1] /\
  status (results s' !!! 0) = SKIPPED /\
  status (results s' !!! 1) = SKIPPED /\
  message (results s' !!! 1) = "before_suite: no setup" /\
  occurrences EvAfterSuite (trace_since s s') = 1.
Proof.
  pose proof (before_suite_failure_skips (suite_on broken_before_suite [0; 1])
                (state_with (two_cases broken_before_suite)) "no setup"
                eq_refl) as H.
  cbv zeta in H. destruct H as (_ & _ & Hst & Hmsg & _ & _ & Hone & _).
  assert (Hgot : reached_cases (suite_on broken_before_suite [0; 1])
                   (state_with (two_cases broken_before_suite)) = [0; 1])
    by reflexivity.
  rewrite Hgot in Hst, Hmsg. cbv zeta. split_and!.
  - exact Hgot.
  - apply Hst; [in_batch|simpl; lia].
  - apply Hst; [in_batch|simpl; lia].
  - destruct (Hmsg (NoDup_seq 0 2) 1) as [_ Hm]; [in_batch|simpl; lia|].
    exact Hm.
  - exact Hone.
Defined.

(** C5 as it is worded fails when a stop request is seen: [before_suite]
    raises, a stop arrives while [after_case] runs for the first case, and
    the second case of the batch is left [NOTRUN]. *)
Lemma before_suite_failure_stop_counterexample :
  let self := suite_on broken_and_stopped [0; 1] in
  let s := state_with (two_cases broken_and_stopped) in
  let s' := (TestSuite_start self s).2 in
  (before_suite (test_class (_metadata self)) (environment self) (world s)).1
    = Raise "no setup" /\
  1 ∈ case_results self /\
  status (results s' !!! 1) = NOTRUN /\
  ~ (forall i, i ∈ case_results self -> status (results s' !!! i) = SKIPPED).
Proof.
  cbv zeta. split; [reflexivity|]. split; [in_batch|].
  split; [reflexivity|].
  intros H. specialize (H 1 ltac:(in_batch)). vm_compute in H. discriminate.
Qed.

Lemma notify_on_change_only_witness :
  (set_status passing PASSED (MsgStr empty_str)).2 =
    [EvNotify {| msg_status := PASSED; msg_message := empty_str;
                 msg_env := empty_str |}] /\
  (set_status (set_status passing PASSED (MsgStr empty_str)).1 PASSED
              (MsgStr empty_str)).2 = [].
Proof.
  destruct notify_on_change_only as (_ & Hne & Hsame & _).
  split.
  - apply (Hne passing PASSED (MsgStr empty_str)). simpl. discriminate.
  - apply Hsame.
Defined.

(** C8 as it is worded fails for an environment that no case needs: the
    iteration is left by [continue], the environment is not ready, and
    [delete_environment] is not called. *)
Lemma deprovision_not_ready_counterexample :
  let s := state_with [passing] in
  exists can_run_results s',
    iteration (platform ["e2"]) "e2" [0] s = Done (Continue, can_run_results) s' /\
    deletions (trace_since s s') = [] /\
    ~ EvDelete "e2" ∈ trace s'.
Proof.
  cbv zeta. eexists _, _. split; [vm_compute; reflexivity|].
  split; [reflexivity|]. simpl. apply not_elem_of_nil.
Qed.

Lemma first_registration_kept_witness :
  let first := {| qualname := "AzurePlatform"; cls_type_name := Some "azure" |} in
  let second := {| qualname := "AzureCopy"; cls_type_name := Some "azure" |} in
  let made := create_by_type_name [first; second] "azure" new_Factory in
  made.1 = inr (InstanceOf first) /\
  (create_by_type_name [second; first] "azure" made.2).1 = inr (InstanceOf first).
Proof.
  cbv zeta.
  destruct (proj2 first_registration_kept
              [{| qualname := "AzurePlatform"; cls_type_name := Some "azure" |};
               {| qualname := "AzureCopy"; cls_type_name := Some "azure" |}]
              "azure"
              {| qualname := "AzurePlatform"; cls_type_name := Some "azure" |})
    as (H1 & _ & H2 & _).
  - repeat constructor; by eexists.
  - reflexivity.
  - split; [exact H1|apply H2].
Defined.

Lemma after_case_for_every_reached_case_witness :
  let self := suite_on broken_before_case [0] in
  let s := state_with [guarded] in
  let s' := (TestSuite_start self s).2 in
  status (results s' !!! 0) = SKIPPED /\
  1 <= occurrences (EvAfterCase 0) (trace_since s s').
Proof.
  cbv zeta. split; [reflexivity|].
  destruct (after_case_for_every_reached_case (suite_on broken_before_case [0])
              (state_with [guarded])) as (_ & _ & Hge & _).
  apply Hge.
  assert (Hgot : reached_cases (suite_on broken_before_case [0])
                   (state_with [guarded]) = [0]) by reflexivity.
  rewrite Hgot. apply elem_of_cons. by left.
Defined.

(** C10 as it is worded fails when a stop request is seen: a stop arrives
    while [after_case] runs for the first case, the loop is left, and
    [after_case] is never called for the second case of the batch. *)
Lemma after_case_stop_counterexample :
  let self := suite_on stopped [0; 1] in
  let s := state_with (two_cases stopped) in
  let s' := (TestSuite_start self s).2 in
  1 ∈ case_results self /\
  occurrences (EvAfterCase 1) (trace_since s s') = 0 /\
  ~ (forall i, i ∈ case_results self ->
       1 <= occurrences (EvAfterCase i) (trace_since s s')).
Proof.
  cbv zeta. split; [in_batch|]. split; [reflexivity|].
  intros H. specialize (H 1 ltac:(in_batch)). vm_compute in H. lia.
Qed.

(** ** Instances of the further properties *)

Lemma unreached_cases_untouched_witness :
  let self := suite_on stopped [0; 1] in
  let s := state_with (two_cases stopped) in
  let s' := (TestSuite_start self s).2 in
  reached_cases self s = [0] /\
  results s' !!! 1 = results s !!! 1 /\
  occurrences (EvTestMethod 1) (trace_since s s') = 0.
Proof.
  cbv zeta.
  assert (Hgot : reached_cases (suite_on stopped [0; 1])
                   (state_with (two_cases stopped)) = [0]) by reflexivity.
  split; [exact Hgot|].
  destruct (unreached_cases_untouched (suite_on stopped [0; 1])
              (state_with (two_cases stopped)) 1) as (H1 & _ & H2 & _).
  - rewrite Hgot. apply not_elem_of_cons. split; [lia|apply not_elem_of_nil].
  - split; [exact H1|exact H2].
Defined.

Lemma first_attempt_passes_witness :
  let s := state_with [passing] in
  let s' := (start_case (suite_on quiet_class [0]) true empty_str 0 s).2 in
  status (results s' !!! 0) = PASSED /\
  occurrences (EvTestMethod 0) (trace_since s s') = 1.
Proof.
  cbv zeta.
  destruct (first_attempt_passes (suite_on quiet_class [0]) empty_str 0
              (state_with [passing]) passing eq_refl eq_refl eq_refl)
    as (H1 & _ & _ & H2).
  split; [exact H1|exact H2].
Defined.

Lemma unknown_type_name_raises_witness :
  (create_by_type_name [azure; azure_copy] "gcp" new_Factory).1 =
    inl (LisaException "cannot find subclass 'gcp'").
Proof.
  apply (proj1 (proj1 (unknown_type_name_raises [azure; azure_copy] "gcp"
                         ltac:(repeat constructor; by eexists)))).
  reflexivity.
Defined.

Lemma every_subclass_registered_or_warned_witness :
  let once := (_initialize [azure; azure_copy] new_Factory).2 in
  size (data once) + length (warnings once) =
    size (data new_Factory) + length (warnings new_Factory) +
    length [azure; azure_copy].
Proof.
  exact (proj1 (proj2 (every_subclass_registered_or_warned
                         [azure; azure_copy] new_Factory
                         ltac:(repeat constructor; by eexists)))).
Defined.

Lemma abstract_subclass_breaks_factory_witness :
  (create_by_type_name [azure; abstract_platform; ready_platform] "azure"
                       new_Factory).1 = inl NotImplementedError.
Proof.
  exact (proj1 (proj2 (abstract_subclass_breaks_factory
                         [azure] [ready_platform] abstract_platform "azure"
                         ltac:(repeat constructor; by eexists) eq_refl))).
Defined.

Lemma registration_order_irrelevant_witness :
  apply_decorators [DecoratedSuite hello_suite; DecoratedCase hello_case]
                   new_Registry =
  apply_decorators [DecoratedCase hello_case; DecoratedSuite hello_suite]
                   new_Registry.
Proof.
  exact (proj1 (registration_order_irrelevant hello_suite hello_case
                  new_Registry eq_refl eq_refl eq_refl eq_refl)).
Defined.

Lemma duplicate_name_raises_witness :
  exists reg,
    apply_decorators [DecoratedSuite hello_suite; DecoratedCase hello_case]
                     new_Registry = inr reg /\
    apply_decorator (DecoratedSuite hello_suite) reg =
      inl (DuplicateName "HelloWorld").
Proof.
  assert (H : { reg : Registry |
                apply_decorators
                  [DecoratedSuite hello_suite; DecoratedCase hello_case]
                  new_Registry = inr reg }).
  { eexists. vm_compute. reflexivity. }
  destruct H as [reg H]. exists reg. split; [exact H|].
  exact (proj2 (duplicate_name_raises (DecoratedSuite hello_suite)
                  (DecoratedSuite hello_suite) [DecoratedCase hello_case]
                  new_Registry reg H eq_refl)).
Defined.

Lemma registry_consistent_witness :
  exists reg,
    apply_decorators [DecoratedCase hello_case; DecoratedSuite hello_suite]
                     new_Registry = inr reg /\
    consistent reg /\ keyed reg.
Proof.
  assert (H : { reg : Registry |
                apply_decorators
                  [DecoratedCase hello_case; DecoratedSuite hello_suite]
                  new_Registry = inr reg }).
  { eexists. vm_compute. reflexivity. }
  destruct H as [reg H]. exists reg. split; [exact H|].
  destruct (registry_consistent
              [DecoratedCase hello_case; DecoratedSuite hello_suite] reg
              ltac:(repeat constructor) H) as (Hc & Hk & _).
  split; [exact Hc|exact Hk].
Defined.

Lemma merge_requirements_requests_witness :
  let s := state_with [passing; azure_only] in
  exists s',
    _merge_test_requirements [0; 1] "mock" s = Done tt s' /\
    results s' !!! 0 = passing /\
    status (results s' !!! 1) = SKIPPED.
Proof.
  cbv zeta.
  destruct (proj2 (merge_requirements_requests [0; 1] "mock"
                     (state_with [passing; azure_only])) eq_refl
              (NoDup_seq 0 2))
    as (s' & E & _ & Hin & _).
  - intros i Hi. apply elem_of_cons in Hi as [->|Hi]; [simpl; lia|].
    apply elem_of_cons in Hi as [->|Hi]; [simpl; lia|].
    by apply elem_of_nil in Hi.
  - intros i Hi _. apply elem_of_cons in Hi as [->|Hi]; [by eexists|].
    apply elem_of_cons in Hi as [->|Hi]; [by eexists|].
    by apply elem_of_nil in Hi.
  - exists s'. split; [exact E|]. split.
    + destruct (Hin 0 ltac:(in_batch)) as (_ & H & _). by apply H.
    + destruct (Hin 1 ltac:(in_batch)) as (_ & _ & H).
      by destruct (H eq_refl).
Defined.

Lemma run_suite_names_environment_witness :
  let s := state_with [passing] in
  exists s',
    _run_suite (C := demo) "e1" [0] s = Done tt s' /\
    env (results s' !!! 0) = "e1" /\
    Forall (names_environment "e1") (trace_since s s').
Proof.
  cbv zeta.
  destruct (proj2 (run_suite_names_environment (C := demo) "e1" [0]
                     (state_with [passing])) ltac:(done))
    as (s' & E & Hin & _ & Hd).
  - intros i Hi. apply elem_of_cons in Hi as [->|Hi]; [simpl; lia|].
    by apply elem_of_nil in Hi.
  - exists s'. split; [exact E|]. split; [|exact Hd].
    apply Hin. in_batch.
Defined.


Lemma no_runnable_case_stops_witness :
  let s := state_with [(set_status passing PASSED (MsgStr empty_str)).1] in
  environment_loop (platform ["e1"; "e2"]) ["e1"; "e2"] [0] s =
    bindM (iteration_finally (platform ["e1"; "e2"]) "e1")
          (fun _ => retM []) s.
Proof.
  cbv zeta.
  apply (proj1 (no_runnable_case_stops (platform ["e1"; "e2"]) "e1" ["e2"]
                  [0] (state_with
                         [(set_status passing PASSED (MsgStr empty_str)).1])
                  ltac:(intros i Hi; apply elem_of_cons in Hi as [->|Hi];
                        [by vm_compute|by apply elem_of_nil in Hi]))).
Defined.
